(** * PNG to PDF conversion: a shallow embedding of
    [tools/convert_pngs_into_pdf.py]

    The development follows the Python module top to bottom: the container
    parser ([PngImage.load]), the scanline filters ([apply_filter],
    [paeth_predictor]), the pixel compositor ([PngImage.to_rgb]) and the
    document builder ([make_pdf]).

    Conventions.
    - [bytes] and [bytearray] values are [list byte].
    - Python integers that take part in sample arithmetic are [Z]; sizes,
      indices and loop counters, which the code keeps non-negative, are
      [nat].
    - A raised exception is a value of [exn]; code that can raise returns
      [outcome].  Methods that mutate [self] before raising thread the object
      explicitly, so that the object left behind by a failure is visible.
    - [zlib.compress] and [zlib.decompress] belong to the Python runtime and
      are section variables. *)

From Stdlib Require Import ZArith List Lia Bool Arith.
From Stdlib Require Import Strings.String Strings.Ascii Strings.Byte.
From Stdlib Require Import Numbers.DecimalString Numbers.DecimalNat.
From Stdlib Require Import Numbers.DecimalFacts.
From stdpp Require Import base list.

Local Open Scope Z_scope.

(* ================================================================== *)
(** * Exceptions and results *)
(* ================================================================== *)

(** The [SystemExit] messages of the module, one constructor per message
    (the path prefix of the message is left out). *)
Inductive exit_reason : Type :=
| NotAPngFile                         (* "... is not a PNG file" *)
| NoImageData                         (* "... does not contain any image data" *)
| UnsupportedBitDepth (depth : nat)   (* "unsupported bit depth ..." *)
| InterlacedNotSupported              (* "interlaced PNGs are not supported" *)
| UnsupportedColorType (ct : nat)     (* "unsupported color type ..." *)
| MissingPLTE                         (* "indexed PNG is missing a PLTE chunk" *)
| UnsupportedCompressionParameters    (* "unsupported PNG compression parameters" *)
| MalformedPLTE                       (* "malformed PLTE chunk" *)
| InvalidPaletteSize (entries : nat)  (* "invalid palette size ..." *)
| PaletteIndexOutOfRange (index : nat)(* "palette index ... out of range" *)
| UnsupportedFilterType (ft : nat).   (* "Unsupported PNG filter type ..." *)

(** Exceptions the module can raise: its own [SystemExit]s and the ones
    that escape from the runtime ([struct.error], [zlib.error], and the
    built-in [IndexError], [ValueError], [AssertionError]). *)
Inductive exn : Type :=
| SystemExit (r : exit_reason)
| StructError
| ZlibError
| IndexError
| ValueError
| AssertionError.

Inductive outcome (A : Type) : Type :=
| Ok (a : A)
| Raise (e : exn).
Arguments Ok {A} a.
Arguments Raise {A} e.

Definition bind {A B} (m : outcome A) (k : A -> outcome B) : outcome B :=
  match m with
  | Ok a => k a
  | Raise e => Raise e
  end.

Notation "'let*' x ':=' m 'in' k" := (bind m (fun x => k))
  (at level 10, x name, m at level 100, k at level 200).

(** The error kinds of the design document, and the kind each exception
    falls under.  Only [SystemExit]s are classified. *)
Inductive error_kind : Type :=
| SignatureError
| UnsupportedFormatError
| MissingDataError
| MalformedChunkError
| PaletteIndexOutOfRangeError
| FilterTypeError.

Definition kind_of_exit (r : exit_reason) : error_kind :=
  match r with
  | NotAPngFile => SignatureError
  | NoImageData => MissingDataError
  | UnsupportedBitDepth _ => UnsupportedFormatError
  | InterlacedNotSupported => UnsupportedFormatError
  | UnsupportedColorType _ => UnsupportedFormatError
  | MissingPLTE => MissingDataError
  | UnsupportedCompressionParameters => UnsupportedFormatError
  | MalformedPLTE => MalformedChunkError
  | InvalidPaletteSize _ => MalformedChunkError
  | PaletteIndexOutOfRange _ => PaletteIndexOutOfRangeError
  | UnsupportedFilterType _ => FilterTypeError
  end.

Definition classify (e : exn) : option error_kind :=
  match e with
  | SystemExit r => Some (kind_of_exit r)
  | _ => None
  end.

(* ================================================================== *)
(** * Bytes *)
(* ================================================================== *)

Abbreviation bytes := (list byte).

Definition byte_val (b : byte) : Z := Z.of_N (Byte.to_N b).

(** Conversion of an integer to a byte, as done when an [int] is stored
    in a [bytearray]: [ValueError] outside [range(256)]. *)
Definition byte_of_int (z : Z) : outcome byte :=
  if (0 <=? z) && (z <=? 255) then
    match Byte.of_N (Z.to_N z) with
    | Some b => Ok b
    | None => Raise ValueError
    end
  else Raise ValueError.

(** [buf[i]] *)
Definition getitem (buf : bytes) (i : nat) : outcome byte :=
  match buf !! i with
  | Some b => Ok b
  | None => Raise IndexError
  end.

(** [buf[i] = v] on a [bytearray]: the index is checked, then the value. *)
Definition setitem (buf : bytes) (i : nat) (v : Z) : outcome bytes :=
  if (i <? length buf)%nat then
    let* b := byte_of_int v in Ok (<[i:=b]> buf)
  else Raise IndexError.

(** [buf[i:j]] for [0 <= i <= j] *)
Definition slice (buf : bytes) (i j : nat) : bytes :=
  take (j - i) (drop i buf).

(** [buf[i:j] = v] on a [bytearray], for [0 <= i <= j]: the slice is
    replaced by [v], whatever the length of [v]. *)
Definition slice_assign (buf : bytes) (i j : nat) (v : bytes) : bytes :=
  take i buf ++ v ++ drop j buf.

(** [bytearray(n)] *)
Definition zeros (n : nat) : bytes := replicate n x00.

(** [s.encode()] for the ASCII strings of the module *)
Definition encode (s : string) : bytes := list_byte_of_string s.

Definition white : bytes := [xff; xff; xff].

(* ================================================================== *)
(** * Scanline filters *)
(* ================================================================== *)

Definition paeth_predictor (a b c : Z) : Z :=
  let p := a + b - c in
  let pa := Z.abs (p - a) in
  let pb := Z.abs (p - b) in
  let pc := Z.abs (p - c) in
  if (pa <=? pb) && (pa <=? pc) then a
  else if pb <=? pc then b
  else c.

(** The predictor in the words of the design document: among the
    candidates left, up, upLeft, taken in this order, the first one whose
    distance to [left + up - upLeft] is minimal. *)
Fixpoint first_minimizer (key : Z -> Z) (best : Z) (rest : list Z) : Z :=
  match rest with
  | [] => best
  | x :: rest' =>
      if key x <? key best then first_minimizer key x rest'
      else first_minimizer key best rest'
  end.

Definition paeth_distance (left up upLeft candidate : Z) : Z :=
  Z.abs (left + up - upLeft - candidate).

Definition paeth_spec (left up upLeft : Z) : Z :=
  first_minimizer (paeth_distance left up upLeft) left [up; upLeft].

(** The blend of one channel over white, as written three times in each of
    the two blending branches of [to_rgb]. *)
Definition blend (channel a : Z) : Z :=
  (channel * a + 255 * (255 - a) + 127) / 255.

(** [for i in range(start, start + count): s = body(i, s)], stopping at
    the first exception. *)
Fixpoint for_range {S : Type} (start count : nat)
    (body : nat -> S -> outcome S) (s : S) : outcome S :=
  match count with
  | O => Ok s
  | Datatypes.S count' =>
      let* s' := body start s in for_range (Datatypes.S start) count' body s'
  end.

(** [row[i - bpp] if i >= bpp else 0] *)
Definition left_of (row : bytes) (i bpp : nat) : outcome Z :=
  if (bpp <=? i)%nat then
    let* l := getitem row (i - bpp) in Ok (byte_val l)
  else Ok 0.

(** One iteration of each of the four loops of [apply_filter]. *)
Definition sub_step (bpp : nat) (i : nat) (row : bytes) : outcome bytes :=
  let* left := left_of row i bpp in
  let* cur := getitem row i in
  setitem row i (Z.land (byte_val cur + left) 255).

Definition up_step (prev_row : bytes) (i : nat) (row : bytes) : outcome bytes :=
  let* cur := getitem row i in
  let* up := getitem prev_row i in
  setitem row i (Z.land (byte_val cur + byte_val up) 255).

Definition average_step (prev_row : bytes) (bpp : nat) (i : nat) (row : bytes)
    : outcome bytes :=
  let* left := left_of row i bpp in
  let* up := getitem prev_row i in
  let* cur := getitem row i in
  setitem row i (Z.land (byte_val cur + (left + byte_val up) / 2) 255).

Definition paeth_step (prev_row : bytes) (bpp : nat) (i : nat) (row : bytes)
    : outcome bytes :=
  let* left := left_of row i bpp in
  let* up := getitem prev_row i in
  let* up_left := left_of prev_row i bpp in
  let* cur := getitem row i in
  setitem row i
    (Z.land (byte_val cur + paeth_predictor left (byte_val up) up_left) 255).

(** [apply_filter] mutates [row] in place; the embedding returns the row
    after the call. *)
Definition apply_filter (filter_type : nat) (row prev_row : bytes)
    (channels : nat) : outcome bytes :=
  let bpp := channels in
  match filter_type with
  | 0%nat => Ok row
  | 1%nat => for_range 0 (length row) (sub_step bpp) row
  | 2%nat => for_range 0 (length row) (up_step prev_row) row
  | 3%nat => for_range 0 (length row) (average_step prev_row bpp) row
  | 4%nat => for_range 0 (length row) (paeth_step prev_row bpp) row
  | _ => Raise (SystemExit (UnsupportedFilterType filter_type))
  end.

(* ================================================================== *)
(** * The container parser: [PngImage] *)
(* ================================================================== *)

Definition PNG_SIGNATURE : bytes :=
  [x89; x50; x4e; x47; x0d; x0a; x1a; x0a].

(** The attributes of a [PngImage] object ([path] only feeds the
    messages and is left out; the contents of the file at [path] are an
    argument of [load]). *)
Record PngImage : Type := mkPngImage {
  width : nat;
  height : nat;
  bit_depth : nat;
  color_type : nat;
  compression : nat;
  filter_method : nat;
  interlace : nat;
  _idat_chunks : list bytes;
  _palette : option (list (byte * byte * byte));
  _transparency : option bytes
}.

(** [PngImage.__init__] *)
Definition PngImage_init : PngImage :=
  {| width := 0; height := 0; bit_depth := 0; color_type := 0;
     compression := 0; filter_method := 0; interlace := 0;
     _idat_chunks := []; _palette := None; _transparency := None |}.

Definition byte_nat (b : byte) : nat := Byte.to_nat b.

(** [struct.unpack(">I", b)[0]] *)
Definition unpack_I (b : bytes) : outcome nat :=
  match b with
  | [b0; b1; b2; b3] =>
      Ok (((byte_nat b0 * 256 + byte_nat b1) * 256 + byte_nat b2) * 256
          + byte_nat b3)%nat
  | _ => Raise StructError
  end.

(** [struct.unpack(">IIBBBBB", data)] *)
Definition unpack_IIBBBBB (data : bytes)
    : outcome (nat * nat * nat * nat * nat * nat * nat) :=
  match data with
  | [w0; w1; w2; w3; h0; h1; h2; h3; bd; ct; cm; fm; il] =>
      let* w := unpack_I [w0; w1; w2; w3] in
      let* h := unpack_I [h0; h1; h2; h3] in
      Ok (w, h, byte_nat bd, byte_nat ct, byte_nat cm, byte_nat fm,
          byte_nat il)
  | _ => Raise StructError
  end.

(** [_parse_ihdr]: the seven attributes are assigned by one tuple
    assignment, then the compression parameters are checked. *)
Definition _parse_ihdr (self : PngImage) (data : bytes)
    : PngImage * outcome unit :=
  match unpack_IIBBBBB data with
  | Raise e => (self, Raise e)
  | Ok (w, h, bd, ct, cm, fm, il) =>
      let self' :=
        {| width := w; height := h; bit_depth := bd; color_type := ct;
           compression := cm; filter_method := fm; interlace := il;
           _idat_chunks := _idat_chunks self; _palette := _palette self;
           _transparency := _transparency self |} in
      if negb (cm =? 0)%nat || negb (fm =? 0)%nat then
        (self', Raise (SystemExit UnsupportedCompressionParameters))
      else (self', Ok tt)
  end.

(** [[tuple(data[i : i + 3]) for i in range(0, len(data), 3)]] *)
Fixpoint triples (data : bytes) : list (byte * byte * byte) :=
  match data with
  | r :: g :: b :: rest => (r, g, b) :: triples rest
  | _ => []
  end.

Definition set_palette (self : PngImage) (p : list (byte * byte * byte))
    : PngImage :=
  {| width := width self; height := height self;
     bit_depth := bit_depth self; color_type := color_type self;
     compression := compression self; filter_method := filter_method self;
     interlace := interlace self; _idat_chunks := _idat_chunks self;
     _palette := Some p; _transparency := _transparency self |}.

Definition set_transparency (self : PngImage) (t : bytes) : PngImage :=
  {| width := width self; height := height self;
     bit_depth := bit_depth self; color_type := color_type self;
     compression := compression self; filter_method := filter_method self;
     interlace := interlace self; _idat_chunks := _idat_chunks self;
     _palette := _palette self; _transparency := Some t |}.

Definition append_idat (self : PngImage) (data : bytes) : PngImage :=
  {| width := width self; height := height self;
     bit_depth := bit_depth self; color_type := color_type self;
     compression := compression self; filter_method := filter_method self;
     interlace := interlace self; _idat_chunks := _idat_chunks self ++ [data];
     _palette := _palette self; _transparency := _transparency self |}.

Definition _parse_palette (self : PngImage) (data : bytes)
    : PngImage * outcome unit :=
  if negb (length data mod 3 =? 0)%nat then
    (self, Raise (SystemExit MalformedPLTE))
  else
    let entries := (length data / 3)%nat in
    if (entries =? 0)%nat || (256 <? entries)%nat then
      (self, Raise (SystemExit (InvalidPaletteSize entries)))
    else (set_palette self (triples data), Ok tt).

(** [stream.read(n)]: up to [n] bytes, and the rest of the stream. *)
Definition read (n : nat) (stream : bytes) : bytes * bytes :=
  (take n stream, drop n stream).

(** [a == b] on [bytes] *)
Fixpoint bytes_eqb (a b : bytes) : bool :=
  match a, b with
  | [], [] => true
  | x :: a', y :: b' => Byte.eqb x y && bytes_eqb a' b'
  | _, _ => false
  end.

(** The [while True] loop of [load].  Every iteration that goes on
    consumes at least the four length bytes, so [fuel] above the length of
    the stream is never exhausted ([read_chunks_fuel]). *)
Fixpoint read_chunks (fuel : nat) (self : PngImage) (stream : bytes)
    : option (PngImage * outcome unit) :=
  match fuel with
  | O => None
  | Datatypes.S fuel' =>
      let '(length_bytes, stream) := read 4 stream in
      if (length length_bytes =? 0)%nat then Some (self, Ok tt)
      else
        match unpack_I length_bytes with
        | Raise e => Some (self, Raise e)
        | Ok len =>
            let '(chunk_type, stream) := read 4 stream in
            let '(data, stream) := read len stream in
            let '(_, stream) := read 4 stream in
            if bytes_eqb chunk_type (encode "IHDR") then
              match _parse_ihdr self data with
              | (self', Ok _) => read_chunks fuel' self' stream
              | (self', Raise e) => Some (self', Raise e)
              end
            else if bytes_eqb chunk_type (encode "IDAT") then
              read_chunks fuel' (append_idat self data) stream
            else if bytes_eqb chunk_type (encode "PLTE") then
              match _parse_palette self data with
              | (self', Ok _) => read_chunks fuel' self' stream
              | (self', Raise e) => Some (self', Raise e)
              end
            else if bytes_eqb chunk_type (encode "tRNS") then
              read_chunks fuel' (set_transparency self data) stream
            else if bytes_eqb chunk_type (encode "IEND") then
              Some (self, Ok tt)
            else read_chunks fuel' self stream
        end
  end.

(** The checks of [load] that follow the [with] block. *)
Definition check_loaded (self : PngImage) : outcome unit :=
  match _idat_chunks self with
  | [] => Raise (SystemExit NoImageData)
  | _ :: _ =>
      if negb (bit_depth self =? 8)%nat then
        Raise (SystemExit (UnsupportedBitDepth (bit_depth self)))
      else if negb (interlace self =? 0)%nat then
        Raise (SystemExit InterlacedNotSupported)
      else if negb ((color_type self =? 2) || (color_type self =? 3)
                    || (color_type self =? 6))%nat then
        Raise (SystemExit (UnsupportedColorType (color_type self)))
      else if (color_type self =? 3)%nat
              && match _palette self with
                 | None | Some [] => true
                 | Some (_ :: _) => false
                 end then
        Raise (SystemExit MissingPLTE)
      else Ok tt
  end.

(** [load]: [stream] is the contents of the file.  The outcome is the
    object as the call leaves it, and the outcome of the call. *)
Definition load (self : PngImage) (stream : bytes)
    : option (PngImage * outcome unit) :=
  let '(signature, stream') := read 8 stream in
  if negb (bytes_eqb signature PNG_SIGNATURE) then
    Some (self, Raise (SystemExit NotAPngFile))
  else
    match read_chunks (Datatypes.S (length stream')) self stream' with
    | Some (self', Ok _) => Some (self', check_loaded self')
    | other => other
    end.

(* ================================================================== *)
(** * The pixel compositor: [PngImage.to_rgb] *)
(* ================================================================== *)

(** [1 if self.color_type == 3 else 3 if self.color_type == 2 else 4] *)
Definition channels_of (self : PngImage) : nat :=
  if (color_type self =? 3)%nat then 1%nat
  else if (color_type self =? 2)%nat then 3%nat
  else 4%nat.

(** [lst[i] = v] on a Python list *)
Definition list_setitem {A} (l : list A) (i : nat) (v : A) : outcome (list A) :=
  if (i <? length l)%nat then Ok (<[i:=v]> l) else Raise IndexError.

(** [for idx, value in enumerate(transparency)], counting from [idx] *)
Fixpoint fill_alpha_table (idx : nat) (transparency : bytes)
    (alpha_table : list byte) : outcome (list byte) :=
  match transparency with
  | [] => Ok alpha_table
  | value :: rest =>
      let* alpha_table :=
        (if (idx <? length alpha_table)%nat
         then list_setitem alpha_table idx value
         else Ok alpha_table) in
      fill_alpha_table (Datatypes.S idx) rest alpha_table
  end.

(** The alpha table of an indexed image ([[255] * len(self._palette)],
    then the entries of the transparency chunk, if any). *)
Definition build_alpha_table (palette : list (byte * byte * byte))
    (transparency : option bytes) : outcome (list byte) :=
  let alpha_table := replicate (length palette) xff in
  match transparency with
  | Some (v :: t) => fill_alpha_table 0 (v :: t) alpha_table
  | Some [] | None => Ok alpha_table
  end.

(** The body shared by the two blending branches of the row loop: the
    three output bytes of the pixel [(r, g, b)] with alpha [a], written at
    [out_offset]. *)
Definition put_pixel (result : bytes) (out_offset : nat) (r g b a : byte)
    : outcome bytes :=
  if byte_val a =? 255 then
    Ok (slice_assign result out_offset (out_offset + 3) [r; g; b])
  else if byte_val a =? 0 then
    Ok (slice_assign result out_offset (out_offset + 3) white)
  else
    let* result := setitem result out_offset (blend (byte_val r) (byte_val a)) in
    let* result :=
      setitem result (out_offset + 1) (blend (byte_val g) (byte_val a)) in
    setitem result (out_offset + 2) (blend (byte_val b) (byte_val a)).

(** One iteration of [for px in range(self.width)], [channels == 4]. *)
Definition rgba_pixel (row_data : bytes) (px : nat) (st : bytes * nat)
    : outcome (bytes * nat) :=
  let '(result, out_offset) := st in
  match slice row_data (px * 4) (px * 4 + 4) with
  | [r; g; b; a] =>
      let* result := put_pixel result out_offset r g b a in
      Ok (result, (out_offset + 3)%nat)
  | _ => Raise ValueError
  end.

(** One iteration of [for px in range(self.width)], indexed colour. *)
Definition indexed_pixel (palette : list (byte * byte * byte))
    (alpha_table : list byte) (row_data : bytes) (px : nat)
    (st : bytes * nat) : outcome (bytes * nat) :=
  let '(result, out_offset) := st in
  let* index := getitem row_data px in
  match palette !! byte_nat index with
  | None => Raise (SystemExit (PaletteIndexOutOfRange (byte_nat index)))
  | Some (r, g, b) =>
      let* a := getitem alpha_table (byte_nat index) in
      let* result := put_pixel result out_offset r g b a in
      Ok (result, (out_offset + 3)%nat)
  end.

(** The variables of the row loop. *)
Record row_state : Type := mkRowState {
  rs_result : bytes;
  rs_prev_row : bytes;
  rs_offset : nat;
  rs_out_offset : nat
}.

(** One iteration of [for _ in range(self.height)]. *)
Definition row_step (self : PngImage) (decompressed : bytes)
    (channels row_bytes : nat) (alpha_table : option (list byte))
    (st : row_state) : outcome row_state :=
  let offset := rs_offset st in
  let* filter_type := getitem decompressed offset in
  let offset := (offset + 1)%nat in
  let row_data := slice decompressed offset (offset + row_bytes) in
  let offset := (offset + row_bytes)%nat in
  let* row_data :=
    apply_filter (byte_nat filter_type) row_data (rs_prev_row st) channels in
  let* written :=
    (if (channels =? 3)%nat then
       Ok (slice_assign (rs_result st) (rs_out_offset st)
             (rs_out_offset st + row_bytes) row_data,
           (rs_out_offset st + row_bytes)%nat)
     else if (channels =? 4)%nat then
       for_range 0 (width self) (rgba_pixel row_data)
         (rs_result st, rs_out_offset st)
     else
       match _palette self, alpha_table with
       | Some palette, Some alpha_table =>
           for_range 0 (width self)
             (indexed_pixel palette alpha_table row_data)
             (rs_result st, rs_out_offset st)
       | _, _ => Raise AssertionError
       end) in
  Ok {| rs_result := fst written; rs_prev_row := row_data;
        rs_offset := offset; rs_out_offset := snd written |}.

(** Everything of [to_rgb] between the decompression and the
    transparency post-pass: the buffer [result] after the row loop. *)
Definition composite_rows (self : PngImage) (decompressed : bytes)
    : outcome bytes :=
  let channels := channels_of self in
  let row_bytes := (width self * channels)%nat in
  let result := zeros (width self * height self * 3) in
  let prev_row := zeros row_bytes in
  let* alpha_table :=
    (if (channels =? 1)%nat then
       match _palette self with
       | None => Raise AssertionError
       | Some palette =>
           let* t := build_alpha_table palette (_transparency self) in
           Ok (Some t)
       end
     else Ok None) in
  let* st :=
    for_range 0 (height self)
      (fun _ => row_step self decompressed channels row_bytes alpha_table)
      {| rs_result := result; rs_prev_row := prev_row;
         rs_offset := 0; rs_out_offset := 0 |} in
  Ok (rs_result st).

(** One iteration of the post-pass of [to_rgb]. *)
Definition key_step (transparent_rgb : bytes) (result : bytes) (px : nat)
    : bytes :=
  let base := (px * 3)%nat in
  if bytes_eqb (slice result base (base + 3)) transparent_rgb then
    slice_assign result base (base + 3) white
  else result.

(** The post-pass of [to_rgb]: simple transparency for RGB images. *)
Definition apply_transparency_key (self : PngImage) (result : bytes) : bytes :=
  match _transparency self with
  | Some (v :: t) =>
      if (channels_of self =? 3)%nat then
        let transparent_rgb := take 3 (v :: t) in
        fold_left (key_step transparent_rgb)
          (seq 0 (width self * height self)) result
      else result
  | Some [] | None => result
  end.

Section Zlib.

(** [zlib.decompress], which raises [zlib.error] on an invalid stream, and
    [zlib.compress]. *)
Variable zlib_decompress : bytes -> outcome bytes.
Variable zlib_compress : bytes -> bytes.

Definition to_rgb (self : PngImage) : outcome bytes :=
  let* decompressed := zlib_decompress (concat (_idat_chunks self)) in
  let* result := composite_rows self decompressed in
  Ok (apply_transparency_key self result).

End Zlib.

(* ================================================================== *)
(** * The document builder: [make_pdf] *)
(* ================================================================== *)

(** [str(n)] for a length or an offset, and for an arbitrary integer *)
Definition str_of_nat (n : nat) : string :=
  NilEmpty.string_of_uint (Nat.to_uint n).

Definition str_of_int (z : Z) : string :=
  NilZero.string_of_int (Z.to_int z).

(** [f"{pos:010}"]: the decimal digits, zero-padded on the left to ten
    characters *)
Definition format_010 (pos : nat) : bytes :=
  let digits := encode (str_of_nat pos) in
  replicate (10 - length digits) x30 ++ digits.

Definition LF : bytes := [x0a].

(** [b"%PDF-1.4\n%\xff\xff\xff\xff\n"] *)
Definition pdf_header : bytes :=
  encode "%PDF-1.4" ++ LF ++ encode "%" ++ [xff; xff; xff; xff] ++ LF.

(** The loop [for obj_number, body in enumerate(objects, start=1)], from
    object number [obj_number] on; [output] and [xref_positions] are the
    two variables it extends. *)
Fixpoint write_objects (obj_number : nat) (objects : list bytes)
    (output : bytes) (xref_positions : list nat) : bytes * list nat :=
  match objects with
  | [] => (output, xref_positions)
  | body :: rest =>
      let xref_positions := xref_positions ++ [length output] in
      let output := output ++ encode (str_of_nat obj_number ++ " 0 obj") ++ LF in
      let output := output ++ body in
      let output := output ++ LF ++ encode "endobj" ++ LF in
      write_objects (Datatypes.S obj_number) rest output xref_positions
  end.

(** The loop [for pos in xref_positions] *)
Fixpoint write_xref_entries (xref_positions : list nat) (output : bytes)
    : bytes :=
  match xref_positions with
  | [] => output
  | pos :: rest =>
      write_xref_entries rest
        (output ++ format_010 pos ++ encode " 00000 n " ++ LF)
  end.

Section MakePdf.

Variable zlib_compress : bytes -> bytes.

(** The five bodies appended by [add_object], in order. *)
Definition pdf_objects (rgb : bytes) (width height : Z) : list bytes :=
  let image_stream := zlib_compress rgb in
  let contents_stream :=
    encode ("q " ++ str_of_int width ++ " 0 0 " ++ str_of_int height
            ++ " 0 0 cm /Im0 Do Q") in
  [ encode "<< /Type /Catalog /Pages 2 0 R >>";
    encode "<< /Type /Pages /Kids [3 0 R] /Count 1 >>";
    encode ("<< /Type /Page /Parent 2 0 R /Resources << /XObject << /Im0 4 0 R >> /ProcSet [/PDF /ImageC] >> /MediaBox [0 0 "
            ++ str_of_int width ++ " " ++ str_of_int height
            ++ "] /Contents 5 0 R >>");
    encode ("<< /Type /XObject /Subtype /Image /Width " ++ str_of_int width
            ++ " /Height " ++ str_of_int height
            ++ " /ColorSpace /DeviceRGB /BitsPerComponent 8 /Filter /FlateDecode /Length "
            ++ str_of_nat (length image_stream) ++ " >>")
      ++ LF ++ encode "stream" ++ LF
      ++ image_stream
      ++ LF ++ encode "endstream";
    encode ("<< /Length " ++ str_of_nat (length contents_stream) ++ " >>")
      ++ LF ++ encode "stream" ++ LF
      ++ contents_stream
      ++ LF ++ encode "endstream" ].

Definition make_pdf (rgb : bytes) (width height : Z) : bytes :=
  let objects := pdf_objects rgb width height in
  let '(output, xref_positions) := write_objects 1 objects pdf_header [] in
  let xref_start := length output in
  let output :=
    output ++ encode "xref" ++ LF
           ++ encode ("0 " ++ str_of_nat (length objects + 1)) ++ LF in
  let output := output ++ encode "0000000000 65535 f " ++ LF in
  let output := write_xref_entries xref_positions output in
  let output := output ++ encode "trailer" ++ LF in
  let output :=
    output ++ encode ("<< /Size " ++ str_of_nat (length objects + 1)
                      ++ " /Root 1 0 R >>") ++ LF
           ++ encode "startxref" ++ LF
           ++ encode (str_of_nat xref_start) ++ LF
           ++ encode "%%EOF" in
  output.

End MakePdf.

(* ================================================================== *)
(** * Vocabulary of the statements *)
(* ================================================================== *)

(** The three bytes of pixel [px] of an RGB buffer. *)
Definition pixel (buf : bytes) (px : nat) : bytes :=
  slice buf (px * 3) (px * 3 + 3).

(** The marker of object [n], and the bytes the serialization loop
    writes for object [n] with body [body]. *)
Definition obj_marker (n : nat) : bytes := encode (str_of_nat n ++ " 0 obj").

Definition obj_record (n : nat) (body : bytes) : bytes :=
  obj_marker n ++ LF ++ body ++ LF ++ encode "endobj" ++ LF.

Fixpoint records (n : nat) (objects : list bytes) : bytes :=
  match objects with
  | [] => []
  | body :: rest => obj_record n body ++ records (S n) rest
  end.

Fixpoint record_positions (base n : nat) (objects : list bytes) : list nat :=
  match objects with
  | [] => []
  | body :: rest =>
      base :: record_positions (base + length (obj_record n body)) (S n) rest
  end.

(** [needle] is found in [hay] at byte offset [pos]. *)
Definition occurs_at (needle : bytes) (pos : nat) (hay : bytes) : Prop :=
  take (length needle) (drop pos hay) = needle.

(** One in-use entry of the cross-reference table, and the whole
    cross-reference section with its trailer, for a document of five
    objects. *)
Definition xref_entry (pos : nat) : bytes :=
  format_010 pos ++ encode " 00000 n " ++ LF.

Definition xref_section (positions : list nat) (xref_start : nat) : bytes :=
  encode "xref" ++ LF ++ encode "0 6" ++ LF
  ++ encode "0000000000 65535 f " ++ LF
  ++ concat (map xref_entry positions)
  ++ encode "trailer" ++ LF
  ++ encode "<< /Size 6 /Root 1 0 R >>" ++ LF
  ++ encode "startxref" ++ LF
  ++ encode (str_of_nat xref_start) ++ LF
  ++ encode "%%EOF".

(** The number a run of decimal digits denotes, leading zeros allowed. *)
Definition decimal_value (digits : bytes) : option nat :=
  option_map Nat.of_uint (NilEmpty.uint_of_string (string_of_list_byte digits)).

(** Length and type of a header chunk with a 13 byte payload. *)
Definition ihdr_chunk_head : bytes :=
  [x00; x00; x00; x0d] ++ encode "IHDR".


(** ** A decompressor for stored blocks

    The zlib container of RFC 1950 around deflate blocks of type 00
    (stored) of RFC 1951, with the Adler-32 check.  Streams with
    compressed blocks are outside its domain and rejected.  It stands in
    for [zlib.decompress] where an example has to be run. *)

Definition adler32 (data : bytes) : Z :=
  let '(a, b) :=
    fold_left (fun '(a, b) x =>
                 let a' := (a + byte_val x) mod 65521 in
                 (a', (b + a') mod 65521))
              data (1, 0) in
  b * 65536 + a.

Fixpoint inflate_stored_blocks (fuel : nat) (stream acc : bytes)
    : option (bytes * bytes) :=
  match fuel with
  | O => None
  | S fuel' =>
      match stream with
      | hdr :: l0 :: l1 :: n0 :: n1 :: rest =>
          let len := (byte_nat l0 + 256 * byte_nat l1)%nat in
          let nlen := (byte_nat n0 + 256 * byte_nat n1)%nat in
          if (Z.land (byte_val hdr) 6 =? 0) && (Z.of_nat len + Z.of_nat nlen =? 65535)
             && (len <=? length rest)%nat then
            let acc := acc ++ take len rest in
            if Z.testbit (byte_val hdr) 0 then Some (acc, drop len rest)
            else inflate_stored_blocks fuel' (drop len rest) acc
          else None
      | _ => None
      end
  end.

Definition inflate_stored (stream : bytes) : outcome bytes :=
  match stream with
  | cmf :: flg :: rest =>
      if (Z.land (byte_val cmf) 15 =? 8)
         && ((byte_val cmf * 256 + byte_val flg) mod 31 =? 0)
         && negb (Z.testbit (byte_val flg) 5) then
        match inflate_stored_blocks (length rest) rest [] with
        | Some (data, c0 :: c1 :: c2 :: c3 :: _) =>
            if ((byte_val c0 * 256 + byte_val c1) * 256 + byte_val c2) * 256
               + byte_val c3 =? adler32 data
            then Ok data else Raise ZlibError
        | _ => Raise ZlibError
        end
      else Raise ZlibError
  | _ => Raise ZlibError
  end.


(** ** Example inputs

    PNG files are written chunk by chunk: four length bytes, the type,
    the payload, four CRC bytes (zeroed here: [load] skips them). *)

(** The zlib stream holding [00 01 02 03] in one stored block: filter
    type 0 followed by three of the six bytes of a row of two RGB
    pixels. *)
Definition short_row_idat : bytes :=
  [x78; x01; x01; x04; x00; xfb; xff; x00; x01; x02; x03;
   x00; x0e; x00; x07].

(** A file of two by one truecolour pixels whose only row stops after
    three bytes: signature, IHDR, IDAT, IEND. *)
Definition png_short_row : bytes :=
  PNG_SIGNATURE
  ++ ihdr_chunk_head
  ++ [x00; x00; x00; x02; x00; x00; x00; x01; x08; x02; x00; x00; x00]
  ++ [x00; x00; x00; x00]
  ++ [x00; x00; x00; x0f] ++ encode "IDAT" ++ short_row_idat
  ++ [x00; x00; x00; x00]
  ++ [x00; x00; x00; x00] ++ encode "IEND" ++ [x00; x00; x00; x00].

Definition png_short_row_loaded : PngImage :=
  {| width := 2; height := 1; bit_depth := 8; color_type := 2;
     compression := 0; filter_method := 0; interlace := 0;
     _idat_chunks := [short_row_idat]; _palette := None;
     _transparency := None |}.

(** The zlib stream holding [00 01 02 03 04 05 06] in one stored block,
    and the object of a two by one truecolour image with this data and
    the transparency key [01 02 03]. *)
Definition keyed_row_idat : bytes :=
  [x78; x01; x01; x07; x00; xf8; xff; x00; x01; x02; x03; x04; x05; x06;
   x00; x3f; x00; x16].

Definition png_keyed_loaded : PngImage :=
  {| width := 2; height := 1; bit_depth := 8; color_type := 2;
     compression := 0; filter_method := 0; interlace := 0;
     _idat_chunks := [keyed_row_idat]; _palette := None;
     _transparency := Some [x01; x02; x03] |}.

(** A file of two by one truecolour pixels [(1, 2, 3)] and [(0, 1, 0)]
    whose transparency chunk names the colour [(1, 2, 3)], as the PNG
    format writes it for a truecolour image: three samples of two bytes
    each.  Signature, IHDR, tRNS, IDAT (one stored block holding
    [00 01 02 03 00 01 00]), IEND. *)
Definition key_samples_idat : bytes :=
  [x78; x01; x01; x07; x00; xf8; xff; x00; x01; x02; x03; x00; x01; x00;
   x00; x25; x00; x08].

Definition png_key_samples : bytes :=
  PNG_SIGNATURE
  ++ ihdr_chunk_head
  ++ [x00; x00; x00; x02; x00; x00; x00; x01; x08; x02; x00; x00; x00]
  ++ [x00; x00; x00; x00]
  ++ [x00; x00; x00; x06] ++ encode "tRNS"
  ++ [x00; x01; x00; x02; x00; x03]
  ++ [x00; x00; x00; x00]
  ++ [x00; x00; x00; x12] ++ encode "IDAT" ++ key_samples_idat
  ++ [x00; x00; x00; x00]
  ++ [x00; x00; x00; x00] ++ encode "IEND" ++ [x00; x00; x00; x00].

Definition png_key_samples_loaded : PngImage :=
  {| width := 2; height := 1; bit_depth := 8; color_type := 2;
     compression := 0; filter_method := 0; interlace := 0;
     _idat_chunks := [key_samples_idat]; _palette := None;
     _transparency := Some [x00; x01; x00; x02; x00; x03] |}.

(** A file whose header chunk has a payload of 12 bytes. *)
Definition png_short_header : bytes :=
  PNG_SIGNATURE
  ++ [x00; x00; x00; x0c] ++ encode "IHDR"
  ++ [x00; x00; x00; x01; x00; x00; x00; x01; x08; x02; x00; x00]
  ++ [x00; x00; x00; x00].

(** A file made of the signature and one header chunk: one by one
    pixel, bit depth 8, truecolour, with compression method 1 in the
    first file and 0 in the second. *)
Definition png_bad_compression : bytes :=
  PNG_SIGNATURE
  ++ ihdr_chunk_head
  ++ [x00; x00; x00; x01; x00; x00; x00; x01; x08; x02; x01; x00; x00]
  ++ [x00; x00; x00; x00].



Definition png_bad_compression_left : PngImage :=
  {| width := 1; height := 1; bit_depth := 8; color_type := 2;
     compression := 1; filter_method := 0; interlace := 0;
     _idat_chunks := []; _palette := None; _transparency := None |}.

(** ** Vocabulary of the filter statements *)

(** The value of byte [i] of a buffer, 0 outside the buffer. *)
Definition byte_at (buf : bytes) (i : nat) : Z :=
  match buf !! i with
  | Some b => byte_val b
  | None => 0
  end.

(** The value [bpp] positions to the left of [i], 0 at the left edge. *)
Definition left_val (buf : bytes) (i bpp : nat) : Z :=
  if (bpp <=? i)%nat then byte_at buf (i - bpp) else 0.

(** What each filter type adds to a byte, from the reconstructed left
    neighbour and the previous row. *)
Definition predictor (filter_type : nat) (left up up_left : Z) : Z :=
  match filter_type with
  | 1%nat => left
  | 2%nat => up
  | 3%nat => (left + up) / 2
  | 4%nat => paeth_predictor left up up_left
  | _ => 0
  end.

(** The byte of value [z mod 256]. *)
Definition wrap_byte (z : Z) : byte :=
  default x00 (Byte.of_N (Z.to_N (z mod 256))).

(** The filter a PNG encoder applies to a raw row (PNG specification,
    filter method 0): each byte minus its prediction, modulo 256. *)
Definition png_filter (filter_type : nat) (raw prev_row : bytes) (bpp : nat)
    : bytes :=
  imap (fun i x =>
          wrap_byte (byte_val x
                     - predictor filter_type (left_val raw i bpp)
                         (byte_at prev_row i) (left_val prev_row i bpp)))
       raw.

(** The source loop body for filter type [ft] (1 to 4). *)
Definition filter_step (ft : nat) (prev_row : bytes) (bpp : nat)
    : nat -> bytes -> outcome bytes :=
  match ft with
  | 1%nat => sub_step bpp
  | 2%nat => up_step prev_row
  | 3%nat => average_step prev_row bpp
  | _ => paeth_step prev_row bpp
  end.

(** Both pixel loops keep the length of [result] and advance
    [out_offset] by three bytes per pixel. *)
Definition pixel_inv (len base : nat) (px : nat) (st : bytes * nat) : Prop :=
  length (fst st) = len /\ snd st = (base + px * 3)%nat.

(** The zlib stream holding [00 c8 00 ff 80] in one stored block, and
    the object of a one by one image with alpha holding it. *)
Definition rgba_pixel_idat : bytes :=
  [x78; x01; x01; x05; x00; xfa; xff; x00; xc8; x00; xff; x80;
   x05; xa3; x02; x48].

Definition png_rgba_loaded : PngImage :=
  {| width := 1; height := 1; bit_depth := 8; color_type := 6;
     compression := 0; filter_method := 0; interlace := 0;
     _idat_chunks := [rgba_pixel_idat]; _palette := None;
     _transparency := None |}.

(** ** Vocabulary of the container statements *)

(** [struct.pack(">I", n)]: the four bytes of [n], most significant
    first. *)
Definition pack_I (n : nat) : bytes :=
  let z := Z.of_nat n in
  [wrap_byte (z / 16777216); wrap_byte (z / 65536); wrap_byte (z / 256);
   wrap_byte z].

(** A chunk of a PNG file, and the bytes it occupies in the file. *)
Record chunk : Type := mkChunk {
  chunk_type : bytes;
  chunk_data : bytes;
  chunk_crc : bytes
}.

Definition encode_chunk (c : chunk) : bytes :=
  pack_I (length (chunk_data c)) ++ chunk_type c ++ chunk_data c
  ++ chunk_crc c.

Definition encode_chunks (cs : list chunk) : bytes :=
  concat (map encode_chunk cs).

(** Type and CRC of four bytes each, and a length that fits the length
    field. *)
Definition chunk_ok (c : chunk) : Prop :=
  length (chunk_type c) = 4%nat /\
  length (chunk_crc c) = 4%nat /\
  Z.of_nat (length (chunk_data c)) < 4294967296.

(** The chunk loop read as a fold over the chunks of the file. *)
Fixpoint parse_chunks (self : PngImage) (cs : list chunk)
    : PngImage * outcome unit :=
  match cs with
  | [] => (self, Ok tt)
  | c :: cs' =>
      if bytes_eqb (chunk_type c) (encode "IHDR") then
        match _parse_ihdr self (chunk_data c) with
        | (self', Ok _) => parse_chunks self' cs'
        | (self', Raise e) => (self', Raise e)
        end
      else if bytes_eqb (chunk_type c) (encode "IDAT") then
        parse_chunks (append_idat self (chunk_data c)) cs'
      else if bytes_eqb (chunk_type c) (encode "PLTE") then
        match _parse_palette self (chunk_data c) with
        | (self', Ok _) => parse_chunks self' cs'
        | (self', Raise e) => (self', Raise e)
        end
      else if bytes_eqb (chunk_type c) (encode "tRNS") then
        parse_chunks (set_transparency self (chunk_data c)) cs'
      else if bytes_eqb (chunk_type c) (encode "IEND") then
        (self, Ok tt)
      else parse_chunks self cs'
  end.

(** The same chunk with its CRC field zeroed. *)
Definition zero_crc (c : chunk) : chunk :=
  {| chunk_type := chunk_type c; chunk_data := chunk_data c;
     chunk_crc := [x00; x00; x00; x00] |}.

(** The bytes of a palette, entry after entry. *)
Definition flatten_palette (p : list (byte * byte * byte)) : bytes :=
  concat (map (fun '(r, g, b) => [r; g; b]) p).

(** Whether the fold stops before the end of the chunks: at an end
    chunk or at a chunk that raises. *)
Fixpoint parse_stops (self : PngImage) (cs : list chunk) : bool :=
  match cs with
  | [] => false
  | c :: cs' =>
      if bytes_eqb (chunk_type c) (encode "IHDR") then
        match _parse_ihdr self (chunk_data c) with
        | (self', Ok _) => parse_stops self' cs'
        | (_, Raise _) => true
        end
      else if bytes_eqb (chunk_type c) (encode "IDAT") then
        parse_stops (append_idat self (chunk_data c)) cs'
      else if bytes_eqb (chunk_type c) (encode "PLTE") then
        match _parse_palette self (chunk_data c) with
        | (self', Ok _) => parse_stops self' cs'
        | (_, Raise _) => true
        end
      else if bytes_eqb (chunk_type c) (encode "tRNS") then
        parse_stops (set_transparency self (chunk_data c)) cs'
      else if bytes_eqb (chunk_type c) (encode "IEND") then true
      else parse_stops self cs'
  end.

(** A chunk type that [load] does not know. *)
Definition unknown_type (ty : bytes) : Prop :=
  ty <> encode "IHDR" /\ ty <> encode "IDAT" /\ ty <> encode "PLTE" /\
  ty <> encode "tRNS" /\ ty <> encode "IEND".

(** What the chunk loop keeps true of the object, starting from a fresh
    one. *)
Definition header_inv (self : PngImage) : Prop :=
  compression self = 0%nat /\ filter_method self = 0%nat /\
  Z.of_nat (width self) < 4294967296 /\
  Z.of_nat (height self) < 4294967296 /\
  match _palette self with
  | None => True
  | Some p => (1 <= length p <= 256)%nat
  end.

(** ** Example chunks *)

Definition ihdr_2x1_rgb : chunk :=
  {| chunk_type := encode "IHDR";
     chunk_data := [x00; x00; x00; x02; x00; x00; x00; x01; x08; x02; x00;
                    x00; x00];
     chunk_crc := [x00; x00; x00; x00] |}.

Definition idat_keyed_row : chunk :=
  {| chunk_type := encode "IDAT"; chunk_data := keyed_row_idat;
     chunk_crc := [x00; x00; x00; x00] |}.

Definition iend_chunk : chunk :=
  {| chunk_type := encode "IEND"; chunk_data := [];
     chunk_crc := [xae; x42; x60; x82] |}.

Definition text_chunk : chunk :=
  {| chunk_type := encode "tEXt"; chunk_data := encode "Title";
     chunk_crc := [x01; x02; x03; x04] |}.

(** ** What a failed [load] leaves on the object *)









(** ** Vocabulary of the decoding statements *)

(** The three output bytes of a pixel [(r, g, b)] with alpha [a]:
    the pixel composited over white. *)
Definition over_white (r g b a : byte) : bytes :=
  if byte_val a =? 255 then [r; g; b]
  else if byte_val a =? 0 then white
  else [wrap_byte (blend (byte_val r) (byte_val a));
        wrap_byte (blend (byte_val g) (byte_val a));
        wrap_byte (blend (byte_val b) (byte_val a))].

(** The output bytes of a reconstructed row of [count] pixels, for each
    of the three pixel formats. *)
Definition truecolor_row (row : bytes) : outcome bytes := Ok row.

Fixpoint rgba_row (count : nat) (row : bytes) : outcome bytes :=
  match count with
  | O => Ok []
  | S count' =>
      match row with
      | r :: g :: b :: a :: row' =>
          let* rest := rgba_row count' row' in
          Ok (over_white r g b a ++ rest)
      | _ => Raise ValueError
      end
  end.

Fixpoint indexed_row (palette : list (byte * byte * byte))
    (alpha_table : list byte) (count : nat) (row : bytes) : outcome bytes :=
  match count with
  | O => Ok []
  | S count' =>
      match row with
      | [] => Raise IndexError
      | index :: row' =>
          match palette !! byte_nat index, alpha_table !! byte_nat index with
          | None, _ =>
              Raise (SystemExit (PaletteIndexOutOfRange (byte_nat index)))
          | Some _, None => Raise IndexError
          | Some (r, g, b), Some a =>
              let* rest := indexed_row palette alpha_table count' row' in
              Ok (over_white r g b a ++ rest)
          end
      end
  end.

(** The decoded image read row by row off the decompressed data: each
    row is one filter byte and up to [row_bytes] bytes, reconstructed
    against the row before it, and contributes the bytes [composite]
    makes of it. *)
Fixpoint decode_rows (composite : bytes -> outcome bytes)
    (channels row_bytes count : nat) (data prev_row : bytes)
    : outcome bytes :=
  match count with
  | O => Ok []
  | S count' =>
      let* filter_type := getitem data 0 in
      let* row :=
        apply_filter (byte_nat filter_type) (slice data 1 (1 + row_bytes))
          prev_row channels in
      let* out_row := composite row in
      let* rest :=
        decode_rows composite channels row_bytes count'
          (drop (1 + row_bytes) data) row in
      Ok (out_row ++ rest)
  end.

(** The part of an iteration of the row loop that writes the pixels of
    the row: the new [result] and [out_offset]. *)
Definition write_row (self : PngImage) (channels : nat)
    (alpha_table : option (list byte)) (row_data result : bytes)
    (out_offset : nat) : outcome (bytes * nat) :=
  if (channels =? 3)%nat then
    Ok (slice_assign result out_offset (out_offset + width self * channels)
          row_data,
        (out_offset + width self * channels)%nat)
  else if (channels =? 4)%nat then
    for_range 0 (width self) (rgba_pixel row_data) (result, out_offset)
  else
    match _palette self, alpha_table with
    | Some palette, Some alpha_table =>
        for_range 0 (width self)
          (indexed_pixel palette alpha_table row_data) (result, out_offset)
    | _, _ => Raise AssertionError
    end.

(** The rows of the image as the row loop of [to_rgb] reconstructs
    them, in order: each is read after its filter byte and passed,
    with the row before it, to [apply_filter]. *)
Fixpoint unfilter_rows (channels row_bytes count : nat)
    (data prev_row : bytes) : outcome (list bytes) :=
  match count with
  | O => Ok []
  | S count' =>
      let* filter_type := getitem data 0 in
      let* row :=
        apply_filter (byte_nat filter_type) (slice data 1 (1 + row_bytes))
          prev_row channels in
      let* rest :=
        unfilter_rows channels row_bytes count' (drop (1 + row_bytes) data)
          row in
      Ok (row :: rest)
  end.

(* ================================================================== *)
(** * The driver: [convert_png] and the loop of [main] *)
(* ================================================================== *)

(** The files the driver touches: a path denotes at most one file, with
    its contents.  Reading a file that exists is taken to succeed;
    writing and unlinking can be refused by the system. *)
Definition filesystem : Type := string -> option bytes.

(** [p.write_bytes(data)], when the system carries it out *)
Definition write_bytes (fs : filesystem) (p : string) (data : bytes)
    : filesystem :=
  fun q => if String.eqb q p then Some data else fs q.

(** What a [p.write_bytes(data)] that raises [OSError] leaves: at [p]
    there is [remains] (no file, the file as it was, or a file cut short),
    every other path is as before. *)
Definition write_interrupted (fs : filesystem) (p : string)
    (remains : option bytes) : filesystem :=
  fun q => if String.eqb q p then remains else fs q.

(** [p.unlink()], when the system carries it out *)
Definition unlink (fs : filesystem) (p : string) : filesystem :=
  fun q => if String.eqb q p then None else fs q.

(** What ends a run of the driver: an exception of the decoder, the
    [FileNotFoundError] of [open] or of [unlink], the [OSError] of a
    write or an unlink that the system refuses, or one of the
    [SystemExit]s of [main]. *)
Inductive driver_exn : Type :=
| Decoding (e : exn)
| FileNotFoundError
| OSError
| RemoveOriginalRequiresApply          (* "--remove-original requires --apply" *)
| FileDoesNotExist (path : string).    (* "File ... does not exist" *)

Section Driver.

Variable zlib_decompress : bytes -> outcome bytes.
Variable zlib_compress : bytes -> bytes.

(** [path.with_suffix(".pdf")] *)
Variable with_suffix_pdf : string -> string.

(** The system: whether it refuses the write of [data] at a path
    ([Some remains], with what it leaves at the path) or carries it out
    ([None]), and whether it refuses to unlink a file that exists. *)
Variable write_fault : filesystem -> string -> bytes -> option (option bytes).
Variable unlink_fault : filesystem -> string -> bool.

(** [convert_png]: the file system it leaves, and the exception or the
    pair [(original_size, len(pdf_bytes))]. *)
Definition convert_png (fs : filesystem) (path : string)
    (apply remove_original : bool)
    : option (filesystem * (driver_exn + nat * nat)) :=
  match fs path with
  | None => Some (fs, inl FileNotFoundError)
  | Some stream =>
      match load PngImage_init stream with
      | None => None
      | Some (_, Raise e) => Some (fs, inl (Decoding e))
      | Some (png, Ok _) =>
          match to_rgb zlib_decompress png with
          | Raise e => Some (fs, inl (Decoding e))
          | Ok rgb =>
              let pdf_bytes :=
                make_pdf zlib_compress rgb (Z.of_nat (width png))
                  (Z.of_nat (height png)) in
              let original_size := length stream in
              if apply then
                let pdf_path := with_suffix_pdf path in
                match write_fault fs pdf_path pdf_bytes with
                | Some remains =>
                    Some (write_interrupted fs pdf_path remains, inl OSError)
                | None =>
                    let fs := write_bytes fs pdf_path pdf_bytes in
                    if remove_original then
                      match fs path with
                      | None => Some (fs, inl FileNotFoundError)
                      | Some _ =>
                          if unlink_fault fs path then Some (fs, inl OSError)
                          else
                            Some (unlink fs path,
                                  inr (original_size, length pdf_bytes))
                      end
                    else Some (fs, inr (original_size, length pdf_bytes))
                end
              else Some (fs, inr (original_size, length pdf_bytes))
          end
      end
  end.

(** The loop [for path in targets] of [main] (the report lines are
    left out). *)
Fixpoint convert_targets (fs : filesystem) (targets : list string)
    (apply remove_original : bool)
    : option (filesystem * (driver_exn + unit)) :=
  match targets with
  | [] => Some (fs, inr tt)
  | path :: rest =>
      match fs path with
      | None => Some (fs, inl (FileDoesNotExist path))
      | Some _ =>
          match convert_png fs path apply remove_original with
          | None => None
          | Some (fs', inl e) => Some (fs', inl e)
          | Some (fs', inr _) => convert_targets fs' rest apply remove_original
          end
      end
  end.

(** [main] once [targets] is known: the check of the two flags, then
    the loop. *)
Definition main_on_targets (fs : filesystem) (targets : list string)
    (apply remove_original : bool)
    : option (filesystem * (driver_exn + unit)) :=
  if remove_original && negb apply then
    Some (fs, inl RemoveOriginalRequiresApply)
  else convert_targets fs targets apply remove_original.

End Driver.

(** A system that refuses nothing, and one that refuses every unlink. *)
Definition no_write_fault (fs : filesystem) (p : string) (data : bytes)
    : option (option bytes) := None.

Definition no_unlink_fault (fs : filesystem) (p : string) : bool := false.


(** ** Example image and files of the later statements *)

(** The zlib stream holding [00 00 01] in one stored block, and the
    object of a two by one indexed image holding it, with a black and a
    white palette entry, the second one fully transparent. *)
Definition indexed_row_idat : bytes :=
  [x78; x01; x01; x03; x00; xfc; xff; x00; x00; x01; x00; x04; x00; x02].

Definition png_indexed_loaded : PngImage :=
  {| width := 2; height := 1; bit_depth := 8; color_type := 3;
     compression := 0; filter_method := 0; interlace := 0;
     _idat_chunks := [indexed_row_idat];
     _palette := Some [(x00, x00, x00); (xff, xff, xff)];
     _transparency := Some [xff; x00] |}.

(** A file system with one PNG file, a suffix function that sends
    every path to [a.pdf], and a compressor that stores its input. *)
Definition example_png_file : bytes :=
  PNG_SIGNATURE ++ encode_chunks [ihdr_2x1_rgb; idat_keyed_row; iend_chunk].

Definition example_fs : filesystem :=
  fun q => if String.eqb q "a.png" then Some example_png_file else None.

Definition to_a_pdf (p : string) : string := "a.pdf".

Definition no_compression (data : bytes) : bytes := data.

(** Entry [n] (counting from 0) of the cross-reference table that
    starts at [xref_start] is the 20 bytes of the entry for offset [p],
    and the marker of object [n + 1] is found at [p]. *)
Definition xref_entry_at (out : bytes) (xref_start n p : nat) : Prop :=
  slice out (xref_start + 29 + 20 * n) (xref_start + 29 + 20 * n + 20)
  = xref_entry p /\
  occurs_at (obj_marker (S n)) p out.

(* ================================================================== *)
(** * Properties *)
(* ================================================================== *)

(** ** Bytes and integers *)

Lemma byte_val_range (b : byte) : 0 <= byte_val b <= 255.
Proof.
  unfold byte_val. pose proof (Byte.to_N_bounded b). lia.
Qed.

Lemma byte_of_int_ok (z : Z) :
  0 <= z <= 255 -> exists b, byte_of_int z = Ok b /\ byte_val b = z.
Proof.
  intros Hz. unfold byte_of_int.
  replace ((0 <=? z) && (z <=? 255)) with true
    by (symmetry; apply andb_true_iff; split; apply Z.leb_le; lia).
  destruct (Byte.of_N (Z.to_N z)) as [b|] eqn:Hb.
  - exists b. split; [reflexivity|].
    apply Byte.to_of_N in Hb. unfold byte_val. rewrite Hb. lia.
  - apply Byte.of_N_None_iff in Hb. lia.
Qed.

Lemma byte_of_int_val (b : byte) : byte_of_int (byte_val b) = Ok b.
Proof.
  destruct (byte_of_int_ok (byte_val b) (byte_val_range b)) as (b' & Hb & Hv).
  rewrite Hb. f_equal. unfold byte_val in Hv.
  apply N2Z.inj in Hv.
  pose proof (Byte.of_to_N b) as H1. pose proof (Byte.of_to_N b') as H2.
  rewrite Hv in H2. congruence.
Qed.

Lemma land_255_range (z : Z) : 0 <= Z.land z 255 <= 255.
Proof.
  replace (Z.land z 255) with (z mod 256)
    by (symmetry; apply (Z.land_ones z 8); lia).
  pose proof (Z.mod_pos_bound z 256). lia.
Qed.

Lemma setitem_ok (buf : bytes) (i : nat) (v : Z) :
  (i < length buf)%nat -> 0 <= v <= 255 ->
  exists b, byte_val b = v /\ setitem buf i v = Ok (<[i:=b]> buf).
Proof.
  intros Hi Hv. unfold setitem.
  destruct (Nat.ltb_spec i (length buf)); [|lia].
  destruct (byte_of_int_ok v Hv) as (b & Hb & Hbv).
  exists b. rewrite Hb. auto.
Qed.

Lemma setitem_length (buf buf' : bytes) (i : nat) (v : Z) :
  setitem buf i v = Ok buf' -> length buf' = length buf.
Proof.
  unfold setitem. destruct (i <? length buf)%nat; [|discriminate].
  destruct (byte_of_int v); simpl; [|discriminate].
  intros [= <-]. apply length_insert.
Qed.

(** ** The Paeth predictor *)

Lemma paeth_predictor_eq_spec (left up upLeft : Z) :
  paeth_predictor left up upLeft = paeth_spec left up upLeft.
Proof.
  unfold paeth_predictor, paeth_spec, paeth_distance. simpl.
  repeat match goal with
         | |- context [ (?x <=? ?y) ] => destruct (Z.leb_spec x y)
         | |- context [ (?x <? ?y) ] => destruct (Z.ltb_spec x y)
         end; simpl; try reflexivity; lia.
Qed.

(** C6. For all integers [left], [up], [upLeft] (byte values in
    particular) [paeth_predictor] returns the candidate among left, up,
    upLeft, in this order of preference, whose distance to
    [left + up - upLeft] is the least: the result is the first minimizer
    of the design document, its distance is the minimum of the three
    distances, it is [left] whenever [left] attains the minimum, else [up]
    whenever [up] does, else [upLeft]; and [paeth_predictor 10 20 15 = 15]. *)
Theorem paeth_predictor_first_minimizer (left up upLeft : Z) :
  let d := paeth_distance left up upLeft in
  let r := paeth_predictor left up upLeft in
  r = paeth_spec left up upLeft /\
  d r = Z.min (d left) (Z.min (d up) (d upLeft)) /\
  ((d left = d r /\ r = left) \/
   (d left <> d r /\ d up = d r /\ r = up) \/
   (d left <> d r /\ d up <> d r /\ r = upLeft)) /\
  paeth_predictor 10 20 15 = 15.
Proof.
  cbv zeta. split; [apply paeth_predictor_eq_spec|].
  split; [|split; [|reflexivity]].
  - unfold paeth_predictor, paeth_distance.
    repeat match goal with
           | |- context [ (?x <=? ?y) ] => destruct (Z.leb_spec x y)
           end; simpl; lia.
  - unfold paeth_predictor, paeth_distance.
    repeat match goal with
           | |- context [ (?x <=? ?y) ] => destruct (Z.leb_spec x y)
           end; simpl; lia.
Qed.

(** ** Alpha blending *)

Lemma blend_range (c a : Z) :
  0 <= c <= 255 -> 0 <= a <= 255 -> 0 <= blend c a <= 255.
Proof.
  intros Hc Ha. unfold blend. split.
  - apply Z.div_pos; nia.
  - apply Z.lt_succ_r. apply Z.div_lt_upper_bound; nia.
Qed.

(** C9. For [0 <= c <= 255] and [0 < a < 255] the blend value
    [(c * a + 255 * (255 - a) + 127) // 255] lies in [0..255]: it converts
    to a byte of that value, and storing it at an index inside the buffer
    succeeds. *)
Theorem blend_write_never_fails (c a : Z) (buf : bytes) (i : nat) :
  0 <= c <= 255 -> 0 < a < 255 -> (i < length buf)%nat ->
  0 <= blend c a <= 255 /\
  exists b, byte_of_int (blend c a) = Ok b /\ byte_val b = blend c a /\
            setitem buf i (blend c a) = Ok (<[i:=b]> buf).
Proof.
  intros Hc Ha Hi.
  assert (Hr : 0 <= blend c a <= 255) by (apply blend_range; lia).
  split; [exact Hr|].
  destruct (byte_of_int_ok _ Hr) as (b & Hb & Hv).
  exists b. split; [exact Hb|]. split; [exact Hv|].
  unfold setitem. destruct (Nat.ltb_spec i (length buf)); [|lia].
  rewrite Hb. reflexivity.
Qed.

Lemma blend_write_never_fails_witness :
  0 <= blend 200 128 <= 255 /\
  exists b, byte_of_int (blend 200 128) = Ok b /\
            byte_val b = blend 200 128 /\
            setitem [x00; x00; x00] 1 (blend 200 128)
            = Ok (<[1%nat:=b]> [x00; x00; x00]).
Proof.
  apply (blend_write_never_fails 200 128 [x00; x00; x00] 1); simpl; lia.
Defined.

Lemma insert3_slice_assign (buf : bytes) (i : nat) (x y z : byte) :
  (i + 3 <= length buf)%nat ->
  <[(i + 2)%nat:=z]> (<[(i + 1)%nat:=y]> (<[i:=x]> buf))
  = slice_assign buf i (i + 3) [x; y; z].
Proof.
  unfold slice_assign. revert buf.
  induction i as [|i IH]; intros buf Hlen.
  - destruct buf as [|b0 [|b1 [|b2 buf]]]; simpl in Hlen; try lia. reflexivity.
  - destruct buf as [|b0 buf]; simpl in Hlen; [lia|].
    simpl. f_equal. apply IH. lia.
Qed.

Lemma slice_assign_length (buf v : bytes) (i : nat) :
  (i + length v <= length buf)%nat ->
  length (slice_assign buf i (i + length v) v) = length buf.
Proof.
  intros H. unfold slice_assign.
  rewrite !length_app, length_take, length_drop. lia.
Qed.

(** The three bytes [put_pixel] writes. *)
Lemma put_pixel_spec (result : bytes) (out_offset : nat) (r g b a : byte) :
  (out_offset + 3 <= length result)%nat ->
  exists r' g' b',
    put_pixel result out_offset r g b a
    = Ok (slice_assign result out_offset (out_offset + 3) [r'; g'; b']) /\
    ((byte_val a = 255 /\ r' = r /\ g' = g /\ b' = b) \/
     (byte_val a = 0 /\ r' = xff /\ g' = xff /\ b' = xff) \/
     (0 < byte_val a < 255 /\
      byte_val r' = blend (byte_val r) (byte_val a) /\
      byte_val g' = blend (byte_val g) (byte_val a) /\
      byte_val b' = blend (byte_val b) (byte_val a))).
Proof.
  intros Hlen. unfold put_pixel.
  pose proof (byte_val_range a) as Ha.
  destruct (Z.eqb_spec (byte_val a) 255) as [E255|N255].
  { exists r, g, b. split; [reflexivity|]. left. auto. }
  destruct (Z.eqb_spec (byte_val a) 0) as [E0|N0].
  { exists xff, xff, xff. split; [reflexivity|]. right; left. auto. }
  assert (Ha' : 0 < byte_val a < 255) by lia.
  destruct (setitem_ok result out_offset (blend (byte_val r) (byte_val a)))
    as (r' & Hr' & ->);
    [lia | apply blend_range; [apply byte_val_range | lia] |].
  simpl.
  destruct (setitem_ok (<[out_offset:=r']> result) (out_offset + 1)
              (blend (byte_val g) (byte_val a)))
    as (g' & Hg' & ->);
    [ rewrite length_insert; lia
    | apply blend_range; [apply byte_val_range | lia] |].
  simpl.
  destruct (setitem_ok (<[(out_offset + 1)%nat:=g']> (<[out_offset:=r']> result))
              (out_offset + 2) (blend (byte_val b) (byte_val a)))
    as (b' & Hb' & ->);
    [rewrite !length_insert; lia
    | apply blend_range; [apply byte_val_range | lia] |].
  exists r', g', b'. split.
  - f_equal. apply insert3_slice_assign. exact Hlen.
  - right; right. auto.
Qed.

(** ** The alpha table of an indexed image *)

Lemma list_setitem_lt {A} (l : list A) (i : nat) (v : A) :
  (i < length l)%nat -> list_setitem l i v = Ok (<[i:=v]> l).
Proof.
  intros Hi. unfold list_setitem. destruct (Nat.ltb_spec i (length l)); [reflexivity|lia].
Qed.

Lemma fill_alpha_table_eq (t : bytes) :
  forall (idx : nat) (tbl : list byte),
    fill_alpha_table idx t tbl
    = Ok (take idx tbl ++ take (length tbl - idx) t
            ++ drop (idx + length t) tbl).
Proof.
  induction t as [|v rest IH]; intros idx tbl; simpl.
  - rewrite take_nil, Nat.add_0_r. simpl. by rewrite take_drop.
  - destruct (Nat.ltb_spec idx (length tbl)) as [Hlt|Hge].
    + rewrite list_setitem_lt by lia. simpl. rewrite IH.
      rewrite length_insert. f_equal.
      rewrite take_insert_lt by lia.
      assert (Hv : exists x, tbl !! idx = Some x) by (apply lookup_lt_is_Some_2; lia).
      destruct Hv as [x Hx].
      rewrite (take_S_r _ _ _ Hx).
      rewrite insert_app_r_alt by (rewrite length_take; lia).
      rewrite length_take. replace (idx - idx `min` length tbl)%nat with 0%nat by lia.
      simpl. rewrite drop_insert_lt by lia.
      replace (length tbl - idx)%nat with (S (length tbl - S idx)) by lia.
      simpl. rewrite <- app_assoc. simpl.
      replace (idx + S (length rest))%nat with (S (idx + length rest)) by lia.
      reflexivity.
    + simpl. rewrite IH. f_equal.
      rewrite (take_ge tbl idx), (take_ge tbl (S idx)) by lia.
      rewrite !drop_ge by lia.
      replace (length tbl - S idx)%nat with 0%nat by lia.
      replace (length tbl - idx)%nat with 0%nat by lia.
      reflexivity.
Qed.

Lemma build_alpha_table_eq palette transparency :
  build_alpha_table palette transparency
  = Ok (take (length palette) (default [] transparency)
        ++ replicate (length palette - length (default [] transparency)) xff).
Proof.
  unfold build_alpha_table.
  destruct transparency as [[|v t]|]; simpl default.
  - by rewrite take_nil, Nat.sub_0_r.
  - rewrite fill_alpha_table_eq. f_equal. rewrite length_replicate, Nat.sub_0_r.
    simpl take at 1. rewrite drop_replicate. simpl. reflexivity.
  - by rewrite take_nil, Nat.sub_0_r.
Qed.

(** C10. Building the alpha table never fails, whatever the length of
    the transparency payload; the table has one entry per palette entry;
    entry [i] is byte [i] of the payload when the payload has one, and
    255 otherwise; payload bytes at positions at or beyond the palette
    size have no effect. *)
Theorem alpha_table_bounded_by_palette
    (palette : list (byte * byte * byte)) (transparency : option bytes) :
  let t := default [] transparency in
  exists alpha_table : list byte,
    build_alpha_table palette transparency = Ok alpha_table /\
    length alpha_table = length palette /\
    alpha_table
    = take (length palette) t ++ replicate (length palette - length t) xff /\
    build_alpha_table palette (Some (take (length palette) t))
    = Ok alpha_table /\
    (forall i : nat,
        alpha_table !! i
        = if (i <? length palette)%nat then Some (default xff (t !! i))
          else None).
Proof.
  cbv zeta. eexists. split; [apply build_alpha_table_eq|].
  set (t := default [] transparency).
  assert (Hlen : length (take (length palette) t
                         ++ replicate (length palette - length t) xff)
                 = length palette).
  { rewrite length_app, length_take, length_replicate. lia. }
  split; [exact Hlen|]. split; [reflexivity|]. split.
  - rewrite build_alpha_table_eq. simpl default. f_equal.
    rewrite take_take, length_take. f_equal; [f_equal; lia|f_equal; lia].
  - intros i. destruct (Nat.ltb_spec i (length palette)) as [Hi|Hi].
    + destruct (Nat.lt_ge_cases i (length t)) as [Hit|Hit].
      * rewrite lookup_app_l by (rewrite length_take; lia).
        rewrite lookup_take_lt by lia.
        destruct (lookup_lt_is_Some_2 t i Hit) as [x Hx]. rewrite Hx. reflexivity.
      * rewrite lookup_app_r by (rewrite length_take; lia).
        rewrite length_take, (lookup_ge_None_2 t i) by lia.
        simpl. apply lookup_replicate_2. lia.
    + apply lookup_ge_None_2. lia.
Qed.

(** ** The transparency key of truecolour images *)

Lemma bytes_eqb_eq (a b : bytes) : bytes_eqb a b = true <-> a = b.
Proof.
  revert b. induction a as [|x a IH]; intros [|y b]; simpl;
    try (split; [discriminate|discriminate]); [tauto|].
  rewrite andb_true_iff, IH. split.
  - intros [Hxy ->]. f_equal. apply Byte.byte_dec_bl. exact Hxy.
  - intros [= -> ->]. split; [apply Byte.byte_dec_lb|]; reflexivity.
Qed.

Lemma lookup_slice (buf : bytes) (i j k : nat) :
  slice buf i j !! k = if (k <? j - i)%nat then buf !! (i + k)%nat else None.
Proof.
  unfold slice. rewrite lookup_take, lookup_drop.
  destruct (Nat.ltb_spec k (j - i)); case_decide; try lia; reflexivity.
Qed.

Lemma lookup_slice_assign (buf v : bytes) (i k : nat) :
  (i + length v <= length buf)%nat ->
  slice_assign buf i (i + length v) v !! k
  = if (k <? i)%nat then buf !! k
    else if (k <? i + length v)%nat then v !! (k - i)%nat
    else buf !! k.
Proof.
  intros Hlen. unfold slice_assign.
  assert (Ht : length (take i buf) = i) by (rewrite length_take; lia).
  destruct (Nat.ltb_spec k i) as [Hk|Hk].
  - rewrite lookup_app_l by lia. apply lookup_take_lt. lia.
  - rewrite lookup_app_r by lia. rewrite Ht.
    destruct (Nat.ltb_spec k (i + length v)) as [Hk'|Hk'].
    + apply lookup_app_l. lia.
    + rewrite lookup_app_r by lia. rewrite lookup_drop. f_equal. lia.
Qed.

Lemma key_step_length (key result : bytes) (px : nat) :
  length key = 3%nat -> length (key_step key result px) = length result.
Proof.
  intros Hkey. unfold key_step.
  destruct (bytes_eqb _ key) eqn:E; [|reflexivity].
  apply bytes_eqb_eq in E.
  assert (Hs : length (slice result (px * 3) (px * 3 + 3)) = 3%nat)
    by (rewrite E; exact Hkey).
  unfold slice in Hs. rewrite length_take, length_drop in Hs.
  apply (slice_assign_length result white (px * 3)). simpl. lia.
Qed.

Lemma key_step_pixel (key result : bytes) (px q : nat) :
  length key = 3%nat ->
  pixel (key_step key result px) q
  = if (q =? px)%nat then
      if bytes_eqb (pixel result px) key then white else pixel result px
    else pixel result q.
Proof.
  intros Hkey. unfold key_step. fold (pixel result px).
  destruct (bytes_eqb (pixel result px) key) eqn:E.
  - apply bytes_eqb_eq in E.
    assert (Hs : length (pixel result px) = 3%nat) by (rewrite E; exact Hkey).
    unfold pixel, slice in Hs. rewrite length_take, length_drop in Hs.
    assert (Hlen : (px * 3 + length white <= length result)%nat)
      by (simpl; lia).
    apply list_eq. intros k. unfold pixel at 1.
    rewrite lookup_slice.
    change (px * 3 + 3)%nat with (px * 3 + length white)%nat.
    destruct (Nat.ltb_spec k (q * 3 + 3 - q * 3)) as [Hk|Hk].
    + rewrite (lookup_slice_assign _ _ _ _ Hlen). simpl length.
      destruct (Nat.eqb_spec q px) as [->|Hq].
      * destruct (Nat.ltb_spec (px * 3 + k) (px * 3)); [lia|].
        destruct (Nat.ltb_spec (px * 3 + k) (px * 3 + 3)); [|lia].
        f_equal. lia.
      * unfold pixel. rewrite lookup_slice.
        destruct (Nat.ltb_spec k (q * 3 + 3 - q * 3)); [|lia].
        destruct (Nat.ltb_spec (q * 3 + k) (px * 3)); [reflexivity|].
        destruct (Nat.ltb_spec (q * 3 + k) (px * 3 + 3)); [lia|reflexivity].
    + destruct (Nat.eqb_spec q px) as [->|Hq].
      * symmetry. apply lookup_ge_None_2. simpl. lia.
      * unfold pixel. rewrite lookup_slice.
        destruct (Nat.ltb_spec k (q * 3 + 3 - q * 3)); [lia|reflexivity].
  - destruct (Nat.eqb_spec q px) as [->|Hq]; reflexivity.
Qed.

Lemma key_step_suffix (key result : bytes) (px n : nat) :
  length key = 3%nat -> (px < n)%nat ->
  drop (n * 3) (key_step key result px) = drop (n * 3) result.
Proof.
  intros Hkey Hpx. unfold key_step.
  destruct (bytes_eqb _ key) eqn:E; [|reflexivity].
  apply bytes_eqb_eq in E.
  assert (Hs : length (slice result (px * 3) (px * 3 + 3)) = 3%nat)
    by (rewrite E; exact Hkey).
  unfold slice in Hs. rewrite length_take, length_drop in Hs.
  unfold slice_assign.
  rewrite drop_app_ge by (rewrite length_take; lia).
  rewrite length_take. rewrite drop_app_ge by (simpl; lia).
  rewrite drop_drop. f_equal. simpl. lia.
Qed.

(** The post-pass over pixels [start .. start + count - 1]. *)
Lemma key_pass_spec (key : bytes) (count : nat) :
  length key = 3%nat ->
  forall (start : nat) (result : bytes),
    let out := fold_left (key_step key) (seq start count) result in
    length out = length result /\
    (forall q : nat,
        pixel out q
        = if (start <=? q)%nat && (q <? start + count)%nat then
            if bytes_eqb (pixel result q) key then white else pixel result q
          else pixel result q) /\
    drop ((start + count) * 3) out = drop ((start + count) * 3) result.
Proof.
  intros Hkey. induction count as [|count IH]; intros start result; simpl.
  - split; [reflexivity|]. split; [|reflexivity].
    intros q. destruct (Nat.leb_spec start q); simpl;
      [destruct (Nat.ltb_spec q (start + 0)); [lia|]|]; reflexivity.
  - destruct (IH (S start) (key_step key result start)) as (Hl & Hp & Hd).
    split; [|split].
    + rewrite Hl. apply key_step_length. exact Hkey.
    + intros q. rewrite Hp. rewrite !key_step_pixel by exact Hkey.
      destruct (Nat.eqb_spec q start) as [->|Hq].
      * destruct (Nat.leb_spec (S start) start); [lia|]. simpl.
        destruct (Nat.leb_spec start start); [|lia].
        destruct (Nat.ltb_spec start (start + S count)); [|lia].
        reflexivity.
      * destruct (Nat.leb_spec (S start) q), (Nat.leb_spec start q),
          (Nat.ltb_spec q (S start + count)),
          (Nat.ltb_spec q (start + S count)); simpl; try lia; reflexivity.
    + replace (start + S count)%nat with (S start + count)%nat by lia.
      rewrite Hd. apply key_step_suffix; [exact Hkey | lia].
Qed.

(** ** The document builder *)

Lemma encode_app (s1 s2 : string) : encode (s1 ++ s2) = encode s1 ++ encode s2.
Proof.
  unfold encode, list_byte_of_string.
  induction s1 as [|c s1 IH]; simpl; [reflexivity|]. f_equal. exact IH.
Qed.

Lemma write_objects_spec (objects : list bytes) :
  forall (n : nat) (output : bytes) (xs : list nat),
    write_objects n objects output xs
    = (output ++ records n objects,
       xs ++ record_positions (length output) n objects).
Proof.
  induction objects as [|body rest IH]; intros n output xs; simpl.
  - by rewrite !app_nil_r.
  - rewrite IH. unfold obj_record, obj_marker. f_equal.
    + by rewrite <- !app_assoc.
    + rewrite <- !app_assoc. simpl. do 2 f_equal.
      by rewrite length_app.
Qed.

Lemma write_xref_entries_spec (xs : list nat) :
  forall output : bytes,
    write_xref_entries xs output = output ++ concat (map xref_entry xs).
Proof.
  induction xs as [|pos xs IH]; intros output; simpl.
  - by rewrite app_nil_r.
  - rewrite IH. unfold xref_entry. by rewrite <- !app_assoc.
Qed.

Lemma occurs_at_app (pre needle post : bytes) :
  occurs_at needle (length pre) (pre ++ needle ++ post).
Proof.
  unfold occurs_at. rewrite drop_app_length. apply take_app_length.
Qed.

Lemma decimal_value_str_of_nat (n : nat) :
  decimal_value (encode (str_of_nat n)) = Some n.
Proof.
  unfold decimal_value, encode, str_of_nat.
  rewrite string_of_list_byte_of_string, NilEmpty.usu. simpl.
  f_equal. apply DecimalNat.Unsigned.of_to.
Qed.

Lemma decimal_value_zero_padded (k : nat) (digits : bytes) (n : nat) :
  decimal_value digits = Some n ->
  decimal_value (replicate k x30 ++ digits) = Some n.
Proof.
  intros H. induction k as [|k IH]; simpl; [exact H|].
  unfold decimal_value in *.
  change (string_of_list_byte (x30 :: replicate k x30 ++ digits))
    with (String "0" (string_of_list_byte (replicate k x30 ++ digits))).
  cbn [NilEmpty.uint_of_string].
  destruct (NilEmpty.uint_of_string
              (string_of_list_byte (replicate k x30 ++ digits)))
    as [d|]; [|discriminate].
  exact IH.
Qed.

Lemma decimal_value_format_010 (n : nat) :
  decimal_value (format_010 n) = Some n.
Proof.
  unfold format_010. apply decimal_value_zero_padded, decimal_value_str_of_nat.
Qed.

Lemma occurs_at_split (pre needle post hay : bytes) (pos : nat) :
  hay = pre ++ needle ++ post -> pos = length pre -> occurs_at needle pos hay.
Proof. intros -> ->. apply occurs_at_app. Qed.

Lemma pdf_objects_five zc rgb w h :
  exists o1 o2 o3 o4 o5 : bytes, pdf_objects zc rgb w h = [o1; o2; o3; o4; o5].
Proof. unfold pdf_objects. do 5 eexists. reflexivity. Qed.

Lemma prefix_and_marker (pre rest needle tail : bytes) :
  rest = needle ++ tail ->
  take (length pre) (pre ++ rest) = pre /\
  occurs_at needle (length pre) (pre ++ rest).
Proof.
  intros ->. split.
  - apply take_app_length.
  - apply occurs_at_app.
Qed.

(** C1. The output of [make_pdf] is the header, the five object
    records and the cross-reference section, in this order and with
    nothing in between.  The offset [p_n] recorded in the table for object
    [n] (ten zero-padded digits denoting [p_n]) is the number of bytes
    written before the record of object [n], which starts with the marker
    of object [n]; the number after [startxref] is the number of bytes
    written before the cross-reference section, which starts with
    [xref]. *)
Theorem make_pdf_xref_offsets
    (zlib_compress : bytes -> bytes) (rgb : bytes) (width height : Z) :
  exists o1 o2 o3 o4 o5 : bytes,
    let out := make_pdf zlib_compress rgb width height in
    let before1 := pdf_header in
    let before2 := before1 ++ obj_record 1 o1 in
    let before3 := before2 ++ obj_record 2 o2 in
    let before4 := before3 ++ obj_record 3 o3 in
    let before5 := before4 ++ obj_record 4 o4 in
    let before_xref := before5 ++ obj_record 5 o5 in
    let p1 := length before1 in
    let p2 := length before2 in
    let p3 := length before3 in
    let p4 := length before4 in
    let p5 := length before5 in
    let xref_start := length before_xref in
    pdf_objects zlib_compress rgb width height = [o1; o2; o3; o4; o5] /\
    out = before_xref ++ xref_section [p1; p2; p3; p4; p5] xref_start /\
    (take p1 out = before1 /\ occurs_at (obj_marker 1 ++ LF) p1 out) /\
    (take p2 out = before2 /\ occurs_at (obj_marker 2 ++ LF) p2 out) /\
    (take p3 out = before3 /\ occurs_at (obj_marker 3 ++ LF) p3 out) /\
    (take p4 out = before4 /\ occurs_at (obj_marker 4 ++ LF) p4 out) /\
    (take p5 out = before5 /\ occurs_at (obj_marker 5 ++ LF) p5 out) /\
    (take xref_start out = before_xref /\
     occurs_at (encode "xref" ++ LF) xref_start out) /\
    Forall (fun p => decimal_value (format_010 p) = Some p)
      [p1; p2; p3; p4; p5] /\
    decimal_value (encode (str_of_nat xref_start)) = Some xref_start.
Proof.
  destruct (pdf_objects_five zlib_compress rgb width height)
    as (o1 & o2 & o3 & o4 & o5 & Hobj).
  exists o1, o2, o3, o4, o5.
  remember (obj_record 1 o1) as r1 eqn:E1.
  remember (obj_record 2 o2) as r2 eqn:E2.
  remember (obj_record 3 o3) as r3 eqn:E3.
  remember (obj_record 4 o4) as r4 eqn:E4.
  remember (obj_record 5 o5) as r5 eqn:E5.
  remember pdf_header as hd eqn:Eh.
  cbv zeta.
  remember (xref_section _ _) as xs eqn:Ex.
  assert (Hout : make_pdf zlib_compress rgb width height
                 = ((((hd ++ r1) ++ r2) ++ r3) ++ r4) ++ r5 ++ xs).
  { subst. unfold make_pdf. rewrite Hobj, write_objects_spec.
    rewrite write_xref_entries_spec.
    cbn [records record_positions app].
    remember (obj_record 1 o1) as r1 eqn:E1.
    remember (obj_record 2 o2) as r2 eqn:E2.
    remember (obj_record 3 o3) as r3 eqn:E3.
    remember (obj_record 4 o4) as r4 eqn:E4.
    remember (obj_record 5 o5) as r5 eqn:E5.
    remember pdf_header as hd eqn:Eh.
    rewrite !length_app. cbn [length].
    rewrite !Nat.add_0_r, !Nat.add_assoc.
    unfold xref_section. rewrite <- !app_assoc. reflexivity. }
  split; [exact Hobj|]. split; [rewrite Hout, <- !app_assoc; reflexivity|].
  rewrite Hout. clear Hout.
  refine (conj _ (conj _ (conj _ (conj _ (conj _ (conj _ (conj _ _))))))).
  - rewrite <- !app_assoc. eapply (prefix_and_marker hd).
    rewrite E1. unfold obj_record. rewrite <- !app_assoc. reflexivity.
  - rewrite <- !app_assoc. rewrite (app_assoc hd).
    eapply (prefix_and_marker (hd ++ r1)).
    rewrite E2. unfold obj_record. rewrite <- !app_assoc. reflexivity.
  - rewrite <- (app_assoc _ r4), <- (app_assoc _ r3).
    eapply (prefix_and_marker ((hd ++ r1) ++ r2)).
    rewrite E3. unfold obj_record. rewrite <- !app_assoc. reflexivity.
  - rewrite <- (app_assoc _ r4).
    eapply (prefix_and_marker (((hd ++ r1) ++ r2) ++ r3)).
    rewrite E4. unfold obj_record. rewrite <- !app_assoc. reflexivity.
  - eapply (prefix_and_marker ((((hd ++ r1) ++ r2) ++ r3) ++ r4)).
    rewrite E5. unfold obj_record. rewrite <- !app_assoc. reflexivity.
  - rewrite (app_assoc _ r5).
    eapply (prefix_and_marker (((((hd ++ r1) ++ r2) ++ r3) ++ r4) ++ r5)).
    rewrite Ex. unfold xref_section. rewrite <- !app_assoc. reflexivity.
  - repeat constructor; apply decimal_value_format_010.
  - apply decimal_value_str_of_nat.
Qed.

(** ** The container parser *)

Lemma unpack_I_Ok (b : bytes) (n : nat) :
  unpack_I b = Ok n -> length b = 4%nat.
Proof.
  destruct b as [|b0 [|b1 [|b2 [|b3 [|b4 b]]]]]; simpl; try discriminate.
  reflexivity.
Qed.

(** The chunk loop ends: fuel above the length of the stream is enough. *)
Lemma read_chunks_fuel (fuel : nat) :
  forall (self : PngImage) (stream : bytes),
    (length stream < fuel)%nat ->
    exists r, read_chunks fuel self stream = Some r.
Proof.
  induction fuel as [|fuel IH]; intros self stream Hlen; [lia|].
  cbn [read_chunks read].
  destruct (length (take 4 stream) =? 0)%nat; [eauto|].
  destruct (unpack_I (take 4 stream)) as [len|e] eqn:Hlenb; [|eauto].
  apply unpack_I_Ok in Hlenb. rewrite length_take in Hlenb.
  set (stream' := drop 4 (drop len (drop 4 (drop 4 stream)))).
  assert (Hs : (length stream' < fuel)%nat)
    by (subst stream'; rewrite !length_drop; lia).
  destruct (bytes_eqb _ (encode "IHDR")).
  { destruct (_parse_ihdr self _) as [self' [[]|e]]; eauto. }
  destruct (bytes_eqb _ (encode "IDAT")); [eauto|].
  destruct (bytes_eqb _ (encode "PLTE")).
  { destruct (_parse_palette self _) as [self' [[]|e]]; eauto. }
  destruct (bytes_eqb _ (encode "tRNS")); [eauto|].
  destruct (bytes_eqb _ (encode "IEND")); eauto.
Qed.

(** [load] returns: with the object it leaves, and either normally or by
    raising. *)
Lemma load_total (self : PngImage) (stream : bytes) :
  exists self' r, load self stream = Some (self', r).
Proof.
  unfold load. cbn [read].
  destruct (negb _); [eauto|].
  destruct (read_chunks_fuel (S (length (drop 8 stream))) self (drop 8 stream))
    as [[self' r] Hr]; [lia|].
  rewrite Hr. destruct r as [[]|e]; eauto.
Qed.

Lemma byte_nat_zero (b : byte) : byte_nat b = 0%nat <-> b = x00.
Proof.
  unfold byte_nat. split.
  - intros H. pose proof (Byte.of_to_nat b) as Hb. rewrite H in Hb.
    simpl in Hb. congruence.
  - intros ->. reflexivity.
Qed.

Lemma _parse_ihdr_rejects (self : PngImage)
    (w0 w1 w2 w3 h0 h1 h2 h3 bd ct cm fm il : byte) :
  cm <> x00 \/ fm <> x00 ->
  _parse_ihdr self [w0; w1; w2; w3; h0; h1; h2; h3; bd; ct; cm; fm; il]
  = ({| width := (((byte_nat w0 * 256 + byte_nat w1) * 256 + byte_nat w2) * 256
                  + byte_nat w3)%nat;
        height := (((byte_nat h0 * 256 + byte_nat h1) * 256 + byte_nat h2) * 256
                   + byte_nat h3)%nat;
        bit_depth := byte_nat bd; color_type := byte_nat ct;
        compression := byte_nat cm; filter_method := byte_nat fm;
        interlace := byte_nat il;
        _idat_chunks := _idat_chunks self; _palette := _palette self;
        _transparency := _transparency self |},
     Raise (SystemExit UnsupportedCompressionParameters)).
Proof.
  intros H. unfold _parse_ihdr. cbn [unpack_IIBBBBB unpack_I bind].
  destruct (Nat.eqb_spec (byte_nat cm) 0) as [E1|N1];
    destruct (Nat.eqb_spec (byte_nat fm) 0) as [E2|N2]; try reflexivity.
  apply byte_nat_zero in E1, E2. tauto.
Qed.


Lemma load_after_signature (self : PngImage) (stream : bytes) :
  load self (PNG_SIGNATURE ++ stream)
  = match read_chunks (S (length stream)) self stream with
    | Some (self', Ok _) => Some (self', check_loaded self')
    | other => other
    end.
Proof. reflexivity. Qed.

Lemma read_chunks_ihdr (fuel : nat) (self : PngImage)
    (w0 w1 w2 w3 h0 h1 h2 h3 bd ct cm fm il : byte) (rest : bytes) :
  read_chunks (S fuel) self
    (ihdr_chunk_head ++ [w0; w1; w2; w3; h0; h1; h2; h3; bd; ct; cm; fm; il]
     ++ rest)
  = match _parse_ihdr self [w0; w1; w2; w3; h0; h1; h2; h3; bd; ct; cm; fm; il]
    with
    | (self', Ok _) => read_chunks fuel self' (drop 4 rest)
    | (self', Raise e) => Some (self', Raise e)
    end.
Proof. reflexivity. Qed.

(** C3, amended. The compression and filter methods are checked while
    the header chunk is parsed, inside the chunk loop and before any check
    for missing data: a file whose first chunk is a header chunk with a 13
    byte payload declaring a non-zero compression or filter method fails
    with the unsupported-format kind, whatever follows the header; the
    object then holds the rejected methods and no new data chunk. *)
Theorem compression_checked_in_header_chunk (self : PngImage)
    (w0 w1 w2 w3 h0 h1 h2 h3 bd ct cm fm il : byte) (rest : bytes) :
  cm <> x00 \/ fm <> x00 ->
  exists self',
    load self (PNG_SIGNATURE ++ ihdr_chunk_head 
               ++ [w0; w1; w2; w3; h0; h1; h2; h3; bd; ct; cm; fm; il]
               ++ rest)
    = Some (self', Raise (SystemExit UnsupportedCompressionParameters)) /\
    classify (SystemExit UnsupportedCompressionParameters)
    = Some UnsupportedFormatError /\
    compression self' = byte_nat cm /\
    filter_method self' = byte_nat fm /\
    _idat_chunks self' = _idat_chunks self.
Proof.
  intros H. eexists. split; [|split; [reflexivity|]].
  - rewrite load_after_signature, read_chunks_ihdr.
    rewrite (_parse_ihdr_rejects _ _ _ _ _ _ _ _ _ _ _ _ _ _ H). reflexivity.
  - repeat split.
Qed.




Lemma compression_checked_in_header_chunk_witness :
  exists self',
    load PngImage_init
      (PNG_SIGNATURE ++ ihdr_chunk_head
       ++ [x00; x00; x00; x01; x00; x00; x00; x01; x08; x02; x01; x00; x00]
       ++ [x00; x00; x00; x00])
    = Some (self', Raise (SystemExit UnsupportedCompressionParameters)) /\
    classify (SystemExit UnsupportedCompressionParameters)
    = Some UnsupportedFormatError /\
    compression self' = byte_nat x01 /\
    filter_method self' = byte_nat x00 /\
    _idat_chunks self' = _idat_chunks PngImage_init.
Proof.
  apply (compression_checked_in_header_chunk PngImage_init
           x00 x00 x00 x01 x00 x00 x00 x01 x08 x02 x01 x00 x00
           [x00; x00; x00; x00]).
  left. discriminate.
Defined.

(** C2 (the code falls short of it). A header chunk with a payload of
    12 bytes makes [load] fail with [struct.error], which is none of the
    error kinds: [_parse_ihdr] does not check the size of the payload,
    unlike [_parse_palette]. *)
Theorem short_header_raises_struct_error :
  load PngImage_init png_short_header = Some (PngImage_init, Raise StructError) /\
  classify StructError = None /\
  classify StructError <> Some MalformedChunkError.
Proof.
  split; [vm_compute; reflexivity|]. split; [reflexivity | discriminate].
Qed.

(** C3, as stated, fails: a header that declares compression method 1,
    in a file without data chunks, is rejected for its compression
    parameters, not for the missing image data. *)
Lemma missing_data_not_checked_first :
  load PngImage_init png_bad_compression
  = Some (png_bad_compression_left,
          Raise (SystemExit UnsupportedCompressionParameters)) /\
  compression png_bad_compression_left = 1%nat /\
  _idat_chunks png_bad_compression_left = [] /\
  ~ (exists self' r,
        load PngImage_init png_bad_compression
        = Some (self', Raise (SystemExit r)) /\
        kind_of_exit r = MissingDataError).
Proof.
  assert (H : load PngImage_init png_bad_compression
              = Some (png_bad_compression_left,
                      Raise (SystemExit UnsupportedCompressionParameters)))
    by (vm_compute; reflexivity).
  split; [exact H|]. split; [reflexivity|]. split; [reflexivity|].
  intros (self' & r & Hl & Hk). rewrite H in Hl.
  injection Hl as _ <-. discriminate.
Qed.


(** ** The transparency key, end to end *)

(** C7 (the code falls short of it). For a truecolour image whose
    transparency chunk holds the key colour [(r, g, b)] as the PNG format
    writes it at bit depth 8, three samples of two bytes
    [00 r 00 g 00 b], the post-pass of [to_rgb] compares every pixel with
    the first three bytes [(0, r, 0)] of the chunk: unless the key is
    black, the pixels equal to the key are left as they are, and the
    pixels equal to [(0, r, 0)] are replaced by white. *)
Theorem transparency_key_samples_misread
    (zlib_decompress : bytes -> outcome bytes) (self : PngImage)
    (r g b : byte) (out : bytes) :
  color_type self = 2%nat ->
  _transparency self = Some [x00; r; x00; g; x00; b] ->
  [r; g; b] <> [x00; x00; x00] ->
  to_rgb zlib_decompress self = Ok out ->
  exists decompressed result : bytes,
    zlib_decompress (concat (_idat_chunks self)) = Ok decompressed /\
    composite_rows self decompressed = Ok result /\
    forall px : nat,
      (px < width self * height self)%nat ->
      pixel out px
      = (if bytes_eqb (pixel result px) [x00; r; x00] then white
         else pixel result px) /\
      (pixel result px = [r; g; b] -> pixel out px = [r; g; b]) /\
      (pixel result px = [x00; r; x00] -> pixel out px = white).
Proof.
  intros Hct Ht Hkey. unfold to_rgb.
  destruct (zlib_decompress _) as [decompressed|e] eqn:Hz; [|discriminate].
  cbn [bind].
  destruct (composite_rows self decompressed) as [result|e] eqn:Hc;
    [|discriminate].
  cbn [bind]. intros [= <-].
  exists decompressed, result. split; [reflexivity|]. split; [exact Hc|].
  unfold apply_transparency_key, channels_of. rewrite Hct, Ht.
  cbn [Nat.eqb take].
  destruct (key_pass_spec [x00; r; x00] (width self * height self)
              eq_refl 0 result) as (_ & Hp & _).
  intros px Hpx.
  assert (Hpix : pixel (fold_left (key_step [x00; r; x00])
                          (seq 0 (width self * height self)) result) px
                 = if bytes_eqb (pixel result px) [x00; r; x00] then white
                   else pixel result px).
  { rewrite Hp.
    destruct (Nat.ltb_spec px (0 + width self * height self)); [|lia].
    reflexivity. }
  split; [exact Hpix|]. rewrite Hpix. split.
  - intros ->.
    destruct (bytes_eqb [r; g; b] [x00; r; x00]) eqn:E; [|reflexivity].
    apply bytes_eqb_eq in E. injection E as -> -> ->. contradiction.
  - intros ->.
    destruct (bytes_eqb [x00; r; x00] [x00; r; x00]) eqn:E; [reflexivity|].
    assert (H : bytes_eqb [x00; r; x00] [x00; r; x00] = true)
      by (apply bytes_eqb_eq; reflexivity).
    congruence.
Qed.

Lemma transparency_key_samples_misread_witness :
  load PngImage_init png_key_samples = Some (png_key_samples_loaded, Ok tt) /\
  to_rgb inflate_stored png_key_samples_loaded
  = Ok [x01; x02; x03; xff; xff; xff] /\
  exists decompressed result : bytes,
    inflate_stored (concat (_idat_chunks png_key_samples_loaded))
    = Ok decompressed /\
    composite_rows png_key_samples_loaded decompressed = Ok result /\
    forall px : nat,
      (px < width png_key_samples_loaded * height png_key_samples_loaded)%nat ->
      pixel [x01; x02; x03; xff; xff; xff] px
      = (if bytes_eqb (pixel result px) [x00; x01; x00] then white
         else pixel result px) /\
      (pixel result px = [x01; x02; x03] ->
       pixel [x01; x02; x03; xff; xff; xff] px = [x01; x02; x03]) /\
      (pixel result px = [x00; x01; x00] ->
       pixel [x01; x02; x03; xff; xff; xff] px = white).
Proof.
  split; [vm_compute; reflexivity|]. split; [vm_compute; reflexivity|].
  apply (transparency_key_samples_misread inflate_stored
           png_key_samples_loaded x01 x02 x03).
  - reflexivity.
  - reflexivity.
  - discriminate.
  - vm_compute. reflexivity.
Defined.

(** ** Rows that stop short *)

Example short_row_idat_inflates :
  inflate_stored short_row_idat = Ok [x00; x01; x02; x03].
Proof. vm_compute. reflexivity. Qed.

Example png_short_row_loads :
  load PngImage_init png_short_row = Some (png_short_row_loaded, Ok tt).
Proof. vm_compute. reflexivity. Qed.

(** C4 (the code falls short of it). A truecolour file of two by one
    pixels whose decompressed data stop in the middle of the row loads,
    and [to_rgb] returns three bytes for it instead of
    [width * height * 3 = 6]: the slice assignment of the truecolour
    branch shrinks [result] when the row is short. *)
Theorem to_rgb_short_row_returns_short_buffer
    (zlib_decompress : bytes -> outcome bytes) :
  zlib_decompress short_row_idat = Ok [x00; x01; x02; x03] ->
  load PngImage_init png_short_row = Some (png_short_row_loaded, Ok tt) /\
  to_rgb zlib_decompress png_short_row_loaded = Ok [x01; x02; x03] /\
  length [x01; x02; x03]
  <> (width png_short_row_loaded * height png_short_row_loaded * 3)%nat.
Proof.
  intros Hz. split; [vm_compute; reflexivity|]. split.
  - unfold to_rgb. change (concat (_idat_chunks png_short_row_loaded)) with short_row_idat.
    rewrite Hz. vm_compute. reflexivity.
  - simpl. lia.
Qed.

Lemma to_rgb_short_row_returns_short_buffer_witness :
  load PngImage_init png_short_row = Some (png_short_row_loaded, Ok tt) /\
  to_rgb inflate_stored png_short_row_loaded = Ok [x01; x02; x03] /\
  length [x01; x02; x03]
  <> (width png_short_row_loaded * height png_short_row_loaded * 3)%nat.
Proof.
  apply (to_rgb_short_row_returns_short_buffer inflate_stored).
  vm_compute. reflexivity.
Defined.

(** ** The scanline filters *)

Lemma byte_val_inj (a b : byte) : byte_val a = byte_val b -> a = b.
Proof.
  unfold byte_val. intros H. apply N2Z.inj in H.
  pose proof (Byte.of_to_N a) as Ha. pose proof (Byte.of_to_N b) as Hb.
  rewrite H in Ha. congruence.
Qed.

Lemma wrap_byte_val (z : Z) : byte_val (wrap_byte z) = z mod 256.
Proof.
  unfold wrap_byte.
  pose proof (Z.mod_pos_bound z 256 ltac:(lia)) as Hm.
  destruct (Byte.of_N (Z.to_N (z mod 256))) as [b|] eqn:Hb.
  - apply Byte.to_of_N in Hb. simpl. unfold byte_val. rewrite Hb. lia.
  - apply Byte.of_N_None_iff in Hb. lia.
Qed.

Lemma getitem_lt (buf : bytes) (i : nat) :
  (i < length buf)%nat ->
  exists b, buf !! i = Some b /\ getitem buf i = Ok b /\ byte_at buf i = byte_val b.
Proof.
  intros Hi. destruct (lookup_lt_is_Some_2 buf i Hi) as [b Hb].
  exists b. unfold getitem, byte_at. rewrite Hb. auto.
Qed.

Lemma left_of_val (buf : bytes) (i bpp : nat) :
  (i < length buf)%nat -> left_of buf i bpp = Ok (left_val buf i bpp).
Proof.
  intros Hi. unfold left_of, left_val.
  destruct (Nat.leb_spec bpp i); [|reflexivity].
  destruct (getitem_lt buf (i - bpp)) as (b & _ & -> & ->); [lia|]. reflexivity.
Qed.

Lemma setitem_land (buf : bytes) (i : nat) (z : Z) :
  (i < length buf)%nat ->
  exists b, setitem buf i (Z.land z 255) = Ok (<[i:=b]> buf) /\
            byte_val b = z mod 256.
Proof.
  intros Hi.
  destruct (setitem_ok buf i (Z.land z 255) Hi (land_255_range z))
    as (b & Hb & Hs).
  exists b. split; [exact Hs|]. rewrite Hb. apply (Z.land_ones z 8). lia.
Qed.

Lemma filter_step_spec (ft : nat) (prev_row row : bytes) (bpp i : nat) :
  (1 <= ft <= 4)%nat -> (i < length row)%nat -> (i < length prev_row)%nat ->
  exists b,
    filter_step ft prev_row bpp i row = Ok (<[i:=b]> row) /\
    byte_val b
    = (byte_at row i
       + predictor ft (left_val row i bpp) (byte_at prev_row i)
           (left_val prev_row i bpp)) mod 256.
Proof.
  intros Hft Hi Hp.
  destruct (getitem_lt row i Hi) as (c & _ & Hc & Hcv).
  destruct (getitem_lt prev_row i Hp) as (u & _ & Hu & Huv).
  assert (Hft' : ft = 1%nat \/ ft = 2%nat \/ ft = 3%nat \/ ft = 4%nat) by lia.
  destruct Hft' as [-> | [-> | [-> | ->]]]; cbn [filter_step predictor];
    unfold sub_step, up_step, average_step, paeth_step;
    rewrite ?(left_of_val row i bpp Hi), ?(left_of_val prev_row i bpp Hp),
      ?Hc, ?Hu; cbn [bind]; rewrite ?Hcv, ?Huv; apply setitem_land; exact Hi.
Qed.

Lemma left_val_agree (a b : bytes) (i bpp : nat) :
  (1 <= bpp)%nat -> (forall j, (j < i)%nat -> a !! j = b !! j) ->
  left_val a i bpp = left_val b i bpp.
Proof.
  intros Hb H. unfold left_val, byte_at.
  destruct (Nat.leb_spec bpp i); [|reflexivity]. rewrite H by lia. reflexivity.
Qed.

Lemma filter_loop_spec (ft : nat) (prev_row : bytes) (bpp : nat) (count : nat) :
  (1 <= ft <= 4)%nat -> (1 <= bpp)%nat ->
  forall (start : nat) (row : bytes),
    (start + count <= length row)%nat ->
    (start + count <= length prev_row)%nat ->
    exists out,
      for_range start count (filter_step ft prev_row bpp) row = Ok out /\
      length out = length row /\
      (forall j, (j < start \/ start + count <= j)%nat -> out !! j = row !! j) /\
      (forall j, (start <= j < start + count)%nat ->
         byte_at out j
         = (byte_at row j
            + predictor ft (left_val out j bpp) (byte_at prev_row j)
                (left_val prev_row j bpp)) mod 256).
Proof.
  intros Hft Hbpp. induction count as [|count IH]; intros start row Hr Hp.
  - exists row. cbn [for_range]. split; [reflexivity|]. split; [reflexivity|].
    split; intros; [reflexivity | lia].
  - cbn [for_range].
    destruct (filter_step_spec ft prev_row row bpp start Hft) as (b & -> & Hb);
      [lia | lia |]. cbn [bind].
    destruct (IH (S start) (<[start:=b]> row)) as (out & -> & Hlen & Hout & Hrec);
      [rewrite length_insert; lia | lia |].
    rewrite length_insert in Hlen.
    exists out. split; [reflexivity|]. split; [exact Hlen|]. split.
    + intros j Hj. rewrite Hout by lia. apply list_lookup_insert_ne. lia.
    + intros j Hj. destruct (Nat.eq_dec j start) as [->|Hne].
      * assert (Hs : out !! start = Some b).
        { rewrite Hout by lia. apply list_lookup_insert_eq. lia. }
        unfold byte_at at 1. rewrite Hs, Hb. do 3 f_equal.
        apply left_val_agree; [exact Hbpp|].
        intros j Hj'. rewrite Hout by lia.
        symmetry. apply list_lookup_insert_ne. lia.
      * rewrite Hrec by lia. do 2 f_equal.
        unfold byte_at. rewrite list_lookup_insert_ne by lia. reflexivity.
Qed.

Lemma apply_filter_loop (ft : nat) (row prev_row : bytes) (bpp : nat) :
  (1 <= ft <= 4)%nat ->
  apply_filter ft row prev_row bpp
  = for_range 0 (length row) (filter_step ft prev_row bpp) row.
Proof.
  intros Hft.
  assert (Hft' : ft = 1%nat \/ ft = 2%nat \/ ft = 3%nat \/ ft = 4%nat) by lia.
  destruct Hft' as [-> | [-> | [-> | ->]]]; reflexivity.
Qed.

(** X1. For filter types 1 to 4 (Sub, Up, Average, Paeth), at least one
    byte per pixel and a previous row at least as long as the row,
    [apply_filter] succeeds, keeps the length of the row, and byte [i] of
    the result is byte [i] of the input plus the prediction, modulo 256,
    the prediction being computed from the already reconstructed byte
    [bpp] positions to the left and from the previous row (0 at the left
    edge). *)
Theorem apply_filter_reconstructs
    (filter_type : nat) (row prev_row : bytes) (channels : nat) :
  (1 <= filter_type <= 4)%nat -> (1 <= channels)%nat ->
  (length row <= length prev_row)%nat ->
  exists out,
    apply_filter filter_type row prev_row channels = Ok out /\
    length out = length row /\
    (forall i, (i < length row)%nat ->
       byte_at out i
       = (byte_at row i
          + predictor filter_type (left_val out i channels)
              (byte_at prev_row i) (left_val prev_row i channels)) mod 256).
Proof.
  intros Hft Hbpp Hlen. rewrite apply_filter_loop by exact Hft.
  destruct (filter_loop_spec filter_type prev_row channels (length row) Hft Hbpp
              0 row) as (out & Ho & Hl & _ & Hrec); [simpl; lia | simpl; lia |].
  exists out. split; [exact Ho|]. split; [exact Hl|].
  intros i Hi. apply Hrec. lia.
Qed.

Lemma png_filter_length (ft : nat) (raw prev_row : bytes) (bpp : nat) :
  length (png_filter ft raw prev_row bpp) = length raw.
Proof. unfold png_filter. apply length_imap. Qed.

Lemma byte_at_png_filter (ft : nat) (raw prev_row : bytes) (bpp i : nat) :
  (i < length raw)%nat ->
  byte_at (png_filter ft raw prev_row bpp) i
  = (byte_at raw i
     - predictor ft (left_val raw i bpp) (byte_at prev_row i)
         (left_val prev_row i bpp)) mod 256.
Proof.
  intros Hi. unfold byte_at at 1 2, png_filter.
  rewrite list_lookup_imap.
  destruct (lookup_lt_is_Some_2 raw i Hi) as [x ->]. simpl.
  apply wrap_byte_val.
Qed.

(** X2. [apply_filter] undoes the filter of a PNG encoder: for filter
    types 0 to 4, filtering a raw row against a previous row and then
    applying [apply_filter] with the same previous row gives the raw row
    back. *)
Theorem apply_filter_inverts_png_filter
    (filter_type : nat) (raw prev_row : bytes) (channels : nat) :
  (filter_type <= 4)%nat -> (1 <= channels)%nat ->
  (length raw <= length prev_row)%nat ->
  apply_filter filter_type (png_filter filter_type raw prev_row channels)
    prev_row channels
  = Ok raw.
Proof.
  intros Hft Hbpp Hlen.
  destruct (Nat.eq_dec filter_type 0%nat) as [-> | Hne].
  - cbn [apply_filter]. f_equal. apply list_eq. intros i.
    unfold png_filter. rewrite list_lookup_imap.
    destruct (raw !! i) as [x|]; [|reflexivity]. simpl. f_equal.
    apply byte_val_inj. rewrite wrap_byte_val. cbn [predictor].
    pose proof (byte_val_range x). rewrite Z.mod_small by lia. lia.
  - set (filt := png_filter filter_type raw prev_row channels).
    assert (Hft' : (1 <= filter_type <= 4)%nat) by lia.
    rewrite (apply_filter_loop filter_type filt prev_row channels Hft').
    destruct (filter_loop_spec filter_type prev_row channels (length filt)
                Hft' Hbpp 0 filt) as (out & -> & Hl & _ & Hrec);
      [simpl; lia
      | subst filt; rewrite png_filter_length; simpl; lia |].
    subst filt. rewrite png_filter_length in Hl, Hrec. f_equal.
    assert (Hall : forall n i, (i < n)%nat -> out !! i = raw !! i).
    { induction n as [|n IH]; intros i Hi; [lia|].
      destruct (Nat.eq_dec i n) as [-> | Hin]; [|apply IH; lia].
      destruct (Nat.lt_ge_cases n (length raw)) as [Hn|Hn].
      - destruct (lookup_lt_is_Some_2 out n ltac:(lia)) as [o Ho].
        destruct (lookup_lt_is_Some_2 raw n Hn) as [r Hr].
        rewrite Ho, Hr. f_equal. apply byte_val_inj.
        pose proof (Hrec n ltac:(lia)) as H.
        rewrite byte_at_png_filter in H by exact Hn.
        rewrite (left_val_agree out raw n channels Hbpp IH) in H.
        unfold byte_at at 1 2 in H. rewrite Ho, Hr in H. rewrite H.
        rewrite Z.add_mod_idemp_l by lia.
        pose proof (byte_val_range r).
        rewrite <- (Z.mod_small (byte_val r) 256) at 2 by lia. f_equal. lia.
      - rewrite !lookup_ge_None_2 by lia. reflexivity. }
    apply list_eq. intros i. apply (Hall (S i)). lia.
Qed.

Lemma apply_filter_inverts_png_filter_witness :
  apply_filter 4 (png_filter 4 [x0a; x14; x1e; x28] [x05; x06; x07; x08] 1)
    [x05; x06; x07; x08] 1
  = Ok [x0a; x14; x1e; x28].
Proof.
  apply (apply_filter_inverts_png_filter 4 [x0a; x14; x1e; x28]
           [x05; x06; x07; x08] 1); simpl; lia.
Defined.

Lemma apply_filter_reconstructs_witness :
  exists out,
    apply_filter 1 [x01; x02; xff] [x00; x00; x00] 1 = Ok out /\
    length out = length [x01; x02; xff] /\
    (forall i, (i < length [x01; x02; xff])%nat ->
       byte_at out i
       = (byte_at [x01; x02; xff] i
          + predictor 1 (left_val out i 1)
              (byte_at [x00; x00; x00] i) (left_val [x00; x00; x00] i 1))
         mod 256).
Proof.
  apply (apply_filter_reconstructs 1 [x01; x02; xff] [x00; x00; x00] 1);
    simpl; lia.
Defined.

(** ** The length of the pixel buffer *)

Lemma for_range_inv {St : Type} (P : nat -> St -> Prop)
    (body : nat -> St -> outcome St) (count : nat) :
  forall (start : nat) (s s' : St),
    P start s ->
    (forall i t t', (start <= i < start + count)%nat ->
       P i t -> body i t = Ok t' -> P (S i) t') ->
    for_range start count body s = Ok s' ->
    P (start + count)%nat s'.
Proof.
  induction count as [|count IH]; intros start s s' H0 Hstep; cbn [for_range].
  - intros [= <-]. by rewrite Nat.add_0_r.
  - destruct (body start s) as [s1|e] eqn:Hb; [|discriminate]. cbn [bind].
    intros Hr. replace (start + S count)%nat with (S start + count)%nat by lia.
    apply (IH (S start) s1 s'); [| |exact Hr].
    + apply (Hstep start s s1); [lia | exact H0 | exact Hb].
    + intros i t t' Hi. apply Hstep. lia.
Qed.

Lemma put_pixel_length (result result' : bytes) (out_offset : nat)
    (r g b a : byte) :
  (out_offset + 3 <= length result)%nat ->
  put_pixel result out_offset r g b a = Ok result' ->
  length result' = length result.
Proof.
  intros Hlen H.
  destruct (put_pixel_spec result out_offset r g b a Hlen)
    as (r' & g' & b' & Hp & _).
  rewrite Hp in H. injection H as <-.
  apply (slice_assign_length result [r'; g'; b'] out_offset). simpl. lia.
Qed.

Lemma rgba_pixel_inv (row_data : bytes) (len base bound px : nat)
    (st st' : bytes * nat) :
  (px < bound)%nat -> (base + bound * 3 <= len)%nat ->
  pixel_inv len base px st ->
  rgba_pixel row_data px st = Ok st' ->
  pixel_inv len base (S px) st'.
Proof.
  intros Hpx Hb [Hl Ho]. destruct st as [result out_offset]. simpl in Hl, Ho.
  unfold rgba_pixel.
  destruct (slice row_data _ _) as [|r [|g [|b [|a [|? ?]]]]]; try discriminate.
  destruct (put_pixel result out_offset r g b a) as [result'|e] eqn:Hp;
    [|discriminate].
  cbn [bind]. intros [= <-]. apply put_pixel_length in Hp; [|lia].
  split; simpl; lia.
Qed.

Lemma indexed_pixel_inv (palette : list (byte * byte * byte))
    (alpha_table : list byte) (row_data : bytes) (len base bound px : nat)
    (st st' : bytes * nat) :
  (px < bound)%nat -> (base + bound * 3 <= len)%nat ->
  pixel_inv len base px st ->
  indexed_pixel palette alpha_table row_data px st = Ok st' ->
  pixel_inv len base (S px) st'.
Proof.
  intros Hpx Hb [Hl Ho]. destruct st as [result out_offset]. simpl in Hl, Ho.
  unfold indexed_pixel.
  destruct (getitem row_data px) as [index|e]; [|discriminate]. cbn [bind].
  destruct (palette !! byte_nat index) as [[[r g] b]|]; [|discriminate].
  destruct (getitem alpha_table (byte_nat index)) as [a|e]; [|discriminate].
  cbn [bind].
  destruct (put_pixel result out_offset r g b a) as [result'|e] eqn:Hp;
    [|discriminate].
  cbn [bind]. intros [= <-]. apply put_pixel_length in Hp; [|lia].
  split; simpl; lia.
Qed.

Lemma apply_filter_length (ft : nat) (row prev_row out : bytes) (ch : nat) :
  apply_filter ft row prev_row ch = Ok out -> length out = length row.
Proof.
  assert (Hloop : forall (step : nat -> bytes -> outcome bytes),
             (forall i t t', step i t = Ok t' -> length t' = length t) ->
             for_range 0 (length row) step row = Ok out ->
             length out = length row).
  { intros step Hstep Hr.
    apply (for_range_inv (fun _ t => length t = length row) step
             (length row) 0%nat row out); [reflexivity | | exact Hr].
    intros i t t' _ Ht Hs. rewrite <- Ht. eapply Hstep. exact Hs. }
  assert (Hset : forall buf i v buf',
             setitem buf i v = Ok buf' -> length buf' = length buf)
    by (intros; eapply setitem_length; eassumption).
  unfold apply_filter.
  destruct ft as [|[|[|[|[|ft]]]]]; try discriminate.
  - intros [= <-]. reflexivity.
  - apply Hloop. intros i t t'. unfold sub_step.
    destruct (left_of t i ch); [|discriminate]. cbn [bind].
    destruct (getitem t i); [|discriminate]. cbn [bind]. apply Hset.
  - apply Hloop. intros i t t'. unfold up_step.
    destruct (getitem t i); [|discriminate]. cbn [bind].
    destruct (getitem prev_row i); [|discriminate]. cbn [bind]. apply Hset.
  - apply Hloop. intros i t t'. unfold average_step.
    destruct (left_of t i ch); [|discriminate]. cbn [bind].
    destruct (getitem prev_row i); [|discriminate]. cbn [bind].
    destruct (getitem t i); [|discriminate]. cbn [bind]. apply Hset.
  - apply Hloop. intros i t t'. unfold paeth_step.
    destruct (left_of t i ch); [|discriminate]. cbn [bind].
    destruct (getitem prev_row i); [|discriminate]. cbn [bind].
    destruct (left_of prev_row i ch); [|discriminate]. cbn [bind].
    destruct (getitem t i); [|discriminate]. cbn [bind]. apply Hset.
Qed.

Lemma channels_of_cases (self : PngImage) :
  (color_type self = 3%nat /\ channels_of self = 1%nat) \/
  (color_type self = 2%nat /\ channels_of self = 3%nat) \/
  (color_type self <> 2%nat /\ color_type self <> 3%nat /\
   channels_of self = 4%nat).
Proof.
  unfold channels_of.
  destruct (Nat.eqb_spec (color_type self) 3) as [E3|N3]; [by left|].
  destruct (Nat.eqb_spec (color_type self) 2) as [E2|N2]; [right; by left|].
  right; right. auto.
Qed.

(** The row loop of the two blending modes keeps the length of
    [result]. *)
Lemma row_step_blended (self : PngImage) (decompressed : bytes)
    (channels : nat) (alpha_table : option (list byte)) (i : nat)
    (st st' : row_state) :
  channels <> 3%nat -> (i < height self)%nat ->
  length (rs_result st) = (width self * height self * 3)%nat ->
  rs_out_offset st = (i * (width self * 3))%nat ->
  row_step self decompressed channels (width self * channels) alpha_table st
  = Ok st' ->
  length (rs_result st') = (width self * height self * 3)%nat /\
  rs_out_offset st' = (S i * (width self * 3))%nat.
Proof.
  intros Hch Hi Hl Ho. unfold row_step.
  destruct (getitem decompressed _) as [ft|e]; [|discriminate]. cbn [bind].
  destruct (apply_filter _ _ _ _) as [row_data|e]; [|discriminate]. cbn [bind].
  destruct (Nat.eqb_spec channels 3) as [E|_]; [contradiction|].
  assert (Hb : (rs_out_offset st + width self * 3
                <= width self * height self * 3)%nat) by nia.
  assert (Hloop : forall step written,
             (forall px t t', (px < width self)%nat ->
                pixel_inv (width self * height self * 3) (rs_out_offset st) px t ->
                step px t = Ok t' ->
                pixel_inv (width self * height self * 3) (rs_out_offset st)
                  (S px) t') ->
             for_range 0 (width self) step (rs_result st, rs_out_offset st)
             = Ok written ->
             length (fst written) = (width self * height self * 3)%nat /\
             snd written = (S i * (width self * 3))%nat).
  { intros step written Hstep Hr.
    apply (for_range_inv
             (pixel_inv (width self * height self * 3) (rs_out_offset st))
             step (width self) 0%nat _ written) in Hr.
    - destruct Hr as [H1 H2]. split; [exact H1|]. rewrite H2. simpl. lia.
    - split; simpl; [exact Hl | lia].
    - intros px t t' Hpx. apply Hstep. lia. }
  destruct (channels =? 4)%nat.
  - destruct (for_range _ _ _ _) as [written|e] eqn:Hr; [|discriminate].
    cbn [bind]. intros [= <-]. simpl. eapply Hloop; [|exact Hr].
    intros px t t' Hpx. apply (rgba_pixel_inv _ _ _ (width self)); lia.
  - destruct (_palette self) as [palette|]; [|discriminate].
    destruct alpha_table as [alpha_table|]; [|discriminate].
    destruct (for_range _ _ _ _) as [written|e] eqn:Hr; [|discriminate].
    cbn [bind]. intros [= <-]. simpl. eapply Hloop; [|exact Hr].
    intros px t t' Hpx. apply (indexed_pixel_inv _ _ _ _ _ (width self)); lia.
Qed.

Lemma composite_rows_length_blended (self : PngImage)
    (decompressed result : bytes) :
  channels_of self <> 3%nat ->
  composite_rows self decompressed = Ok result ->
  length result = (width self * height self * 3)%nat.
Proof.
  intros Hch. unfold composite_rows.
  destruct (if (channels_of self =? 1)%nat then _ else _)
    as [alpha_table|e]; [|discriminate]. cbn [bind].
  destruct (for_range _ _ _ _) as [st|e] eqn:Hr; [|discriminate].
  cbn [bind]. intros [= <-].
  apply (for_range_inv
           (fun i st =>
              length (rs_result st) = (width self * height self * 3)%nat /\
              rs_out_offset st = (i * (width self * 3))%nat)
           _ (height self) 0%nat _ st) in Hr; [tauto | |].
  - simpl. split; [apply length_replicate | lia].
  - intros i t t' Hi [Hl Ho]. apply row_step_blended; [exact Hch|lia|exact Hl|exact Ho].
Qed.

(** X3. For every colour type other than truecolour (indexed and
    truecolour with alpha in a loaded image), a successful [to_rgb]
    returns exactly [width * height * 3] bytes. *)
Theorem to_rgb_length_blended
    (zlib_decompress : bytes -> outcome bytes) (self : PngImage) (out : bytes) :
  color_type self <> 2%nat ->
  to_rgb zlib_decompress self = Ok out ->
  length out = (width self * height self * 3)%nat.
Proof.
  intros Hct. unfold to_rgb.
  destruct (zlib_decompress _) as [decompressed|e]; [|discriminate].
  cbn [bind].
  destruct (composite_rows self decompressed) as [result|e] eqn:Hc;
    [|discriminate].
  cbn [bind]. intros [= <-].
  assert (Hch : channels_of self <> 3%nat)
    by (destruct (channels_of_cases self) as [[_ ->]|[[E _]|(_ & _ & ->)]];
        [lia | contradiction | lia]).
  apply composite_rows_length_blended in Hc; [|exact Hch].
  unfold apply_transparency_key.
  destruct (_transparency self) as [[|v t]|]; try exact Hc.
  destruct (Nat.eqb_spec (channels_of self) 3); [contradiction | exact Hc].
Qed.

Lemma key_step_length_in_range (key result : bytes) (px : nat) :
  (px * 3 + 3 <= length result)%nat ->
  length (key_step key result px) = length result.
Proof.
  intros H. unfold key_step. destruct (bytes_eqb _ key); [|reflexivity].
  apply (slice_assign_length result white (px * 3)). simpl. lia.
Qed.

Lemma key_pass_length (key : bytes) (count : nat) :
  forall (start : nat) (result : bytes),
    ((start + count) * 3 <= length result)%nat ->
    length (fold_left (key_step key) (seq start count) result) = length result.
Proof.
  induction count as [|count IH]; intros start result H; [reflexivity|].
  cbn [seq fold_left]. rewrite IH.
  - apply key_step_length_in_range. lia.
  - rewrite key_step_length_in_range; lia.
Qed.

Lemma row_step_truecolor (self : PngImage) (decompressed : bytes)
    (alpha_table : option (list byte)) (i : nat) (st st' : row_state) :
  (i < height self)%nat ->
  (height self * (1 + width self * 3) <= length decompressed)%nat ->
  length (rs_result st) = (width self * height self * 3)%nat ->
  rs_out_offset st = (i * (width self * 3))%nat ->
  rs_offset st = (i * (1 + width self * 3))%nat ->
  row_step self decompressed 3 (width self * 3) alpha_table st = Ok st' ->
  length (rs_result st') = (width self * height self * 3)%nat /\
  rs_out_offset st' = (S i * (width self * 3))%nat /\
  rs_offset st' = (S i * (1 + width self * 3))%nat.
Proof.
  intros Hi Hd Hl Ho Hoff. unfold row_step.
  destruct (getitem decompressed _) as [ft|e]; [|discriminate]. cbn [bind].
  destruct (apply_filter _ _ _ _) as [row_data|e] eqn:Hf; [|discriminate].
  cbn [bind]. change (3 =? 3)%nat with true. cbv iota. cbn [bind].
  intros [= <-]. cbn [rs_result rs_out_offset rs_offset fst snd].
  apply apply_filter_length in Hf.
  assert (Hrow : length row_data = (width self * 3)%nat).
  { rewrite Hf. unfold slice. rewrite length_take, length_drop. nia. }
  split; [|split; lia].
  rewrite <- Hrow. rewrite slice_assign_length; [exact Hl|]. rewrite Hrow. nia.
Qed.

(** X4. For a truecolour image whose decompressed data hold all
    [height] rows of [1 + width * 3] bytes, a successful [to_rgb] returns
    exactly [width * height * 3] bytes, with or without a transparency
    key. *)
Theorem to_rgb_length_truecolor
    (zlib_decompress : bytes -> outcome bytes) (self : PngImage)
    (decompressed out : bytes) :
  color_type self = 2%nat ->
  zlib_decompress (concat (_idat_chunks self)) = Ok decompressed ->
  (height self * (1 + width self * 3) <= length decompressed)%nat ->
  to_rgb zlib_decompress self = Ok out ->
  length out = (width self * height self * 3)%nat.
Proof.
  intros Hct Hz Hd. unfold to_rgb. rewrite Hz. cbn [bind].
  destruct (composite_rows self decompressed) as [result|e] eqn:Hc;
    [|discriminate].
  cbn [bind]. intros [= <-].
  assert (Hch : channels_of self = 3%nat)
    by (unfold channels_of; rewrite Hct; reflexivity).
  assert (Hres : length result = (width self * height self * 3)%nat).
  { revert Hc. unfold composite_rows. rewrite Hch.
    change (3 =? 1)%nat with false. cbv iota. cbn [bind].
    destruct (for_range _ _ _ _) as [st|e] eqn:Hr; [|discriminate].
    cbn [bind]. intros [= <-].
    apply (for_range_inv
             (fun i st =>
                length (rs_result st) = (width self * height self * 3)%nat /\
                rs_out_offset st = (i * (width self * 3))%nat /\
                rs_offset st = (i * (1 + width self * 3))%nat)
             _ (height self) 0%nat _ st) in Hr; [tauto | |].
    - simpl. split; [apply length_replicate | lia].
    - intros i t t' Hi (Hl & Ho & Hoff).
      apply (row_step_truecolor self decompressed None); auto; lia. }
  unfold apply_transparency_key.
  destruct (_transparency self) as [[|v t]|]; try exact Hres.
  rewrite Hch. change (3 =? 3)%nat with true. cbv iota.
  rewrite key_pass_length; [exact Hres|]. rewrite Hres. lia.
Qed.

(** ** Chunks *)

Lemma byte_nat_val (b : byte) : Z.of_nat (byte_nat b) = byte_val b.
Proof.
  unfold byte_nat, byte_val. rewrite Byte.to_nat_via_N. lia.
Qed.

Lemma unpack_I_pack_I (n : nat) :
  Z.of_nat n < 4294967296 -> unpack_I (pack_I n) = Ok n.
Proof.
  intros Hn. unfold pack_I, unpack_I. f_equal.
  apply Nat2Z.inj.
  repeat (rewrite Nat2Z.inj_add || rewrite Nat2Z.inj_mul).
  rewrite !byte_nat_val, !wrap_byte_val.
  change (Z.of_nat 256) with 256. set (z := Z.of_nat n) in *.
  assert (Hz : 0 <= z) by lia. clearbody z. clear n.

  replace (z / 65536) with (z / 256 / 256)
    by (rewrite Z.div_div by lia; reflexivity).
  replace (z / 16777216) with (z / 256 / 256 / 256)
    by (rewrite !Z.div_div by lia; reflexivity).
  pose proof (Z.div_mod z 256 ltac:(lia)) as H0.
  pose proof (Z.div_mod (z / 256) 256 ltac:(lia)) as H1.
  pose proof (Z.div_mod (z / 256 / 256) 256 ltac:(lia)) as H2.
  assert (H3 : 0 <= z / 256 / 256 / 256 < 256).
  { split; [repeat apply Z.div_pos; lia|].
    repeat (apply Z.div_lt_upper_bound; [lia|]). lia. }
  rewrite (Z.mod_small (z / 256 / 256 / 256) 256) by exact H3. lia.
Qed.

Lemma unpack_I_bound (b : bytes) (n : nat) :
  unpack_I b = Ok n -> Z.of_nat n < 4294967296.
Proof.
  destruct b as [|b0 [|b1 [|b2 [|b3 [|b4 b]]]]]; simpl; try discriminate.
  intros [= <-].
  repeat (rewrite Nat2Z.inj_add || rewrite Nat2Z.inj_mul).
  rewrite !byte_nat_val.
  pose proof (byte_val_range b0). pose proof (byte_val_range b1).
  pose proof (byte_val_range b2). pose proof (byte_val_range b3). lia.
Qed.

Lemma read_chunks_S (fuel : nat) (self : PngImage) (stream : bytes) :
  read_chunks (S fuel) self stream
  = if (length (take 4 stream) =? 0)%nat then Some (self, Ok tt)
    else
      match unpack_I (take 4 stream) with
      | Raise e => Some (self, Raise e)
      | Ok len =>
          let chunk_type := take 4 (drop 4 stream) in
          let data := take len (drop 4 (drop 4 stream)) in
          let stream' := drop 4 (drop len (drop 4 (drop 4 stream))) in
          if bytes_eqb chunk_type (encode "IHDR") then
            match _parse_ihdr self data with
            | (self', Ok _) => read_chunks fuel self' stream'
            | (self', Raise e) => Some (self', Raise e)
            end
          else if bytes_eqb chunk_type (encode "IDAT") then
            read_chunks fuel (append_idat self data) stream'
          else if bytes_eqb chunk_type (encode "PLTE") then
            match _parse_palette self data with
            | (self', Ok _) => read_chunks fuel self' stream'
            | (self', Raise e) => Some (self', Raise e)
            end
          else if bytes_eqb chunk_type (encode "tRNS") then
            read_chunks fuel (set_transparency self data) stream'
          else if bytes_eqb chunk_type (encode "IEND") then
            Some (self, Ok tt)
          else read_chunks fuel self stream'
      end.
Proof. reflexivity. Qed.

Lemma take_pack_I (n : nat) (rest : bytes) :
  take 4 (pack_I n ++ rest) = pack_I n.
Proof. reflexivity. Qed.

Lemma drop_pack_I (n : nat) (rest : bytes) :
  drop 4 (pack_I n ++ rest) = rest.
Proof. reflexivity. Qed.

Lemma read_chunks_encode_chunk (fuel : nat) (self : PngImage) (c : chunk)
    (rest : bytes) :
  chunk_ok c ->
  read_chunks (S fuel) self (encode_chunk c ++ rest)
  = if bytes_eqb (chunk_type c) (encode "IHDR") then
      match _parse_ihdr self (chunk_data c) with
      | (self', Ok _) => read_chunks fuel self' rest
      | (self', Raise e) => Some (self', Raise e)
      end
    else if bytes_eqb (chunk_type c) (encode "IDAT") then
      read_chunks fuel (append_idat self (chunk_data c)) rest
    else if bytes_eqb (chunk_type c) (encode "PLTE") then
      match _parse_palette self (chunk_data c) with
      | (self', Ok _) => read_chunks fuel self' rest
      | (self', Raise e) => Some (self', Raise e)
      end
    else if bytes_eqb (chunk_type c) (encode "tRNS") then
      read_chunks fuel (set_transparency self (chunk_data c)) rest
    else if bytes_eqb (chunk_type c) (encode "IEND") then
      Some (self, Ok tt)
    else read_chunks fuel self rest.
Proof.
  intros (Hty & Hcrc & Hlen). destruct c as [ty data crc].
  cbn [chunk_type chunk_data chunk_crc] in *.
  unfold encode_chunk. cbn [chunk_type chunk_data chunk_crc].
  rewrite <- !app_assoc. rewrite read_chunks_S.
  rewrite take_pack_I, drop_pack_I, (unpack_I_pack_I _ Hlen).
  change (length (pack_I (length data)) =? 0)%nat with false.
  cbv iota zeta.
  symmetry in Hty, Hcrc.
  rewrite !(take_app_length' ty _ 4 Hty), !(drop_app_length' ty _ 4 Hty).
  rewrite !take_app_length, !drop_app_length.
  rewrite !(drop_app_length' crc rest 4 Hcrc).
  reflexivity.
Qed.

Lemma read_chunks_fuel_irrelevant (fuel1 : nat) :
  forall (fuel2 : nat) (self : PngImage) (stream : bytes),
    (length stream < fuel1)%nat -> (length stream < fuel2)%nat ->
    read_chunks fuel1 self stream = read_chunks fuel2 self stream.
Proof.
  induction fuel1 as [|fuel1 IH]; intros fuel2 self stream H1 H2; [lia|].
  destruct fuel2 as [|fuel2]; [lia|].
  rewrite !read_chunks_S.
  destruct (length (take 4 stream) =? 0)%nat; [reflexivity|].
  destruct (unpack_I (take 4 stream)) as [len|e] eqn:Hlenb; [|reflexivity].
  apply unpack_I_Ok in Hlenb. rewrite length_take in Hlenb.
  cbv zeta.
  set (stream' := drop 4 (drop len (drop 4 (drop 4 stream)))).
  assert (Hs : (length stream' < fuel1)%nat /\ (length stream' < fuel2)%nat)
    by (subst stream'; rewrite !length_drop; lia).
  destruct Hs as [Hs1 Hs2].
  repeat match goal with
         | |- context [bytes_eqb ?a ?b] => destruct (bytes_eqb a b)
         | |- context [_parse_ihdr ?s ?d] =>
             destruct (_parse_ihdr s d) as [? [[]|?]]
         | |- context [_parse_palette ?s ?d] =>
             destruct (_parse_palette s d) as [? [[]|?]]
         end; try reflexivity; apply IH; assumption.
Qed.

Lemma encode_chunk_length (c : chunk) :
  (4 <= length (encode_chunk c))%nat.
Proof. unfold encode_chunk. rewrite length_app. simpl. lia. Qed.

Lemma read_chunks_parse_chunks (cs : list chunk) :
  Forall chunk_ok cs ->
  forall (fuel : nat) (self : PngImage),
    (length (encode_chunks cs) < fuel)%nat ->
    read_chunks fuel self (encode_chunks cs) = Some (parse_chunks self cs).
Proof.
  induction 1 as [|c cs Hc Hcs IH]; intros fuel self Hfuel.
  - destruct fuel as [|fuel]; [simpl in Hfuel; lia|]. reflexivity.
  - destruct fuel as [|fuel]; [lia|].
    unfold encode_chunks in *. cbn [map concat] in *.
    rewrite length_app in Hfuel. pose proof (encode_chunk_length c).
    rewrite (read_chunks_encode_chunk _ _ _ _ Hc). cbn [parse_chunks].
    repeat match goal with
           | |- context [bytes_eqb ?a ?b] => destruct (bytes_eqb a b)
           | |- context [_parse_ihdr ?s ?d] =>
               destruct (_parse_ihdr s d) as [? [[]|?]]
           | |- context [_parse_palette ?s ?d] =>
               destruct (_parse_palette s d) as [? [[]|?]]
           end; try reflexivity; apply IH; lia.
Qed.

(** X5. On a file made of the signature and well-formed chunks, [load]
    is a fold over the chunks in file order: header, palette and
    transparency chunks set the object, data chunks are appended, other
    types are skipped, the fold stops at the end chunk or at the first
    chunk that raises, and the final checks run on the object the fold
    leaves. *)
Theorem load_parses_chunks (self : PngImage) (cs : list chunk) :
  Forall chunk_ok cs ->
  load self (PNG_SIGNATURE ++ encode_chunks cs)
  = Some (match parse_chunks self cs with
          | (self', Ok _) => (self', check_loaded self')
          | (self', Raise e) => (self', Raise e)
          end).
Proof.
  intros Hcs. rewrite load_after_signature.
  rewrite (read_chunks_parse_chunks cs Hcs) by lia.
  destruct (parse_chunks self cs) as [self' [[]|e]]; reflexivity.
Qed.

Lemma bytes_eqb_neq (a b : bytes) : a <> b -> bytes_eqb a b = false.
Proof.
  intros H. destruct (bytes_eqb a b) eqn:E; [|reflexivity].
  apply bytes_eqb_eq in E. contradiction.
Qed.

(** Past the chunks: the loop goes on with the rest of the stream when
    the fold reaches the end of the chunks, and never reads the rest when
    the fold stops. *)
Lemma read_chunks_app (cs : list chunk) :
  Forall chunk_ok cs ->
  forall (fuel : nat) (self : PngImage) (rest : bytes),
    (length (encode_chunks cs ++ rest) < fuel)%nat ->
    read_chunks fuel self (encode_chunks cs ++ rest)
    = if parse_stops self cs then Some (parse_chunks self cs)
      else read_chunks fuel (fst (parse_chunks self cs)) rest.
Proof.
  induction 1 as [|c cs Hc Hcs IH]; intros fuel self rest Hfuel.
  - reflexivity.
  - destruct fuel as [|fuel]; [lia|].
    unfold encode_chunks in *. cbn [map concat] in *.
    rewrite <- app_assoc. rewrite <- app_assoc, !length_app in Hfuel.
    pose proof (encode_chunk_length c).
    rewrite (read_chunks_encode_chunk _ _ _ _ Hc).
    cbn [parse_chunks parse_stops].
    assert (Hnext : forall s,
               read_chunks fuel s (concat (map encode_chunk cs) ++ rest)
               = if parse_stops s cs then Some (parse_chunks s cs)
                 else read_chunks (S fuel) (fst (parse_chunks s cs)) rest).
    { intros s. rewrite IH by (rewrite length_app; lia).
      destruct (parse_stops s cs); [reflexivity|].
      apply read_chunks_fuel_irrelevant; lia. }
    repeat match goal with
           | |- context [bytes_eqb ?a ?b] => destruct (bytes_eqb a b)
           | |- context [_parse_ihdr ?s ?d] =>
               destruct (_parse_ihdr s d) as [? [[]|?]]
           | |- context [_parse_palette ?s ?d] =>
               destruct (_parse_palette s d) as [? [[]|?]]
           end; try reflexivity; apply Hnext.
Qed.

Lemma load_eq_of_read_chunks (self : PngImage) (s1 s2 : bytes) :
  read_chunks (S (length s1)) self s1 = read_chunks (S (length s2)) self s2 ->
  load self (PNG_SIGNATURE ++ s1) = load self (PNG_SIGNATURE ++ s2).
Proof. intros H. rewrite !load_after_signature, H. reflexivity. Qed.

(** X9. Once the chunk loop has stopped, at the end chunk or at a chunk
    that raises, the rest of the file is never read: arbitrary bytes
    appended to the file do not change the result of [load]. *)
Theorem load_ignores_bytes_after_stop
    (self : PngImage) (cs : list chunk) (garbage : bytes) :
  Forall chunk_ok cs -> parse_stops self cs = true ->
  load self (PNG_SIGNATURE ++ encode_chunks cs ++ garbage)
  = load self (PNG_SIGNATURE ++ encode_chunks cs).
Proof.
  intros Hcs Hstop. apply load_eq_of_read_chunks.
  rewrite (read_chunks_app cs Hcs) by lia. rewrite Hstop.
  symmetry. apply (read_chunks_parse_chunks cs Hcs). lia.
Qed.

Lemma parse_chunks_zero_crc (cs : list chunk) :
  forall self, parse_chunks self (map zero_crc cs) = parse_chunks self cs.
Proof.
  induction cs as [|c cs IH]; intros self; [reflexivity|].
  cbn [map parse_chunks zero_crc chunk_type chunk_data].
  repeat match goal with
         | |- context [bytes_eqb ?a ?b] => destruct (bytes_eqb a b)
         | |- context [_parse_ihdr ?s ?d] =>
             destruct (_parse_ihdr s d) as [? [[]|?]]
         | |- context [_parse_palette ?s ?d] =>
             destruct (_parse_palette s d) as [? [[]|?]]
         end; try reflexivity; apply IH.
Qed.

Lemma chunk_ok_zero_crc (c : chunk) : chunk_ok c -> chunk_ok (zero_crc c).
Proof. intros (H1 & H2 & H3). repeat split; assumption. Qed.

Lemma load_eq_of_parse_chunks (self : PngImage) (cs1 cs2 : list chunk) :
  Forall chunk_ok cs1 -> Forall chunk_ok cs2 ->
  parse_chunks self cs1 = parse_chunks self cs2 ->
  load self (PNG_SIGNATURE ++ encode_chunks cs1)
  = load self (PNG_SIGNATURE ++ encode_chunks cs2).
Proof.
  intros H1 H2 Heq. apply load_eq_of_read_chunks.
  rewrite (read_chunks_parse_chunks cs1 H1), (read_chunks_parse_chunks cs2 H2)
    by lia.
  rewrite Heq. reflexivity.
Qed.

(** X6. The CRC fields are not looked at: two files of well-formed
    chunks that differ only in the CRC bytes load to the same result. *)
Theorem load_ignores_crc (self : PngImage) (cs1 cs2 : list chunk) :
  Forall chunk_ok cs1 -> Forall chunk_ok cs2 ->
  map zero_crc cs1 = map zero_crc cs2 ->
  load self (PNG_SIGNATURE ++ encode_chunks cs1)
  = load self (PNG_SIGNATURE ++ encode_chunks cs2).
Proof.
  intros H1 H2 Heq. apply load_eq_of_parse_chunks; [exact H1 | exact H2 |].
  rewrite <- (parse_chunks_zero_crc cs1), <- (parse_chunks_zero_crc cs2), Heq.
  reflexivity.
Qed.

Lemma parse_chunks_skip (pre : list chunk) (c : chunk) (post : list chunk) :
  unknown_type (chunk_type c) ->
  forall self,
    parse_chunks self (pre ++ c :: post) = parse_chunks self (pre ++ post).
Proof.
  intros (H1 & H2 & H3 & H4 & H5).
  induction pre as [|p pre IH]; intros self.
  - cbn [app parse_chunks]. rewrite !bytes_eqb_neq by assumption. reflexivity.
  - cbn [app parse_chunks].
    repeat match goal with
           | |- context [bytes_eqb ?a ?b] => destruct (bytes_eqb a b)
           | |- context [_parse_ihdr ?s ?d] =>
               destruct (_parse_ihdr s d) as [? [[]|?]]
           | |- context [_parse_palette ?s ?d] =>
               destruct (_parse_palette s d) as [? [[]|?]]
           end; try reflexivity; apply IH.
Qed.

(** X7. A well-formed chunk of a type other than IHDR, IDAT, PLTE, tRNS
    and IEND, anywhere in the file, does not change the result of
    [load]. *)
Theorem load_skips_unknown_chunk
    (self : PngImage) (pre : list chunk) (c : chunk) (post : list chunk) :
  Forall chunk_ok pre -> chunk_ok c -> Forall chunk_ok post ->
  unknown_type (chunk_type c) ->
  load self (PNG_SIGNATURE ++ encode_chunks (pre ++ c :: post))
  = load self (PNG_SIGNATURE ++ encode_chunks (pre ++ post)).
Proof.
  intros Hpre Hc Hpost Hu. apply load_eq_of_parse_chunks.
  - apply Forall_app. split; [assumption|]. constructor; assumption.
  - apply Forall_app. split; assumption.
  - apply (parse_chunks_skip pre c post Hu).
Qed.

Lemma parse_chunks_iend (pre : list chunk) (c : chunk) (post : list chunk) :
  chunk_type c = encode "IEND" ->
  forall self,
    parse_chunks self (pre ++ c :: post) = parse_chunks self pre.
Proof.
  intros Hty.
  induction pre as [|p pre IH]; intros self.
  - cbn [app parse_chunks]. rewrite Hty. reflexivity.
  - cbn [app parse_chunks].
    repeat match goal with
           | |- context [bytes_eqb ?a ?b] => destruct (bytes_eqb a b)
           | |- context [_parse_ihdr ?s ?d] =>
               destruct (_parse_ihdr s d) as [? [[]|?]]
           | |- context [_parse_palette ?s ?d] =>
               destruct (_parse_palette s d) as [? [[]|?]]
           end; try reflexivity; apply IH.
Qed.

(** X8. The end chunk ends the parse exactly as the end of the file
    does: the chunks after it are ignored, and a file without an end
    chunk loads like the same file with one. *)
Theorem load_stops_at_iend
    (self : PngImage) (pre : list chunk) (c : chunk) (post : list chunk) :
  Forall chunk_ok pre -> chunk_ok c -> Forall chunk_ok post ->
  chunk_type c = encode "IEND" ->
  load self (PNG_SIGNATURE ++ encode_chunks (pre ++ c :: post))
  = load self (PNG_SIGNATURE ++ encode_chunks pre).
Proof.
  intros Hpre Hc Hpost Hty. apply load_eq_of_parse_chunks.
  - apply Forall_app. split; [assumption|]. constructor; assumption.
  - assumption.
  - apply (parse_chunks_iend pre c post Hty).
Qed.

Lemma triples_length (data : bytes) :
  length (triples data) = (length data / 3)%nat.
Proof.
  assert (H : forall n (d : bytes), (length d < n)%nat ->
             length (triples d) = (length d / 3)%nat).
  { induction n as [|n IH]; intros d Hd; [lia|].
    destruct d as [|r [|g [|b d]]]; try reflexivity.
    cbn [triples length]. rewrite IH by (simpl in Hd; lia).
    change (S (S (S (length d)))) with (3 + length d)%nat.
    replace (3 + length d)%nat with (1 * 3 + length d)%nat by lia.
    rewrite Nat.div_add_l by lia. lia. }
  apply (H (S (length data))). lia.
Qed.

Lemma flatten_triples (data : bytes) :
  (length data mod 3 = 0)%nat -> flatten_palette (triples data) = data.
Proof.
  assert (H : forall n (d : bytes), (length d < n)%nat ->
             (length d mod 3 = 0)%nat -> flatten_palette (triples d) = d).
  { induction n as [|n IH]; intros d Hd Hm; [lia|].
    destruct d as [|r [|g [|b d]]]; try reflexivity;
      try (simpl in Hm; discriminate).
    cbn [triples]. unfold flatten_palette. cbn [map concat app].
    do 3 f_equal. apply IH; [simpl in Hd; lia|].
    change (length (r :: g :: b :: d)) with (3 + length d)%nat in Hm.
    replace (3 + length d)%nat with (length d + 1 * 3)%nat in Hm by lia.
    rewrite Nat.Div0.mod_add in Hm. exact Hm. }
  apply (H (S (length data))). lia.
Qed.

(** X14. [_parse_palette] rejects a payload whose length is not a
    multiple of 3 as malformed, rejects 0 entries or more than 256 with
    the palette size error, and leaves the object untouched in both
    cases; otherwise it stores one triple per three bytes, and the
    triples written out in order are the payload. *)
Theorem parse_palette_outcomes (self : PngImage) (data : bytes) :
  let n := (length data / 3)%nat in
  ((length data mod 3 <> 0)%nat /\
   _parse_palette self data = (self, Raise (SystemExit MalformedPLTE))) \/
  ((length data mod 3 = 0)%nat /\ (n = 0 \/ 256 < n)%nat /\
   _parse_palette self data = (self, Raise (SystemExit (InvalidPaletteSize n)))) \/
  ((length data mod 3 = 0)%nat /\ (1 <= n <= 256)%nat /\
   _parse_palette self data = (set_palette self (triples data), Ok tt) /\
   length (triples data) = n /\
   flatten_palette (triples data) = data).
Proof.
  cbv zeta. unfold _parse_palette.
  destruct (Nat.eqb_spec (length data mod 3) 0) as [Hm|Hm]; cbn [negb].
  2:{ left. auto. }
  right.
  destruct (Nat.eqb_spec (length data / 3) 0) as [E0|N0]; cbn [orb].
  { left. rewrite E0. auto. }
  destruct (Nat.ltb_spec 256 (length data / 3)) as [Hbig|Hsmall].
  { left. auto. }
  right. repeat split; try lia.
  - apply triples_length.
  - apply flatten_triples. exact Hm.
Qed.

Lemma _parse_ihdr_inv (self self' : PngImage) (data : bytes) :
  header_inv self -> _parse_ihdr self data = (self', Ok tt) ->
  header_inv self'.
Proof.
  intros (_ & _ & _ & _ & Hp). unfold _parse_ihdr.
  destruct data as [|w0 [|w1 [|w2 [|w3 [|h0 [|h1 [|h2 [|h3 [|bd [|ct [|cm
                   [|fm [|il [|? ?]]]]]]]]]]]]]]; try discriminate.
  cbn [unpack_IIBBBBB]. 
  destruct (unpack_I [w0; w1; w2; w3]) as [w|e] eqn:Hw; [|discriminate].
  destruct (unpack_I [h0; h1; h2; h3]) as [h|e] eqn:Hh; [|discriminate].
  cbn [bind].
  destruct (Nat.eqb_spec (byte_nat cm) 0) as [Ecm|Ncm]; [|discriminate].
  destruct (Nat.eqb_spec (byte_nat fm) 0) as [Efm|Nfm]; [|discriminate].
  cbn [negb orb]. intros [= <-].
  unfold header_inv. cbn [compression filter_method width height _palette].
  apply unpack_I_bound in Hw, Hh. auto.
Qed.

Lemma _parse_palette_inv (self self' : PngImage) (data : bytes) :
  header_inv self -> _parse_palette self data = (self', Ok tt) ->
  header_inv self'.
Proof.
  intros (H1 & H2 & H3 & H4 & _). unfold _parse_palette.
  destruct (negb _); [discriminate|].
  destruct (Nat.eqb_spec (length data / 3) 0) as [E0|N0]; [discriminate|].
  destruct (Nat.ltb_spec 256 (length data / 3)) as [Hbig|Hsmall];
    [discriminate|].
  cbn [orb]. intros [= <-]. unfold header_inv, set_palette.
  cbn [compression filter_method width height _palette].
  rewrite triples_length. repeat split; auto; lia.
Qed.

Lemma read_chunks_inv (fuel : nat) :
  forall (self : PngImage) (stream : bytes) (self' : PngImage),
    header_inv self ->
    read_chunks fuel self stream = Some (self', Ok tt) ->
    header_inv self'.
Proof.
  induction fuel as [|fuel IH]; intros self stream self' Hinv; [discriminate|].
  rewrite read_chunks_S.
  destruct (length (take 4 stream) =? 0)%nat; [intros [= <-]; exact Hinv|].
  destruct (unpack_I (take 4 stream)) as [len|e]; [|discriminate].
  cbv zeta.
  destruct (bytes_eqb _ (encode "IHDR")).
  { destruct (_parse_ihdr self _) as [self1 [[]|e]] eqn:Hp; [|discriminate].
    apply IH. eapply _parse_ihdr_inv; eassumption. }
  destruct (bytes_eqb _ (encode "IDAT")); [apply IH; exact Hinv|].
  destruct (bytes_eqb _ (encode "PLTE")).
  { destruct (_parse_palette self _) as [self1 [[]|e]] eqn:Hp; [|discriminate].
    apply IH. eapply _parse_palette_inv; eassumption. }
  destruct (bytes_eqb _ (encode "tRNS")); [apply IH; exact Hinv|].
  destruct (bytes_eqb _ (encode "IEND")); [intros [= <-]; exact Hinv|].
  apply IH. exact Hinv.
Qed.

(** X11. After a successful [load] into a fresh object the object
    describes a supported image: bit depth 8, no interlacing, compression
    and filter method 0, colour type 2, 3 or 6, at least one data chunk,
    width and height below 2^32, and for colour type 3 a palette of 1 to
    256 entries. *)
Theorem loaded_image_is_supported (stream : bytes) (self : PngImage) :
  load PngImage_init stream = Some (self, Ok tt) ->
  bit_depth self = 8%nat /\ interlace self = 0%nat /\
  compression self = 0%nat /\ filter_method self = 0%nat /\
  (color_type self = 2 \/ color_type self = 3 \/ color_type self = 6)%nat /\
  _idat_chunks self <> [] /\
  Z.of_nat (width self) < 4294967296 /\
  Z.of_nat (height self) < 4294967296 /\
  (color_type self = 3%nat ->
   exists p, _palette self = Some p /\ (1 <= length p <= 256)%nat).
Proof.
  unfold load. cbn [read]. destruct (negb _); [discriminate|].
  destruct (read_chunks _ _ _) as [[self1 [[]|e]]|] eqn:Hr; try discriminate.
  intros [= <- Hc].
  apply read_chunks_inv in Hr;
    [|repeat split; simpl; try reflexivity; lia].
  destruct Hr as (H1 & H2 & H3 & H4 & Hp).
  revert Hc. unfold check_loaded.
  destruct (_idat_chunks self1) as [|d ds] eqn:Hid; [discriminate|].
  destruct (Nat.eqb_spec (bit_depth self1) 8) as [Hbd|]; [|discriminate].
  destruct (Nat.eqb_spec (interlace self1) 0) as [Hil|]; [|discriminate].
  cbn [negb].
  destruct (Nat.eqb_spec (color_type self1) 2) as [E2|N2];
    destruct (Nat.eqb_spec (color_type self1) 3) as [E3|N3];
    destruct (Nat.eqb_spec (color_type self1) 6) as [E6|N6];
    cbn [negb orb andb]; try discriminate; try lia;
    intros Hc; repeat split; auto; try discriminate; try lia.
  intros _. destruct (_palette self1) as [[|p0 p]|]; try discriminate.
  exists (p0 :: p). split; [reflexivity | exact Hp].
Qed.

Lemma parse_chunks_app (cs1 cs2 : list chunk) :
  forall self,
    parse_stops self cs1 = false ->
    parse_chunks self (cs1 ++ cs2)
    = parse_chunks (fst (parse_chunks self cs1)) cs2.
Proof.
  induction cs1 as [|c cs1 IH]; intros self; [reflexivity|].
  cbn [app parse_chunks parse_stops].
  repeat match goal with
         | |- context [bytes_eqb ?a ?b] => destruct (bytes_eqb a b)
         | |- context [_parse_ihdr ?s ?d] =>
             destruct (_parse_ihdr s d) as [? [[]|?]]
         | |- context [_parse_palette ?s ?d] =>
             destruct (_parse_palette s d) as [? [[]|?]]
         end; try discriminate; apply IH.
Qed.

(** X12. A file that ends one to three bytes into the length field of
    a chunk fails with [struct.error], an exception outside the error
    kinds, and the object keeps what the chunks before it stored. *)
Theorem load_truncated_length_field
    (self : PngImage) (cs : list chunk) (tail : bytes) :
  Forall chunk_ok cs -> parse_stops self cs = false ->
  (1 <= length tail <= 3)%nat ->
  load self (PNG_SIGNATURE ++ encode_chunks cs ++ tail)
  = Some (fst (parse_chunks self cs), Raise StructError) /\
  classify StructError = None.
Proof.
  intros Hcs Hstop Htail. split; [|reflexivity].
  rewrite load_after_signature.
  rewrite (read_chunks_app cs Hcs) by lia. rewrite Hstop.
  rewrite read_chunks_S.
  destruct tail as [|t0 [|t1 [|t2 [|t3 tail]]]]; simpl in Htail; try lia;
    reflexivity.
Qed.

(** X13. A data chunk cut short by the end of the file is not
    detected: the file loads exactly like the file in which the chunk is
    complete and holds the bytes that are present. *)
Theorem load_accepts_truncated_data
    (self : PngImage) (cs : list chunk) (n : nat) (partial : bytes) :
  Forall chunk_ok cs -> parse_stops self cs = false ->
  (length partial <= n)%nat -> Z.of_nat n < 4294967296 ->
  load self (PNG_SIGNATURE ++ encode_chunks cs
             ++ pack_I n ++ encode "IDAT" ++ partial)
  = load self (PNG_SIGNATURE
               ++ encode_chunks
                    (cs ++ [ {| chunk_type := encode "IDAT";
                                chunk_data := partial;
                                chunk_crc := [x00; x00; x00; x00] |} ])).
Proof.
  intros Hcs Hstop Hlen Hn.
  set (c := {| chunk_type := encode "IDAT"; chunk_data := partial;
               chunk_crc := [x00; x00; x00; x00] |}).
  assert (Hc : chunk_ok c) by (repeat split; simpl; lia).
  rewrite !load_after_signature.
  assert (Hall : Forall chunk_ok (cs ++ [c]))
    by (apply Forall_app; split;
        [exact Hcs | apply Forall_cons_2; [exact Hc | apply Forall_nil_2]]).
  rewrite (read_chunks_parse_chunks (cs ++ [c]) Hall) by lia.
  rewrite (parse_chunks_app cs [c] self Hstop).
  rewrite (read_chunks_app cs Hcs) by lia. rewrite Hstop.
  set (self1 := fst (parse_chunks self cs)).
  rewrite read_chunks_S.
  rewrite take_pack_I, drop_pack_I, (unpack_I_pack_I _ Hn).
  change (length (pack_I n) =? 0)%nat with false. cbv iota zeta.
  rewrite !(take_app_length' (encode "IDAT") partial 4 eq_refl).
  rewrite !(drop_app_length' (encode "IDAT") partial 4 eq_refl).
  rewrite (take_ge partial n Hlen), (drop_ge partial n Hlen).
  change (bytes_eqb (encode "IDAT") (encode "IHDR")) with false.
  change (bytes_eqb (encode "IDAT") (encode "IDAT")) with true.
  cbv iota.
  rewrite (read_chunks_fuel_irrelevant _ 1 (append_idat self1 partial)
             (drop 4 []))
    by (simpl; rewrite ?length_app; simpl; lia).
  reflexivity.
Qed.

(** X15. The chunk loop terminates on every stream: every iteration
    that goes on consumes at least four bytes, so fuel above the length
    of the stream yields a result, the same for every such fuel. *)
Theorem chunk_loop_terminates (self : PngImage) (stream : bytes) (fuel : nat) :
  (length stream < fuel)%nat ->
  exists r,
    read_chunks fuel self stream = Some r /\
    read_chunks (S (length stream)) self stream = Some r.
Proof.
  intros H. destruct (read_chunks_fuel fuel self stream H) as [r Hr].
  exists r. split; [exact Hr|]. rewrite <- Hr.
  apply read_chunks_fuel_irrelevant; lia.
Qed.

Lemma chunk_loop_terminates_witness :
  exists r,
    read_chunks 1000 PngImage_init (encode_chunks [ihdr_2x1_rgb; iend_chunk])
    = Some r /\
    read_chunks (S (length (encode_chunks [ihdr_2x1_rgb; iend_chunk])))
      PngImage_init (encode_chunks [ihdr_2x1_rgb; iend_chunk])
    = Some r.
Proof.
  apply (chunk_loop_terminates PngImage_init
           (encode_chunks [ihdr_2x1_rgb; iend_chunk]) 1000).
  vm_compute. lia.
Defined.

Ltac chunks_ok :=
  repeat (apply Forall_cons_2; [repeat split; vm_compute; reflexivity|]);
  try apply Forall_nil_2.

Lemma load_parses_chunks_witness :
  load PngImage_init
    (PNG_SIGNATURE ++ encode_chunks [ihdr_2x1_rgb; idat_keyed_row; iend_chunk])
  = Some (match parse_chunks PngImage_init
                  [ihdr_2x1_rgb; idat_keyed_row; iend_chunk] with
          | (self', Ok _) => (self', check_loaded self')
          | (self', Raise e) => (self', Raise e)
          end).
Proof.
  apply (load_parses_chunks PngImage_init
           [ihdr_2x1_rgb; idat_keyed_row; iend_chunk]).
  chunks_ok.
Defined.

Lemma load_ignores_bytes_after_stop_witness :
  load PngImage_init
    (PNG_SIGNATURE ++ encode_chunks [ihdr_2x1_rgb; idat_keyed_row; iend_chunk]
     ++ [x01; x02; x03])
  = load PngImage_init
      (PNG_SIGNATURE
       ++ encode_chunks [ihdr_2x1_rgb; idat_keyed_row; iend_chunk]).
Proof.
  apply (load_ignores_bytes_after_stop PngImage_init
           [ihdr_2x1_rgb; idat_keyed_row; iend_chunk] [x01; x02; x03]).
  - chunks_ok.
  - vm_compute. reflexivity.
Defined.

Lemma load_ignores_crc_witness :
  load PngImage_init
    (PNG_SIGNATURE ++ encode_chunks [ihdr_2x1_rgb; idat_keyed_row; iend_chunk])
  = load PngImage_init
      (PNG_SIGNATURE
       ++ encode_chunks
            [ihdr_2x1_rgb; idat_keyed_row; zero_crc iend_chunk]).
Proof.
  apply (load_ignores_crc PngImage_init
           [ihdr_2x1_rgb; idat_keyed_row; iend_chunk]
           [ihdr_2x1_rgb; idat_keyed_row; zero_crc iend_chunk]).
  - chunks_ok.
  - chunks_ok.
  - reflexivity.
Defined.

Lemma load_skips_unknown_chunk_witness :
  load PngImage_init
    (PNG_SIGNATURE
     ++ encode_chunks ([ihdr_2x1_rgb] ++ text_chunk
                       :: [idat_keyed_row; iend_chunk]))
  = load PngImage_init
      (PNG_SIGNATURE
       ++ encode_chunks ([ihdr_2x1_rgb] ++ [idat_keyed_row; iend_chunk])).
Proof.
  apply (load_skips_unknown_chunk PngImage_init [ihdr_2x1_rgb] text_chunk
           [idat_keyed_row; iend_chunk]).
  - chunks_ok.
  - repeat split; vm_compute; reflexivity.
  - chunks_ok.
  - repeat split; discriminate.
Defined.

Lemma load_stops_at_iend_witness :
  load PngImage_init
    (PNG_SIGNATURE
     ++ encode_chunks ([ihdr_2x1_rgb; idat_keyed_row] ++ iend_chunk
                       :: [idat_keyed_row]))
  = load PngImage_init
      (PNG_SIGNATURE ++ encode_chunks [ihdr_2x1_rgb; idat_keyed_row]).
Proof.
  apply (load_stops_at_iend PngImage_init [ihdr_2x1_rgb; idat_keyed_row]
           iend_chunk [idat_keyed_row]).
  - chunks_ok.
  - repeat split; vm_compute; reflexivity.
  - chunks_ok.
  - reflexivity.
Defined.

Lemma loaded_image_is_supported_witness :
  bit_depth png_short_row_loaded = 8%nat /\
  interlace png_short_row_loaded = 0%nat /\
  compression png_short_row_loaded = 0%nat /\
  filter_method png_short_row_loaded = 0%nat /\
  (color_type png_short_row_loaded = 2 \/
   color_type png_short_row_loaded = 3 \/
   color_type png_short_row_loaded = 6)%nat /\
  _idat_chunks png_short_row_loaded <> [] /\
  Z.of_nat (width png_short_row_loaded) < 4294967296 /\
  Z.of_nat (height png_short_row_loaded) < 4294967296 /\
  (color_type png_short_row_loaded = 3%nat ->
   exists p, _palette png_short_row_loaded = Some p /\
             (1 <= length p <= 256)%nat).
Proof.
  apply (loaded_image_is_supported png_short_row png_short_row_loaded).
  vm_compute. reflexivity.
Defined.

Lemma load_truncated_length_field_witness :
  load PngImage_init
    (PNG_SIGNATURE ++ encode_chunks [ihdr_2x1_rgb; idat_keyed_row]
     ++ [x00; x00])
  = Some (fst (parse_chunks PngImage_init [ihdr_2x1_rgb; idat_keyed_row]),
          Raise StructError) /\
  classify StructError = None.
Proof.
  apply (load_truncated_length_field PngImage_init
           [ihdr_2x1_rgb; idat_keyed_row] [x00; x00]).
  - chunks_ok.
  - vm_compute. reflexivity.
  - simpl. lia.
Defined.

Lemma load_accepts_truncated_data_witness :
  load PngImage_init
    (PNG_SIGNATURE ++ encode_chunks [ihdr_2x1_rgb]
     ++ pack_I 18 ++ encode "IDAT" ++ [x78; x01; x01])
  = load PngImage_init
      (PNG_SIGNATURE
       ++ encode_chunks
            ([ihdr_2x1_rgb]
             ++ [ {| chunk_type := encode "IDAT";
                     chunk_data := [x78; x01; x01];
                     chunk_crc := [x00; x00; x00; x00] |} ])).
Proof.
  apply (load_accepts_truncated_data PngImage_init [ihdr_2x1_rgb] 18
           [x78; x01; x01]).
  - chunks_ok.
  - vm_compute. reflexivity.
  - simpl. lia.
  - vm_compute. reflexivity.
Defined.

Lemma to_rgb_length_blended_witness :
  length [xe3; x7f; xff]
  = (width png_rgba_loaded * height png_rgba_loaded * 3)%nat.
Proof.
  apply (to_rgb_length_blended inflate_stored png_rgba_loaded [xe3; x7f; xff]).
  - discriminate.
  - vm_compute. reflexivity.
Defined.

Lemma to_rgb_length_truecolor_witness :
  length [xff; xff; xff; x04; x05; x06]
  = (width png_keyed_loaded * height png_keyed_loaded * 3)%nat.
Proof.
  apply (to_rgb_length_truecolor inflate_stored png_keyed_loaded
           [x00; x01; x02; x03; x04; x05; x06]
           [xff; xff; xff; x04; x05; x06]).
  - reflexivity.
  - vm_compute. reflexivity.
  - simpl. lia.
  - vm_compute. reflexivity.
Defined.

(** ** The decoded image *)

Lemma put_pixel_over_white (result : bytes) (out_offset : nat)
    (r g b a : byte) :
  (out_offset + 3 <= length result)%nat ->
  put_pixel result out_offset r g b a
  = Ok (take out_offset result ++ over_white r g b a
          ++ drop (out_offset + 3) result).
Proof.
  intros Hlen.
  destruct (put_pixel_spec result out_offset r g b a Hlen)
    as (r' & g' & b' & -> & Hcases).
  unfold slice_assign, over_white. do 3 f_equal.
  destruct Hcases as [(Ha & -> & -> & ->)|[(Ha & -> & -> & ->)|(Ha & Hr & Hg & Hb)]].
  - rewrite Ha. reflexivity.
  - rewrite Ha. reflexivity.
  - destruct (Z.eqb_spec (byte_val a) 255); [lia|].
    destruct (Z.eqb_spec (byte_val a) 0); [lia|].
    assert (Hw : forall x c, byte_val x = blend (byte_val c) (byte_val a) ->
                 x = wrap_byte (blend (byte_val c) (byte_val a))).
    { intros x c Hx. apply byte_val_inj. rewrite wrap_byte_val, Hx.
      symmetry. apply Z.mod_small.
      pose proof (blend_range (byte_val c) (byte_val a) (byte_val_range c)
                    ltac:(lia)). lia. }
    rewrite (Hw r' r Hr), (Hw g' g Hg), (Hw b' b Hb). reflexivity.
Qed.

Lemma over_white_length (r g b a : byte) : length (over_white r g b a) = 3%nat.
Proof.
  unfold over_white.
  destruct (byte_val a =? 255); [reflexivity|].
  destruct (byte_val a =? 0); reflexivity.
Qed.

Lemma rgba_row_length (count : nat) :
  forall (row out : bytes),
    rgba_row count row = Ok out -> length out = (count * 3)%nat.
Proof.
  induction count as [|count IH]; intros row out; cbn [rgba_row].
  - intros [= <-]. reflexivity.
  - destruct row as [|r [|g [|b [|a row]]]]; try discriminate.
    destruct (rgba_row count row) as [rest|e] eqn:Hr; [|discriminate].
    cbn [bind]. intros [= <-].
    rewrite length_app, over_white_length, (IH _ _ Hr). lia.
Qed.

(** The pixel loop of the alpha format, from pixel [px] on. *)
Lemma rgba_loop (count : nat) :
  forall (row_data result : bytes) (px out_offset : nat),
    (out_offset + count * 3 <= length result)%nat ->
    for_range px count (rgba_pixel row_data) (result, out_offset)
    = match rgba_row count (drop (px * 4) row_data) with
      | Ok o =>
          Ok (take out_offset result ++ o
                ++ drop (out_offset + count * 3) result,
              (out_offset + count * 3)%nat)
      | Raise e => Raise e
      end.
Proof.
  induction count as [|count IH]; intros row_data result px out_offset Hlen.
  - cbn [for_range rgba_row]. rewrite Nat.add_0_r. cbn [app].
    by rewrite take_drop.
  - cbn [for_range rgba_row]. unfold rgba_pixel at 1.
    unfold slice. replace (px * 4 + 4 - px * 4)%nat with 4%nat by lia.
    destruct (drop (px * 4) row_data) as [|r [|g [|b [|a tail]]]] eqn:Hd;
      try reflexivity.
    cbn [take]. rewrite take_0, put_pixel_over_white by lia. cbn [bind].
    rewrite IH.
    2:{ rewrite !length_app, length_take, length_drop, over_white_length. lia. }
    replace (drop (S px * 4) row_data) with tail.
    2:{ replace (S px * 4)%nat with (px * 4 + 4)%nat by lia.
        rewrite <- drop_drop, Hd. reflexivity. }
    destruct (rgba_row count tail) as [o|e]; [|reflexivity].
    cbn [bind]. f_equal. f_equal; [|lia].
    assert (Ht : length (take out_offset result) = out_offset)
      by (rewrite length_take; lia).
    rewrite take_app_ge by lia. rewrite Ht.
    replace (out_offset + 3 - out_offset)%nat with 3%nat by lia.
    rewrite take_app_ge by (rewrite over_white_length; lia).
    rewrite over_white_length. cbn [take Nat.sub].
    rewrite app_nil_r.
    rewrite drop_app_ge by lia. rewrite Ht.
    rewrite drop_app_ge by (rewrite over_white_length; lia).
    rewrite over_white_length, drop_drop.
    rewrite <- !app_assoc. do 3 f_equal. f_equal. lia.
Qed.

Lemma lookup_drop_head (l : bytes) (k : nat) :
  match drop k l with
  | [] => l !! k = None
  | x :: tail => l !! k = Some x /\ drop (S k) l = tail
  end.
Proof.
  destruct (drop k l) as [|x tail] eqn:Hd.
  - apply lookup_ge_None_2.
    apply (f_equal length) in Hd. rewrite length_drop in Hd. simpl in Hd. lia.
  - split.
    + rewrite <- (Nat.add_0_r k), <- lookup_drop, Hd. reflexivity.
    + replace (S k) with (k + 1)%nat by lia. rewrite <- drop_drop, Hd.
      reflexivity.
Qed.

(** The pixel loop of the indexed format, from pixel [px] on. *)
Lemma indexed_loop (palette : list (byte * byte * byte))
    (alpha_table : list byte) (count : nat) :
  forall (row_data result : bytes) (px out_offset : nat),
    (out_offset + count * 3 <= length result)%nat ->
    for_range px count (indexed_pixel palette alpha_table row_data)
      (result, out_offset)
    = match indexed_row palette alpha_table count (drop px row_data) with
      | Ok o =>
          Ok (take out_offset result ++ o
                ++ drop (out_offset + count * 3) result,
              (out_offset + count * 3)%nat)
      | Raise e => Raise e
      end.
Proof.
  induction count as [|count IH]; intros row_data result px out_offset Hlen.
  - cbn [for_range indexed_row]. rewrite Nat.add_0_r. cbn [app].
    by rewrite take_drop.
  - cbn [for_range indexed_row]. unfold indexed_pixel at 1. unfold getitem at 1.
    pose proof (lookup_drop_head row_data px) as Hh.
    destruct (drop px row_data) as [|index tail].
    { rewrite Hh. reflexivity. }
    destruct Hh as [-> Htail]. cbn [bind].
    destruct (palette !! byte_nat index) as [[[r g] b]|]; [|reflexivity].
    unfold getitem.
    destruct (alpha_table !! byte_nat index) as [a|]; [|reflexivity].
    cbn [bind]. rewrite put_pixel_over_white by lia. cbn [bind].
    rewrite IH.
    2:{ rewrite !length_app, length_take, length_drop, over_white_length. lia. }
    rewrite Htail.
    destruct (indexed_row palette alpha_table count tail) as [o|e];
      [|reflexivity].
    cbn [bind]. f_equal. f_equal; [|lia].
    assert (Ht : length (take out_offset result) = out_offset)
      by (rewrite length_take; lia).
    rewrite take_app_ge by lia. rewrite Ht.
    replace (out_offset + 3 - out_offset)%nat with 3%nat by lia.
    rewrite take_app_ge by (rewrite over_white_length; lia).
    rewrite over_white_length. cbn [take Nat.sub].
    rewrite take_0, app_nil_r.
    rewrite drop_app_ge by lia. rewrite Ht.
    rewrite drop_app_ge by (rewrite over_white_length; lia).
    rewrite over_white_length, drop_drop.
    rewrite <- !app_assoc. do 3 f_equal. f_equal. lia.
Qed.

Lemma getitem_drop (l : bytes) (k : nat) : getitem (drop k l) 0 = getitem l k.
Proof. unfold getitem. rewrite lookup_drop, Nat.add_0_r. reflexivity. Qed.

Lemma row_step_write_row (self : PngImage) (decompressed : bytes)
    (channels : nat) (alpha_table : option (list byte)) (st : row_state) :
  row_step self decompressed channels (width self * channels) alpha_table st
  = let* filter_type := getitem decompressed (rs_offset st) in
    let* row_data :=
      apply_filter (byte_nat filter_type)
        (slice decompressed (rs_offset st + 1)
           (rs_offset st + 1 + width self * channels))
        (rs_prev_row st) channels in
    let* written :=
      write_row self channels alpha_table row_data (rs_result st)
        (rs_out_offset st) in
    Ok {| rs_result := fst written; rs_prev_row := row_data;
          rs_offset := (rs_offset st + 1 + width self * channels)%nat;
          rs_out_offset := snd written |}.
Proof. reflexivity. Qed.

Section RowLoop.

Variables (self : PngImage) (decompressed : bytes) (channels : nat)
          (alpha_table : option (list byte))
          (composite : bytes -> outcome bytes).

Let row_bytes : nat := (width self * channels)%nat.

Hypothesis write_row_composite :
  forall (row result : bytes) (out_offset : nat),
    (out_offset + width self * 3 <= length result)%nat ->
    write_row self channels alpha_table row result out_offset
    = match composite row with
      | Ok o =>
          Ok (take out_offset result ++ o
                ++ drop (out_offset + width self * 3) result,
              (out_offset + width self * 3)%nat)
      | Raise e => Raise e
      end.

Hypothesis composite_full :
  forall (row o : bytes),
    composite row = Ok o -> length row = row_bytes ->
    length o = (width self * 3)%nat.

Lemma rows_loop (count : nat) :
  forall (i : nat) (st : row_state) (written : bytes),
    rs_result st = written ++ zeros (count * (width self * 3)) ->
    rs_out_offset st = length written ->
    (let* st' :=
       for_range i count
         (fun _ => row_step self decompressed channels row_bytes alpha_table)
         st in
     Ok (rs_result st'))
    = (let* o :=
         decode_rows composite channels row_bytes count
           (drop (rs_offset st) decompressed) (rs_prev_row st) in
       Ok (written ++ o)).
Proof.
  induction count as [|count IH]; intros i st written Hres Hout.
  - cbn [for_range decode_rows bind]. rewrite Hres. reflexivity.
  - cbn [for_range decode_rows]. unfold row_bytes at 1.
    rewrite row_step_write_row. fold row_bytes.
    rewrite getitem_drop.
    destruct (getitem decompressed (rs_offset st)) as [ft|e]; [|reflexivity].
    cbn [bind].
    assert (Hslice : slice (drop (rs_offset st) decompressed) 1 (1 + row_bytes)
                     = slice decompressed (rs_offset st + 1)
                         (rs_offset st + 1 + row_bytes)).
    { unfold slice. rewrite drop_drop. f_equal. lia. }
    rewrite Hslice.
    destruct (apply_filter _ _ _ _) as [row|e] eqn:Hf; [|reflexivity].
    cbn [bind]. apply apply_filter_length in Hf.
    assert (Hrow : (length row <= row_bytes)%nat).
    { rewrite Hf. unfold slice. rewrite length_take. lia. }
    rewrite write_row_composite
      by (rewrite Hres, length_app; unfold zeros; rewrite length_replicate;
          lia).
    destruct (composite row) as [o|e] eqn:Hc; [|reflexivity].
    cbn [bind fst snd].
    assert (Hnew : take (rs_out_offset st) (rs_result st) ++ o
                   ++ drop (rs_out_offset st + width self * 3) (rs_result st)
                   = (written ++ o) ++ zeros (count * (width self * 3))).
    { rewrite Hres, Hout. rewrite take_app_length.
      rewrite drop_app_ge by lia.
      replace (length written + width self * 3 - length written)%nat
        with (width self * 3)%nat by lia.
      unfold zeros. rewrite drop_replicate, <- app_assoc.
      do 3 f_equal. lia. }
    rewrite Hnew.
    destruct (Nat.eq_dec (length row) row_bytes) as [Hfull|Hshort].
    + rewrite (IH (S i) _ (written ++ o)); cbn [rs_result rs_out_offset
                                                  rs_offset rs_prev_row].
      * rewrite drop_drop.
        replace (rs_offset st + (1 + row_bytes))%nat
          with (rs_offset st + 1 + row_bytes)%nat by lia.
        destruct (decode_rows _ _ _ _ _ _) as [rest|e]; [|reflexivity].
        cbn [bind]. by rewrite app_assoc.
      * reflexivity.
      * rewrite length_app, (composite_full row o Hc Hfull), Hout. reflexivity.
    + assert (Hend : (length decompressed <= rs_offset st + 1 + row_bytes)%nat).
      { rewrite Hf in Hshort, Hrow. unfold slice in Hshort, Hrow.
        rewrite length_take, length_drop in Hshort, Hrow. lia. }
      destruct count as [|count].
      * cbn [for_range decode_rows bind rs_result].
        unfold zeros. cbn [Nat.mul replicate]. by rewrite !app_nil_r.
      * cbn [for_range decode_rows]. unfold row_bytes at 1.
        rewrite row_step_write_row. cbn [rs_offset].
        rewrite getitem_drop.
        unfold getitem.
        rewrite (lookup_ge_None_2 decompressed (rs_offset st + 1 + row_bytes))
          by lia.
        rewrite lookup_drop.
        rewrite (lookup_ge_None_2 decompressed) by lia.
        reflexivity.
Qed.

End RowLoop.

Lemma composite_rows_decode (self : PngImage) (decompressed : bytes)
    (alpha_table : option (list byte)) (composite : bytes -> outcome bytes) :
  (forall (row result : bytes) (out_offset : nat),
      (out_offset + width self * 3 <= length result)%nat ->
      write_row self (channels_of self) alpha_table row result out_offset
      = match composite row with
        | Ok o =>
            Ok (take out_offset result ++ o
                  ++ drop (out_offset + width self * 3) result,
                (out_offset + width self * 3)%nat)
        | Raise e => Raise e
        end) ->
  (forall (row o : bytes),
      composite row = Ok o ->
      length row = (width self * channels_of self)%nat ->
      length o = (width self * 3)%nat) ->
  (let* st :=
     for_range 0 (height self)
       (fun _ => row_step self decompressed (channels_of self)
                   (width self * channels_of self) alpha_table)
       {| rs_result := zeros (width self * height self * 3);
          rs_prev_row := zeros (width self * channels_of self);
          rs_offset := 0; rs_out_offset := 0 |} in
   Ok (rs_result st))
  = decode_rows composite (channels_of self)
      (width self * channels_of self) (height self) decompressed
      (zeros (width self * channels_of self)).
Proof.
  intros Hw Hfull.
  rewrite (rows_loop self decompressed (channels_of self) alpha_table
             composite Hw Hfull (height self) 0 _ []).
  - cbn [rs_offset rs_prev_row drop app].
    destruct (decode_rows _ _ _ _ _ _); reflexivity.
  - cbn [rs_result app]. f_equal. lia.
  - reflexivity.
Qed.

(** X16. For a truecolour image [to_rgb] is the decompressed data read
    row by row, every reconstructed row copied through unchanged, rows
    concatenated, followed by the transparency post-pass; a failure of the
    decompression, of the read of a filter byte or of [apply_filter] is
    the failure of [to_rgb]. *)
Theorem to_rgb_truecolor_decodes
    (zlib_decompress : bytes -> outcome bytes) (self : PngImage) :
  color_type self = 2%nat ->
  to_rgb zlib_decompress self
  = (let* decompressed := zlib_decompress (concat (_idat_chunks self)) in
     let* rows :=
       decode_rows truecolor_row 3 (width self * 3) (height self)
         decompressed (zeros (width self * 3)) in
     Ok (apply_transparency_key self rows)).
Proof.
  intros Hct.
  assert (Hch : channels_of self = 3%nat)
    by (unfold channels_of; rewrite Hct; reflexivity).
  unfold to_rgb.
  destruct (zlib_decompress _) as [decompressed|e]; [|reflexivity].
  cbn [bind]. f_equal.
  unfold composite_rows. cbv zeta.
  replace (if (channels_of self =? 1)%nat then _ else Ok None)
    with (@Ok (option (list byte)) None) by (rewrite Hch; reflexivity).
  cbn [bind].
  rewrite (composite_rows_decode self decompressed None truecolor_row).
  - rewrite Hch. reflexivity.
  - intros row result out_offset _. unfold write_row. rewrite Hch.
    reflexivity.
  - intros row o [= <-]. rewrite Hch. auto.
Qed.

(** X17. For a truecolour image with alpha (every colour type but 2
    and 3) [to_rgb] is the decompressed data read row by row, every pixel
    [(r, g, b, a)] of every reconstructed row composited over white, in
    order; a row with fewer than [width] whole pixels raises
    [ValueError]. *)
Theorem to_rgb_rgba_decodes
    (zlib_decompress : bytes -> outcome bytes) (self : PngImage) :
  color_type self <> 2%nat -> color_type self <> 3%nat ->
  to_rgb zlib_decompress self
  = (let* decompressed := zlib_decompress (concat (_idat_chunks self)) in
     decode_rows (rgba_row (width self)) 4 (width self * 4) (height self)
       decompressed (zeros (width self * 4))).
Proof.
  intros H2 H3.
  assert (Hch : channels_of self = 4%nat).
  { unfold channels_of.
    destruct (Nat.eqb_spec (color_type self) 3); [contradiction|].
    destruct (Nat.eqb_spec (color_type self) 2); [contradiction|].
    reflexivity. }
  unfold to_rgb.
  destruct (zlib_decompress _) as [decompressed|e]; [|reflexivity].
  cbn [bind].
  assert (Hkey : forall result, apply_transparency_key self result = result).
  { intros result. unfold apply_transparency_key. rewrite Hch.
    destruct (_transparency self) as [[|v t]|]; reflexivity. }
  unfold composite_rows. cbv zeta.
  replace (if (channels_of self =? 1)%nat then _ else Ok None)
    with (@Ok (option (list byte)) None) by (rewrite Hch; reflexivity).
  cbn [bind].
  rewrite (composite_rows_decode self decompressed None
             (rgba_row (width self))).
  - rewrite Hch. destruct (decode_rows _ _ _ _ _ _) as [rows|e];
      [|reflexivity].
    cbn [bind]. by rewrite Hkey.
  - intros row result out_offset Hlen. unfold write_row. rewrite Hch.
    cbn [Nat.eqb]. rewrite rgba_loop by exact Hlen. reflexivity.
  - intros row o Ho _. apply (rgba_row_length _ _ _ Ho).
Qed.

Lemma indexed_row_length (palette : list (byte * byte * byte))
    (alpha_table : list byte) (count : nat) :
  forall (row out : bytes),
    indexed_row palette alpha_table count row = Ok out ->
    length out = (count * 3)%nat.
Proof.
  induction count as [|count IH]; intros row out; cbn [indexed_row].
  - intros [= <-]. reflexivity.
  - destruct row as [|index row]; [discriminate|].
    destruct (palette !! byte_nat index) as [[[r g] b]|]; [|discriminate].
    destruct (alpha_table !! byte_nat index) as [a|]; [|discriminate].
    destruct (indexed_row palette alpha_table count row) as [rest|e] eqn:Hr;
      [|discriminate].
    cbn [bind]. intros [= <-].
    rewrite length_app, over_white_length, (IH _ _ Hr). lia.
Qed.

(** X18. For an indexed image with a palette [to_rgb] is the
    decompressed data read row by row, every byte of every reconstructed
    row looked up in the palette and in the alpha table (the transparency
    payload cut to the palette size and filled with 255) and composited
    over white; an index outside the palette raises the palette index
    error, a row shorter than [width] raises [IndexError]. *)
Theorem to_rgb_indexed_decodes
    (zlib_decompress : bytes -> outcome bytes) (self : PngImage)
    (palette : list (byte * byte * byte)) :
  color_type self = 3%nat -> _palette self = Some palette ->
  let t := default [] (_transparency self) in
  let alpha_table :=
    take (length palette) t ++ replicate (length palette - length t) xff in
  to_rgb zlib_decompress self
  = (let* decompressed := zlib_decompress (concat (_idat_chunks self)) in
     decode_rows (indexed_row palette alpha_table (width self)) 1
       (width self * 1) (height self) decompressed (zeros (width self * 1))).
Proof.
  intros Hct Hpal. cbv zeta.
  set (alpha_table := take (length palette) (default [] (_transparency self))
                      ++ replicate (length palette
                                    - length (default [] (_transparency self)))
                           xff).
  assert (Hch : channels_of self = 1%nat)
    by (unfold channels_of; rewrite Hct; reflexivity).
  unfold to_rgb.
  destruct (zlib_decompress _) as [decompressed|e]; [|reflexivity].
  cbn [bind].
  assert (Hkey : forall result, apply_transparency_key self result = result).
  { intros result. unfold apply_transparency_key. rewrite Hch.
    destruct (_transparency self) as [[|v t]|]; reflexivity. }
  unfold composite_rows. cbv zeta.
  replace (if (channels_of self =? 1)%nat then _ else Ok None)
    with (@Ok (option (list byte)) (Some alpha_table)).
  2:{ rewrite Hch, Hpal. cbn [Nat.eqb]. rewrite build_alpha_table_eq.
      reflexivity. }
  cbn [bind].
  rewrite (composite_rows_decode self decompressed (Some alpha_table)
             (indexed_row palette alpha_table (width self))).
  - rewrite Hch. destruct (decode_rows _ _ _ _ _ _) as [rows|e];
      [|reflexivity].
    cbn [bind]. by rewrite Hkey.
  - intros row result out_offset Hlen. unfold write_row. rewrite Hch, Hpal.
    cbn [Nat.eqb]. rewrite indexed_loop by exact Hlen. reflexivity.
  - intros row o Ho _. apply (indexed_row_length _ _ _ _ _ Ho).
Qed.

(** ** The driver *)

Section DriverFacts.

Variable zlib_decompress : bytes -> outcome bytes.
Variable zlib_compress : bytes -> bytes.
Variable with_suffix_pdf : string -> string.
Variable write_fault : filesystem -> string -> bytes -> option (option bytes).
Variable unlink_fault : filesystem -> string -> bool.

Lemma convert_png_total (fs : filesystem) (path : string) (a r : bool) :
  exists res,
    convert_png zlib_decompress zlib_compress with_suffix_pdf write_fault
      unlink_fault fs path a r
    = Some res.
Proof.
  unfold convert_png.
  destruct (fs path) as [stream|]; [|eauto].
  destruct (load_total PngImage_init stream) as (png & o & ->).
  destruct o as [[]|e]; [|eauto].
  destruct (to_rgb zlib_decompress png); [|eauto].
  cbv zeta. destruct a; [|eauto].
  destruct (write_fault _ _ _); [eauto|].
  destruct r; [|eauto].
  destruct (write_bytes _ _ _ path); [|eauto].
  destruct (unlink_fault _ _); eauto.
Qed.

Lemma write_bytes_other (fs : filesystem) (p q : string) (data : bytes) :
  q <> p -> write_bytes fs p data q = fs q.
Proof.
  intros H. unfold write_bytes.
  destruct (String.eqb_spec q p); [contradiction | reflexivity].
Qed.

Lemma write_interrupted_other (fs : filesystem) (p q : string)
    (remains : option bytes) :
  q <> p -> write_interrupted fs p remains q = fs q.
Proof.
  intros H. unfold write_interrupted.
  destruct (String.eqb_spec q p); [contradiction | reflexivity].
Qed.

Lemma unlink_other (fs : filesystem) (p q : string) :
  q <> p -> unlink fs p q = fs q.
Proof.
  intros H. unfold unlink.
  destruct (String.eqb_spec q p); [contradiction | reflexivity].
Qed.



(** X20. A successful [convert_png] with [apply] reports the size of
    the source and of the document built from the decoded image, writes
    the document at the [.pdf] path, removes the source when asked to,
    and changes no other file.  When the [.pdf] path is the source path
    itself and removal is asked for, the document is removed with it. *)
Theorem convert_png_applied
    (fs fs' : filesystem) (path : string) (remove_original : bool)
    (original_size converted_size : nat) :
  convert_png zlib_decompress zlib_compress with_suffix_pdf write_fault
    unlink_fault fs path true remove_original
  = Some (fs', inr (original_size, converted_size)) ->
  exists (stream : bytes) (png : PngImage) (rgb : bytes),
    let pdf_bytes :=
      make_pdf zlib_compress rgb (Z.of_nat (width png))
        (Z.of_nat (height png)) in
    let pdf_path := with_suffix_pdf path in
    fs path = Some stream /\
    load PngImage_init stream = Some (png, Ok tt) /\
    to_rgb zlib_decompress png = Ok rgb /\
    original_size = length stream /\
    converted_size = length pdf_bytes /\
    fs' pdf_path
    = (if remove_original && String.eqb pdf_path path then None
       else Some pdf_bytes) /\
    (pdf_path <> path ->
     fs' path = if remove_original then None else Some stream) /\
    (forall q, q <> path -> q <> pdf_path -> fs' q = fs q).
Proof.
  unfold convert_png.
  destruct (fs path) as [stream|] eqn:Hfs; [|discriminate].
  destruct (load PngImage_init stream) as [[png [[]|e]]|] eqn:Hl;
    try discriminate.
  destruct (to_rgb zlib_decompress png) as [rgb|e] eqn:Hr; [|discriminate].
  cbv zeta.
  remember (make_pdf zlib_compress rgb (Z.of_nat (width png))
              (Z.of_nat (height png))) as pdf_bytes eqn:Hpdf.
  destruct (write_fault fs (with_suffix_pdf path) pdf_bytes); [discriminate|].
  intros H.
  assert (Hfs' : fs' = (if remove_original
                        then unlink (write_bytes fs (with_suffix_pdf path)
                                       pdf_bytes) path
                        else write_bytes fs (with_suffix_pdf path) pdf_bytes)
                 /\ original_size = length stream
                 /\ converted_size = length pdf_bytes).
  { destruct remove_original.
    - destruct (write_bytes fs (with_suffix_pdf path) pdf_bytes path);
        [|discriminate].
      destruct (unlink_fault _ path); [discriminate|].
      injection H as <- <- <-. auto.
    - injection H as <- <- <-. auto. }
  clear H. destruct Hfs' as (-> & -> & ->).
  exists stream, png, rgb. cbv zeta. rewrite <- Hpdf.
  repeat apply conj; try assumption; try reflexivity.
  - destruct remove_original; cbn [andb].
    + unfold unlink, write_bytes.
      rewrite String.eqb_refl.
      destruct (String.eqb_spec (with_suffix_pdf path) path); reflexivity.
    + unfold write_bytes. rewrite String.eqb_refl. reflexivity.
  - intros Hne. destruct remove_original.
    + unfold unlink. rewrite String.eqb_refl. reflexivity.
    + rewrite write_bytes_other by congruence. exact Hfs.
  - intros q Hq Hq'. destruct remove_original.
    + rewrite unlink_other, write_bytes_other by assumption. reflexivity.
    + rewrite write_bytes_other by assumption. reflexivity.
Qed.

Lemma convert_png_frame
    (fs fs' : filesystem) (path : string) (apply remove_original : bool)
    (res : driver_exn + nat * nat) (q : string) :
  convert_png zlib_decompress zlib_compress with_suffix_pdf write_fault
    unlink_fault fs path apply remove_original = Some (fs', res) ->
  q <> with_suffix_pdf path -> (remove_original = false \/ q <> path) ->
  fs' q = fs q.
Proof.
  unfold convert_png.
  destruct (fs path) as [stream|]; [|intros [= <- <-]; reflexivity].
  destruct (load PngImage_init stream) as [[png [[]|e]]|]; try discriminate;
    [|intros [= <- <-]; reflexivity].
  destruct (to_rgb zlib_decompress png) as [rgb|e];
    [|intros [= <- <-]; reflexivity].
  cbv zeta.
  remember (make_pdf zlib_compress rgb (Z.of_nat (width png))
              (Z.of_nat (height png))) as pdf_bytes eqn:Hpdf.
  destruct apply; [|intros [= <- <-]; reflexivity].
  destruct (write_fault fs (with_suffix_pdf path) pdf_bytes) as [remains|].
  { intros [= <- <-] Hq _. by apply write_interrupted_other. }
  destruct remove_original.
  - destruct (write_bytes fs (with_suffix_pdf path) pdf_bytes path).
    2:{ intros [= <- <-] Hq _. by apply write_bytes_other. }
    destruct (unlink_fault _ path).
    { intros [= <- <-] Hq _. by apply write_bytes_other. }
    intros [= <- <-] Hq [Hr|Hr]; [discriminate|].
    rewrite unlink_other, write_bytes_other by assumption. reflexivity.
  - intros [= <- <-] Hq _. by apply write_bytes_other.
Qed.

Lemma convert_png_dry_run
    (fs fs' : filesystem) (path : string) (remove_original : bool)
    (res : driver_exn + nat * nat) :
  convert_png zlib_decompress zlib_compress with_suffix_pdf write_fault
    unlink_fault fs path false remove_original = Some (fs', res) ->
  fs' = fs.
Proof.
  unfold convert_png.
  destruct (fs path) as [stream|]; [|intros [= <- _]; reflexivity].
  destruct (load PngImage_init stream) as [[png [[]|e]]|]; try discriminate;
    [|intros [= <- _]; reflexivity].
  destruct (to_rgb zlib_decompress png) as [rgb|e];
    [|intros [= <- _]; reflexivity].
  cbv zeta.
  remember (make_pdf zlib_compress rgb (Z.of_nat (width png))
              (Z.of_nat (height png))) as pdf_bytes eqn:Hpdf.
  intros [= <- _]. reflexivity.
Qed.

(** X21. Without [--apply] the run changes no file, whatever the
    targets and however it ends; with [--remove-original] it stops at the
    check of the flags. *)
Theorem main_dry_run_changes_nothing
    (fs fs' : filesystem) (targets : list string) (remove_original : bool)
    (res : driver_exn + unit) :
  main_on_targets zlib_decompress zlib_compress with_suffix_pdf write_fault
    unlink_fault fs targets false remove_original = Some (fs', res) ->
  fs' = fs /\
  (remove_original = true -> res = inl RemoveOriginalRequiresApply).
Proof.
  unfold main_on_targets. destruct remove_original; cbn [andb negb].
  { intros [= <- <-]. auto. }
  intros H. split; [|discriminate].
  revert fs H. induction targets as [|path rest IH]; intros fs; cbn [convert_targets].
  - intros [= <- _]. reflexivity.
  - destruct (fs path) as [stream|] eqn:Hfs; [|intros [= <- _]; reflexivity].
    destruct (convert_png _ _ _ _ _ fs path false false) as [[fs1 r1]|] eqn:Hc;
      [|discriminate].
    apply convert_png_dry_run in Hc. rewrite Hc.
    destruct r1 as [e|sizes]; [intros [= <- _]; reflexivity | apply IH].
Qed.

(** X22. However the run ends, a file that is not the [.pdf] path of a
    target is left as it was, unless it is a target and
    [--remove-original] was given. *)
Theorem main_touches_only_targets
    (fs fs' : filesystem) (targets : list string)
    (apply remove_original : bool) (res : driver_exn + unit) (q : string) :
  main_on_targets zlib_decompress zlib_compress with_suffix_pdf write_fault
    unlink_fault fs targets apply remove_original = Some (fs', res) ->
  ~ In q (map with_suffix_pdf targets) ->
  (remove_original = false \/ ~ In q targets) ->
  fs' q = fs q.
Proof.
  unfold main_on_targets.
  destruct (remove_original && negb apply); [intros [= <- _]; reflexivity|].
  revert fs. induction targets as [|path rest IH]; intros fs; cbn [convert_targets].
  - intros [= <- _]. reflexivity.
  - destruct (fs path) as [stream|] eqn:Hfs; [|intros [= <- _]; reflexivity].
    destruct (convert_png _ _ _ _ _ fs path apply remove_original)
      as [[fs1 r1]|] eqn:Hc; [|discriminate].
    intros H Hpdf Hrm. cbn [map In] in Hpdf.
    assert (Hq : fs1 q = fs q).
    { apply (convert_png_frame _ _ _ _ _ _ _ Hc); [intros ->; tauto|].
      destruct Hrm as [Hrm|Hrm]; [by left|right]. intros ->. apply Hrm. by left. }
    destruct r1 as [e|sizes].
    + injection H as <- _. exact Hq.
    + rewrite <- Hq. apply IH; [exact H | tauto |].
      destruct Hrm as [Hrm|Hrm]; [by left|right]. intros Hin. apply Hrm.
      by right.
Qed.

End DriverFacts.

Lemma to_rgb_truecolor_decodes_witness :
  to_rgb inflate_stored png_keyed_loaded
  = (let* decompressed :=
       inflate_stored (concat (_idat_chunks png_keyed_loaded)) in
     let* rows :=
       decode_rows truecolor_row 3 (width png_keyed_loaded * 3)
         (height png_keyed_loaded) decompressed
         (zeros (width png_keyed_loaded * 3)) in
     Ok (apply_transparency_key png_keyed_loaded rows)).
Proof.
  apply (to_rgb_truecolor_decodes inflate_stored png_keyed_loaded).
  reflexivity.
Defined.

Lemma to_rgb_rgba_decodes_witness :
  to_rgb inflate_stored png_rgba_loaded
  = (let* decompressed :=
       inflate_stored (concat (_idat_chunks png_rgba_loaded)) in
     decode_rows (rgba_row (width png_rgba_loaded)) 4
       (width png_rgba_loaded * 4) (height png_rgba_loaded) decompressed
       (zeros (width png_rgba_loaded * 4))).
Proof.
  apply (to_rgb_rgba_decodes inflate_stored png_rgba_loaded); discriminate.
Defined.

Lemma to_rgb_indexed_decodes_witness :
  to_rgb inflate_stored png_indexed_loaded
  = (let* decompressed :=
       inflate_stored (concat (_idat_chunks png_indexed_loaded)) in
     decode_rows
       (indexed_row [(x00, x00, x00); (xff, xff, xff)]
          (take 2 [xff; x00] ++ replicate (2 - 2) xff)
          (width png_indexed_loaded))
       1 (width png_indexed_loaded * 1) (height png_indexed_loaded)
       decompressed (zeros (width png_indexed_loaded * 1))).
Proof.
  apply (to_rgb_indexed_decodes inflate_stored png_indexed_loaded
           [(x00, x00, x00); (xff, xff, xff)]); reflexivity.
Defined.


Lemma convert_png_applied_witness :
  exists (stream : bytes) (png : PngImage) (rgb : bytes),
    let pdf_bytes :=
      make_pdf no_compression rgb (Z.of_nat (width png))
        (Z.of_nat (height png)) in
    let pdf_path := to_a_pdf "a.png"%string in
    example_fs "a.png"%string = Some stream /\
    load PngImage_init stream = Some (png, Ok tt) /\
    to_rgb inflate_stored png = Ok rgb /\
    length example_png_file = length stream /\
    length (make_pdf no_compression [x01; x02; x03; x04; x05; x06] 2 1)
    = length pdf_bytes /\
    unlink (write_bytes example_fs "a.pdf"%string
              (make_pdf no_compression [x01; x02; x03; x04; x05; x06] 2 1))
      "a.png"%string pdf_path
    = (if true && String.eqb pdf_path "a.png"%string then None
       else Some pdf_bytes) /\
    (pdf_path <> "a.png"%string ->
     unlink (write_bytes example_fs "a.pdf"%string
               (make_pdf no_compression [x01; x02; x03; x04; x05; x06] 2 1))
       "a.png"%string "a.png"%string
     = if true then None else Some stream) /\
    (forall q, q <> "a.png"%string -> q <> pdf_path ->
       unlink (write_bytes example_fs "a.pdf"%string
                 (make_pdf no_compression [x01; x02; x03; x04; x05; x06] 2 1))
         "a.png"%string q
       = example_fs q).
Proof.
  apply (convert_png_applied inflate_stored no_compression to_a_pdf
           no_write_fault no_unlink_fault example_fs
           (unlink (write_bytes example_fs "a.pdf"%string
                      (make_pdf no_compression
                         [x01; x02; x03; x04; x05; x06] 2 1)) "a.png"%string)
           "a.png"%string true (length example_png_file)
           (length (make_pdf no_compression
                      [x01; x02; x03; x04; x05; x06] 2 1))).
  vm_compute. reflexivity.
Defined.

Lemma main_dry_run_changes_nothing_witness :
  example_fs = example_fs /\
  (false = true ->
   @inr driver_exn unit tt = inl RemoveOriginalRequiresApply).
Proof.
  apply (main_dry_run_changes_nothing inflate_stored no_compression to_a_pdf
           no_write_fault no_unlink_fault
           example_fs example_fs ["a.png"%string] false (inr tt)).
  vm_compute. reflexivity.
Defined.

Lemma main_touches_only_targets_witness :
  unlink (write_bytes example_fs "a.pdf"%string
            (make_pdf no_compression [x01; x02; x03; x04; x05; x06] 2 1))
    "a.png"%string "c.txt"%string
  = example_fs "c.txt"%string.
Proof.
  apply (main_touches_only_targets inflate_stored no_compression to_a_pdf
           no_write_fault no_unlink_fault example_fs
           (unlink (write_bytes example_fs "a.pdf"%string
                      (make_pdf no_compression
                         [x01; x02; x03; x04; x05; x06] 2 1)) "a.png"%string)
           ["a.png"%string] true true (inr tt) "c.txt"%string).
  - vm_compute. reflexivity.
  - simpl. intros [H|[]]. discriminate.
  - right. simpl. intros [H|[]]. discriminate.
Defined.

(** ** The width of a cross-reference entry *)

Lemma encode_length (s : string) : length (encode s) = String.length s.
Proof.
  unfold encode, list_byte_of_string.
  induction s as [|c s IH]; simpl; [reflexivity|]. f_equal. exact IH.
Qed.

Lemma string_of_uint_length (d : Decimal.uint) :
  String.length (NilEmpty.string_of_uint d) = Decimal.nb_digits d.
Proof. induction d; simpl; f_equal; assumption. Qed.

Lemma str_of_nat_length (n : nat) :
  length (encode (str_of_nat n)) = Decimal.nb_digits (Unsigned.to_lu n).
Proof.
  unfold str_of_nat.
  rewrite encode_length, string_of_uint_length, Unsigned.to_uint_alt.
  apply nb_digits_rev.
Qed.

Lemma to_lu_digits_small (n : nat) :
  (n < 10)%nat -> Decimal.nb_digits (Unsigned.to_lu n) = 1%nat.
Proof.
  intros H.
  do 10 (destruct n as [|n]; [reflexivity|]). lia.
Qed.

Lemma to_lu_digits_step (q r : nat) :
  q <> 0%nat -> (r < 10)%nat ->
  Decimal.nb_digits (Unsigned.to_lu (r + 10 * q))
  = S (Decimal.nb_digits (Unsigned.to_lu q)).
Proof.
  intros Hq Hr.
  do 10 (destruct r as [|r];
         [cbn [Nat.add]; rewrite ?Unsigned.to_lu_succ,
            (Unsigned.to_lu_tenfold q Hq); reflexivity|]).
  lia.
Qed.

Lemma to_lu_digits_bound (k : nat) :
  forall n : nat,
    Z.of_nat n < 10 ^ Z.of_nat (S k) ->
    (Decimal.nb_digits (Unsigned.to_lu n) <= S k)%nat.
Proof.
  induction k as [|k IH]; intros n Hn.
  - rewrite to_lu_digits_small; [lia|]. change (10 ^ Z.of_nat 1) with 10 in Hn. lia.
  - destruct (Nat.lt_ge_cases n 10) as [Hs|Hb].
    + rewrite to_lu_digits_small by exact Hs. lia.
    + pose proof (Nat.div_mod_eq n 10) as Hdm.
      pose proof (Nat.mod_upper_bound n 10 ltac:(lia)) as Hm.
      assert (Hq : (n / 10 <> 0)%nat).
      { intros E. rewrite E in Hdm. lia. }
      replace n with (n mod 10 + 10 * (n / 10))%nat by lia.
      rewrite to_lu_digits_step by assumption.
      apply le_n_S, IH.
      rewrite Nat2Z.inj_succ, Z.pow_succ_r in Hn by lia. lia.
Qed.

Lemma format_010_length (pos : nat) :
  Z.of_nat pos < 10 ^ 10 -> length (format_010 pos) = 10%nat.
Proof.
  intros H. unfold format_010.
  pose proof (to_lu_digits_bound 9 pos H) as Hd.
  rewrite length_app, length_replicate, str_of_nat_length. lia.
Qed.

Lemma xref_entry_length (pos : nat) :
  Z.of_nat pos < 10 ^ 10 -> length (xref_entry pos) = 20%nat.
Proof.
  intros H. unfold xref_entry.
  rewrite !length_app, (format_010_length pos H). reflexivity.
Qed.

Lemma slice_middle (pre mid post : bytes) (i k : nat) :
  length pre = i -> length mid = k ->
  slice (pre ++ mid ++ post) i (i + k) = mid.
Proof.
  intros <- <-. unfold slice.
  rewrite drop_app_length.
  replace (length pre + length mid - length pre)%nat with (length mid) by lia.
  apply take_app_length.
Qed.

Lemma slice_at (out pre mid post : bytes) (i k : nat) :
  out = pre ++ mid ++ post -> length pre = i -> length mid = k ->
  slice out i (i + k) = mid.
Proof. intros ->. apply slice_middle. Qed.

Lemma make_pdf_layout (zlib_compress : bytes -> bytes) (rgb : bytes)
    (width height : Z) :
  exists o1 o2 o3 o4 o5 : bytes,
    let p1 := length pdf_header in
    let p2 := (p1 + length (obj_record 1 o1))%nat in
    let p3 := (p2 + length (obj_record 2 o2))%nat in
    let p4 := (p3 + length (obj_record 3 o3))%nat in
    let p5 := (p4 + length (obj_record 4 o4))%nat in
    let xref_start := (p5 + length (obj_record 5 o5))%nat in
    make_pdf zlib_compress rgb width height
    = pdf_header
      ++ obj_record 1 o1 ++ obj_record 2 o2 ++ obj_record 3 o3
      ++ obj_record 4 o4 ++ obj_record 5 o5
      ++ xref_section [p1; p2; p3; p4; p5] xref_start.
Proof.
  destruct (pdf_objects_five zlib_compress rgb width height)
    as (o1 & o2 & o3 & o4 & o5 & Hobj).
  exists o1, o2, o3, o4, o5. cbv zeta.
  unfold make_pdf. rewrite Hobj, write_objects_spec.
  rewrite write_xref_entries_spec.
  cbn [records record_positions app].
  rewrite !length_app. cbn [length Nat.add].
  rewrite !Nat.add_0_r, !Nat.add_assoc.
  unfold xref_section. rewrite <- !app_assoc. reflexivity.
Qed.

(** X23. In a document shorter than 10^10 bytes every entry of the
    cross-reference table is exactly 20 bytes long, so the entry of
    object [n] is found at the fixed offset [xref_start + 29 + 20 * (n - 1)],
    and the offset written in it is where the marker of object [n]
    starts. *)
Theorem make_pdf_xref_entries_addressable
    (zlib_compress : bytes -> bytes) (rgb : bytes) (width height : Z) :
  Z.of_nat (length (make_pdf zlib_compress rgb width height)) < 10 ^ 10 ->
  exists xref_start p1 p2 p3 p4 p5 : nat,
    let out := make_pdf zlib_compress rgb width height in
    occurs_at (encode "xref") xref_start out /\
    xref_entry_at out xref_start 0 p1 /\
    xref_entry_at out xref_start 1 p2 /\
    xref_entry_at out xref_start 2 p3 /\
    xref_entry_at out xref_start 3 p4 /\
    xref_entry_at out xref_start 4 p5.
Proof.
  intros Hsmall.
  destruct (make_pdf_layout zlib_compress rgb width height)
    as (o1 & o2 & o3 & o4 & o5 & Hout). cbv zeta in Hout.
  set (p1 := length pdf_header) in *.
  set (p2 := (p1 + length (obj_record 1 o1))%nat) in *.
  set (p3 := (p2 + length (obj_record 2 o2))%nat) in *.
  set (p4 := (p3 + length (obj_record 3 o3))%nat) in *.
  set (p5 := (p4 + length (obj_record 4 o4))%nat) in *.
  set (xs := (p5 + length (obj_record 5 o5))%nat) in *.
  exists xs, p1, p2, p3, p4, p5. cbv zeta.
  assert (Hlen : (xs <= length (make_pdf zlib_compress rgb width height))%nat).
  { rewrite Hout, !length_app. subst xs p5 p4 p3 p2 p1. lia. }
  assert (H1 : length (xref_entry p1) = 20%nat)
    by (apply xref_entry_length; subst xs p5 p4 p3 p2; lia).
  assert (H2 : length (xref_entry p2) = 20%nat)
    by (apply xref_entry_length; subst xs p5 p4 p3; lia).
  assert (H3 : length (xref_entry p3) = 20%nat)
    by (apply xref_entry_length; subst xs p5 p4; lia).
  assert (H4 : length (xref_entry p4) = 20%nat)
    by (apply xref_entry_length; subst xs p5; lia).
  assert (H5 : length (xref_entry p5) = 20%nat)
    by (apply xref_entry_length; subst xs; lia).
  set (body := pdf_header ++ obj_record 1 o1 ++ obj_record 2 o2
               ++ obj_record 3 o3 ++ obj_record 4 o4 ++ obj_record 5 o5).
  assert (Hbody : length body = xs)
    by (subst body xs p5 p4 p3 p2 p1; rewrite !length_app; lia).
  set (head := encode "xref" ++ LF ++ encode "0 6" ++ LF
               ++ encode "0000000000 65535 f " ++ LF).
  assert (Hhead : length head = 29%nat) by reflexivity.
  rewrite Hout. unfold xref_entry_at.
  repeat apply conj.
  - eapply (occurs_at_split body); [|symmetry; exact Hbody].
    subst body. unfold xref_section. rewrite <- !app_assoc. reflexivity.
  - eapply (slice_at _ (body ++ head));
      [|rewrite length_app, Hbody, Hhead; lia | exact H1].
    subst body head. unfold xref_section. cbn [map concat].
    rewrite <- !app_assoc. reflexivity.
  - eapply (occurs_at_split pdf_header); [|reflexivity].
    unfold obj_record. rewrite <- !app_assoc. reflexivity.
  - eapply (slice_at _ (body ++ head ++ xref_entry p1));
      [|rewrite !length_app, Hbody, Hhead, H1; lia | exact H2].
    subst body head. unfold xref_section. cbn [map concat].
    rewrite <- !app_assoc. reflexivity.
  - eapply (occurs_at_split (pdf_header ++ obj_record 1 o1));
      [|subst p2 p1; by rewrite length_app].
    unfold obj_record. rewrite <- !app_assoc. reflexivity.
  - eapply (slice_at _ (body ++ head ++ xref_entry p1 ++ xref_entry p2));
      [|rewrite !length_app, Hbody, Hhead, H1, H2; lia | exact H3].
    subst body head. unfold xref_section. cbn [map concat].
    rewrite <- !app_assoc. reflexivity.
  - eapply (occurs_at_split (pdf_header ++ obj_record 1 o1 ++ obj_record 2 o2));
      [|subst p3 p2 p1; rewrite !length_app; lia].
    unfold obj_record. rewrite <- !app_assoc. reflexivity.
  - eapply (slice_at _ (body ++ head ++ xref_entry p1 ++ xref_entry p2
                        ++ xref_entry p3));
      [|rewrite !length_app, Hbody, Hhead, H1, H2, H3; lia | exact H4].
    subst body head. unfold xref_section. cbn [map concat].
    rewrite <- !app_assoc. reflexivity.
  - eapply (occurs_at_split
              (pdf_header ++ obj_record 1 o1 ++ obj_record 2 o2
               ++ obj_record 3 o3));
      [|subst p4 p3 p2 p1; rewrite !length_app; lia].
    unfold obj_record. rewrite <- !app_assoc. reflexivity.
  - eapply (slice_at _ (body ++ head ++ xref_entry p1 ++ xref_entry p2
                        ++ xref_entry p3 ++ xref_entry p4));
      [|rewrite !length_app, Hbody, Hhead, H1, H2, H3, H4; lia | exact H5].
    subst body head. unfold xref_section. cbn [map concat].
    rewrite <- !app_assoc. reflexivity.
  - eapply (occurs_at_split
              (pdf_header ++ obj_record 1 o1 ++ obj_record 2 o2
               ++ obj_record 3 o3 ++ obj_record 4 o4));
      [|subst p5 p4 p3 p2 p1; rewrite !length_app; lia].
    unfold obj_record. rewrite <- !app_assoc. reflexivity.
Qed.

Lemma make_pdf_xref_entries_addressable_witness :
  exists xref_start p1 p2 p3 p4 p5 : nat,
    let out := make_pdf no_compression [x01; x02; x03; x04; x05; x06] 2 1 in
    occurs_at (encode "xref") xref_start out /\
    xref_entry_at out xref_start 0 p1 /\
    xref_entry_at out xref_start 1 p2 /\
    xref_entry_at out xref_start 2 p3 /\
    xref_entry_at out xref_start 3 p4 /\
    xref_entry_at out xref_start 4 p5.
Proof.
  apply (make_pdf_xref_entries_addressable no_compression
           [x01; x02; x03; x04; x05; x06] 2 1).
  vm_compute. reflexivity.
Defined.

(** ** Edge cases of the filters *)

Lemma byte_at_lookup (a b : bytes) :
  length a = length b -> (forall i, (i < length a)%nat -> byte_at a i = byte_at b i) ->
  a = b.
Proof.
  intros Hl H. apply list_eq. intros i.
  destruct (Nat.lt_ge_cases i (length a)) as [Hi|Hi].
  - specialize (H i Hi). unfold byte_at in H.
    destruct (lookup_lt_is_Some_2 a i Hi) as [x Hx].
    destruct (lookup_lt_is_Some_2 b i ltac:(lia)) as [y Hy].
    rewrite Hx, Hy in *. f_equal. apply byte_val_inj. exact H.
  - rewrite !lookup_ge_None_2 by lia. reflexivity.
Qed.

Lemma byte_at_range (buf : bytes) (i : nat) : 0 <= byte_at buf i <= 255.
Proof.
  unfold byte_at. destruct (buf !! i); [apply byte_val_range | lia].
Qed.

Lemma byte_at_zeros (n i : nat) : byte_at (zeros n) i = 0.
Proof.
  unfold byte_at, zeros.
  destruct (replicate n x00 !! i) as [b|] eqn:Hb; [|reflexivity].
  apply lookup_replicate in Hb as [-> _]. reflexivity.
Qed.

(** X24. Edge cases of the filters, for at least one channel: Sub
    leaves a row of at most one pixel unchanged whatever the previous row
    holds, Up over an all-zero previous row (the first row of an image)
    leaves the row unchanged, and every filter type from 5 on raises the
    filter type error whatever the rows are, the empty row included. *)
Theorem apply_filter_edge_cases
    (row prev_row : bytes) (channels : nat) :
  (1 <= channels)%nat ->
  ((length row <= channels)%nat ->
   apply_filter 1 row prev_row channels = Ok row) /\
  apply_filter 2 row (zeros (length row)) channels = Ok row /\
  (forall filter_type : nat, (5 <= filter_type)%nat ->
     apply_filter filter_type row prev_row channels
     = Raise (SystemExit (UnsupportedFilterType filter_type)) /\
     classify (SystemExit (UnsupportedFilterType filter_type))
     = Some FilterTypeError).
Proof.
  intros Hch. split; [|split].
  - intros Hlen.
    change (apply_filter 1 row prev_row channels)
      with (for_range 0 (length row)
              (filter_step 1 (zeros (length row)) channels) row).
    destruct (filter_loop_spec 1 (zeros (length row)) channels (length row)
                ltac:(lia) Hch 0 row)
      as (out & -> & Hl & _ & Hrec);
      [simpl; lia | unfold zeros; rewrite length_replicate; simpl; lia|].
    f_equal. apply byte_at_lookup; [exact Hl|].
    intros i Hi. rewrite Hrec by lia. cbn [predictor].
    unfold left_val at 1. destruct (Nat.leb_spec channels i); [lia|].
    pose proof (byte_at_range row i). rewrite Z.add_0_r.
    apply Z.mod_small. lia.
  - change (apply_filter 2 row (zeros (length row)) channels)
      with (for_range 0 (length row)
              (filter_step 2 (zeros (length row)) channels) row).
    destruct (filter_loop_spec 2 (zeros (length row)) channels (length row)
                ltac:(lia) Hch 0 row)
      as (out & -> & Hl & _ & Hrec);
      [simpl; lia | unfold zeros; rewrite length_replicate; simpl; lia|].
    f_equal. apply byte_at_lookup; [exact Hl|].
    intros i Hi. rewrite Hrec by lia. cbn [predictor].
    rewrite byte_at_zeros, Z.add_0_r.
    pose proof (byte_at_range row i). apply Z.mod_small. lia.
  - intros filter_type Hft. split; [|reflexivity].
    do 5 (destruct filter_type as [|filter_type]; [lia|]). reflexivity.
Qed.

Lemma apply_filter_edge_cases_witness :
  apply_filter 1 [x2a] [x07] 1 = Ok [x2a] /\
  apply_filter 2 [x2a] (zeros 1) 1 = Ok [x2a] /\
  apply_filter 9 [x2a] [x07] 1
  = Raise (SystemExit (UnsupportedFilterType 9)).
Proof.
  destruct (apply_filter_edge_cases [x2a] [x07] 1 ltac:(lia))
    as (Hsub & Hup & Hbad).
  split; [apply Hsub; simpl; lia|].
  split; [exact Hup|].
  apply (Hbad 9%nat). lia.
Defined.

(** ** Truncated data in the blending modes *)

Lemma rgba_row_needs (count : nat) :
  forall (row out : bytes),
    rgba_row count row = Ok out -> (count * 4 <= length row)%nat.
Proof.
  induction count as [|count IH]; intros row out; cbn [rgba_row]; [lia|].
  destruct row as [|r [|g [|b [|a row]]]]; try discriminate.
  destruct (rgba_row count row) as [rest|e] eqn:Hr; [|discriminate].
  intros _. apply IH in Hr. simpl. lia.
Qed.

Lemma indexed_row_needs (palette : list (byte * byte * byte))
    (alpha_table : list byte) (count : nat) :
  forall (row out : bytes),
    indexed_row palette alpha_table count row = Ok out ->
    (count * 1 <= length row)%nat.
Proof.
  induction count as [|count IH]; intros row out; cbn [indexed_row]; [lia|].
  destruct row as [|index row]; [discriminate|].
  destruct (palette !! byte_nat index) as [[[r g] b]|]; [|discriminate].
  destruct (alpha_table !! byte_nat index) as [a|]; [|discriminate].
  destruct (indexed_row palette alpha_table count row) as [rest|e] eqn:Hr;
    [|discriminate].
  intros _. apply IH in Hr. simpl. lia.
Qed.

Lemma decode_rows_needs (composite : bytes -> outcome bytes)
    (channels row_bytes : nat) :
  (forall row o, composite row = Ok o -> (row_bytes <= length row)%nat) ->
  forall (count : nat) (data prev_row out : bytes),
    decode_rows composite channels row_bytes count data prev_row = Ok out ->
    (count * (1 + row_bytes) <= length data)%nat.
Proof.
  intros Hc. induction count as [|count IH]; intros data prev_row out;
    cbn [decode_rows]; [lia|].
  unfold getitem.
  destruct (data !! 0%nat) as [ft|] eqn:Hft; [|discriminate]. cbn [bind].
  destruct (apply_filter _ _ _ _) as [row|e] eqn:Hf; [|discriminate].
  cbn [bind].
  destruct (composite row) as [o|e] eqn:Ho; [|discriminate]. cbn [bind].
  destruct (decode_rows _ _ _ _ _ _) as [rest|e] eqn:Hr; [|discriminate].
  intros _. apply IH in Hr. apply Hc in Ho.
  apply apply_filter_length in Hf. rewrite Hf in Ho.
  unfold slice in Ho. rewrite length_take, length_drop in Ho.
  rewrite length_drop in Hr. apply lookup_lt_Some in Hft. lia.
Qed.

(** X25. In the blending modes (every colour type but 2) truncated
    pixel data are never accepted: when [to_rgb] returns a buffer, the
    decompressed data hold at least [height] whole rows of one filter byte
    and [width * channels] bytes each. *)
Theorem to_rgb_blended_needs_all_rows
    (zlib_decompress : bytes -> outcome bytes) (self : PngImage)
    (decompressed out : bytes) :
  color_type self <> 2%nat ->
  zlib_decompress (concat (_idat_chunks self)) = Ok decompressed ->
  to_rgb zlib_decompress self = Ok out ->
  (height self * (1 + width self * channels_of self)
   <= length decompressed)%nat.
Proof.
  intros Hct Hz. unfold to_rgb. rewrite Hz. cbn [bind].
  destruct (composite_rows self decompressed) as [rows|e] eqn:Hrows;
    [|discriminate].
  intros _. revert Hrows. unfold composite_rows. cbv zeta.
  destruct (Nat.eq_dec (color_type self) 3%nat) as [E3|N3].
  - assert (Hch : channels_of self = 1%nat)
      by (unfold channels_of; rewrite E3; reflexivity).
    destruct (_palette self) as [palette|] eqn:Hp;
      [|rewrite Hch; discriminate].
    set (alpha_table :=
           take (length palette) (default [] (_transparency self))
           ++ replicate (length palette
                         - length (default [] (_transparency self))) xff).
    replace (if (channels_of self =? 1)%nat then _ else Ok None)
      with (@Ok (option (list byte)) (Some alpha_table)).
    2:{ rewrite Hch. cbn [Nat.eqb]. rewrite build_alpha_table_eq.
        reflexivity. }
    cbn [bind].
    rewrite (composite_rows_decode self decompressed (Some alpha_table)
               (indexed_row palette alpha_table (width self))).
    + rewrite Hch. apply decode_rows_needs.
      intros row o Ho. eapply indexed_row_needs. exact Ho.
    + intros row result out_offset Hlen. unfold write_row. rewrite Hch, Hp.
      cbn [Nat.eqb]. rewrite indexed_loop by exact Hlen. reflexivity.
    + intros row o Ho _. apply (indexed_row_length _ _ _ _ _ Ho).
  - assert (Hch : channels_of self = 4%nat).
    { unfold channels_of.
      destruct (Nat.eqb_spec (color_type self) 3); [contradiction|].
      destruct (Nat.eqb_spec (color_type self) 2); [contradiction|].
      reflexivity. }
    replace (if (channels_of self =? 1)%nat then _ else Ok None)
      with (@Ok (option (list byte)) None) by (rewrite Hch; reflexivity).
    cbn [bind].
    rewrite (composite_rows_decode self decompressed None
               (rgba_row (width self))).
    + rewrite Hch. apply decode_rows_needs.
      intros row o Ho. eapply rgba_row_needs. exact Ho.
    + intros row result out_offset Hlen. unfold write_row. rewrite Hch.
      cbn [Nat.eqb]. rewrite rgba_loop by exact Hlen. reflexivity.
    + intros row o Ho _. apply (rgba_row_length _ _ _ Ho).
Qed.

Lemma to_rgb_blended_needs_all_rows_witness :
  (height png_rgba_loaded
   * (1 + width png_rgba_loaded * channels_of png_rgba_loaded)
   <= length [x00; xc8; x00; xff; x80])%nat.
Proof.
  apply (to_rgb_blended_needs_all_rows inflate_stored png_rgba_loaded
           [x00; xc8; x00; xff; x80] [xe3; x7f; xff]).
  - discriminate.
  - vm_compute. reflexivity.
  - vm_compute. reflexivity.
Defined.

(** ** The alpha format, pixel by pixel *)

Lemma decode_rows_unfilter (composite : bytes -> outcome bytes)
    (channels row_bytes : nat) (count : nat) :
  forall (data prev_row out : bytes),
    decode_rows composite channels row_bytes count data prev_row = Ok out ->
    exists (rows outs : list bytes),
      unfilter_rows channels row_bytes count data prev_row = Ok rows /\
      Forall2 (fun row o => composite row = Ok o) rows outs /\
      out = concat outs /\
      Forall (fun row => (length row <= row_bytes)%nat) rows /\
      length rows = count.
Proof.
  induction count as [|count IH]; intros data prev_row out;
    cbn [decode_rows unfilter_rows].
  - intros [= <-]. exists [], []. repeat apply conj; auto.
  - destruct (getitem data 0) as [ft|e]; [|discriminate]. cbn [bind].
    destruct (apply_filter _ _ _ _) as [row|e] eqn:Hf; [|discriminate].
    cbn [bind].
    destruct (composite row) as [o|e] eqn:Ho; [|discriminate]. cbn [bind].
    destruct (decode_rows _ _ _ _ _ _) as [rest|e] eqn:Hr; [|discriminate].
    cbn [bind]. intros [= <-].
    destruct (IH _ _ _ Hr) as (rows & outs & -> & H2 & -> & Hle & Hlen).
    exists (row :: rows), (o :: outs). cbn [bind].
    repeat apply conj; auto.
    + constructor; [|exact Hle].
      apply apply_filter_length in Hf. rewrite Hf. unfold slice.
      rewrite length_take. lia.
    + simpl. by rewrite Hlen.
Qed.

Lemma rgba_row_pixel (count : nat) :
  forall (row o : bytes) (x : nat) (r g b a : byte),
    rgba_row count row = Ok o -> (x < count)%nat ->
    slice row (x * 4) (x * 4 + 4) = [r; g; b; a] ->
    slice o (x * 3) (x * 3 + 3) = over_white r g b a.
Proof.
  induction count as [|count IH]; intros row o x r g b a; cbn [rgba_row];
    [lia|].
  destruct row as [|r0 [|g0 [|b0 [|a0 row]]]]; try discriminate.
  destruct (rgba_row count row) as [rest|e] eqn:Hr; [|discriminate].
  cbn [bind]. intros [= <-] Hx.
  pose proof (over_white_length r0 g0 b0 a0) as Hw.
  destruct x as [|x].
  - unfold slice. cbn [Nat.mul Nat.add Nat.sub drop take].
    intros [= <- <- <- <-].
    rewrite drop_0, take_app_length'; [reflexivity | symmetry; exact Hw].
  - unfold slice.
    replace (S x * 4 + 4 - S x * 4)%nat with 4%nat by lia.
    replace (S x * 3 + 3 - S x * 3)%nat with 3%nat by lia.
    replace (S x * 4)%nat with (4 + x * 4)%nat by lia.
    replace (S x * 3)%nat
      with (length (over_white r0 g0 b0 a0) + x * 3)%nat by lia.
    rewrite drop_app_add. cbn [Nat.add drop]. intros Hs.
    specialize (IH row rest x r g b a Hr ltac:(lia)).
    unfold slice in IH.
    replace (x * 4 + 4 - x * 4)%nat with 4%nat in IH by lia.
    replace (x * 3 + 3 - x * 3)%nat with 3%nat in IH by lia.
    apply IH. exact Hs.
Qed.

Lemma slice_concat_fixed (k : nat) (outs : list bytes) :
  Forall (fun o => length o = k) outs ->
  forall (y : nat) (o : bytes) (a n : nat),
    outs !! y = Some o -> (a + n <= k)%nat ->
    slice (concat outs) (y * k + a) (y * k + a + n) = slice o a (a + n).
Proof.
  induction 1 as [|o0 outs Hk Hall IH]; intros y o a n Hy Han;
    [discriminate|].
  unfold slice.
  replace (y * k + a + n - (y * k + a))%nat with n by lia.
  replace (a + n - a)%nat with n by lia.
  destruct y as [|y]; cbn [concat].
  - injection Hy as ->. cbn [Nat.mul Nat.add].
    rewrite drop_app_le by lia.
    rewrite take_app_le; [reflexivity|]. rewrite length_drop. lia.
  - cbn [lookup list_lookup] in Hy.
    replace (S y * k + a)%nat with (length o0 + (y * k + a))%nat by lia.
    rewrite drop_app_add.
    specialize (IH y o a n Hy Han). unfold slice in IH.
    replace (y * k + a + n - (y * k + a))%nat with n in IH by lia.
    replace (a + n - a)%nat with n in IH by lia.
    exact IH.
Qed.

Lemma over_white_cases (r g b a : byte) :
  exists r' g' b',
    over_white r g b a = [r'; g'; b'] /\
    ((byte_val a = 255 /\ r' = r /\ g' = g /\ b' = b) \/
     (byte_val a = 0 /\ r' = xff /\ g' = xff /\ b' = xff) \/
     (0 < byte_val a < 255 /\
      byte_val r' = (byte_val r * byte_val a + 255 * (255 - byte_val a) + 127) / 255 /\
      byte_val g' = (byte_val g * byte_val a + 255 * (255 - byte_val a) + 127) / 255 /\
      byte_val b' = (byte_val b * byte_val a + 255 * (255 - byte_val a) + 127) / 255)).
Proof.
  unfold over_white.
  destruct (Z.eqb_spec (byte_val a) 255) as [E|N].
  { exists r, g, b. split; [reflexivity|]. left. auto. }
  destruct (Z.eqb_spec (byte_val a) 0) as [E0|N0].
  { exists xff, xff, xff. split; [reflexivity|]. right. left. auto. }
  pose proof (byte_val_range a) as Ha.
  do 3 eexists. split; [reflexivity|]. right. right.
  assert (Hv : forall c : byte,
             byte_val (wrap_byte (blend (byte_val c) (byte_val a)))
             = (byte_val c * byte_val a + 255 * (255 - byte_val a) + 127) / 255).
  { intros c. rewrite wrap_byte_val. apply Z.mod_small.
    pose proof (blend_range (byte_val c) (byte_val a) (byte_val_range c)
                  ltac:(lia)) as Hb.
    unfold blend in *. lia. }
  split; [lia|]. rewrite !Hv. auto.
Qed.

(** C5. Every pixel of a TruecolorAlpha image.  When [to_rgb]
    returns a buffer, the decompressed data hold [height] rows of [width]
    pixels of four bytes each, and for the pixel [(r, g, b, a)] at column
    [x] of the reconstructed row [y] the three bytes of pixel
    [y * width + x] of the buffer are [(r, g, b)] if [a = 255], white if
    [a = 0], and otherwise, per channel,
    [(channel * a + 255 * (255 - a) + 127) // 255]; for channel 200 and
    alpha 128 this value is 227. *)
Theorem to_rgb_rgba_blends_over_white
    (zlib_decompress : bytes -> outcome bytes) (self : PngImage)
    (decompressed out : bytes) :
  color_type self = 6%nat ->
  zlib_decompress (concat (_idat_chunks self)) = Ok decompressed ->
  to_rgb zlib_decompress self = Ok out ->
  exists rows : list bytes,
    unfilter_rows 4 (width self * 4) (height self) decompressed
      (zeros (width self * 4)) = Ok rows /\
    length rows = height self /\
    Forall (fun row => length row = (width self * 4)%nat) rows /\
    length out = (width self * height self * 3)%nat /\
    (forall (x y : nat) (row : bytes) (r g b a : byte),
        rows !! y = Some row -> (x < width self)%nat ->
        slice row (x * 4) (x * 4 + 4) = [r; g; b; a] ->
        exists r' g' b',
          pixel out (y * width self + x) = [r'; g'; b'] /\
          ((byte_val a = 255 /\ r' = r /\ g' = g /\ b' = b) \/
           (byte_val a = 0 /\ r' = xff /\ g' = xff /\ b' = xff) \/
           (0 < byte_val a < 255 /\
            byte_val r' = (byte_val r * byte_val a + 255 * (255 - byte_val a) + 127) / 255 /\
            byte_val g' = (byte_val g * byte_val a + 255 * (255 - byte_val a) + 127) / 255 /\
            byte_val b' = (byte_val b * byte_val a + 255 * (255 - byte_val a) + 127) / 255))) /\
    blend 200 128 = 227.
Proof.
  intros Hct Hz.
  assert (Hch : channels_of self = 4%nat)
    by (unfold channels_of; rewrite Hct; reflexivity).
  unfold to_rgb. rewrite Hz. cbn [bind].
  destruct (composite_rows self decompressed) as [result|e] eqn:Hrows;
    [|discriminate].
  cbn [bind]. intros [= <-].
  assert (Hkey : apply_transparency_key self result = result).
  { unfold apply_transparency_key. rewrite Hch.
    destruct (_transparency self) as [[|v t]|]; reflexivity. }
  rewrite Hkey. clear Hkey.
  revert Hrows. unfold composite_rows. cbv zeta.
  replace (if (channels_of self =? 1)%nat then _ else Ok None)
    with (@Ok (option (list byte)) None) by (rewrite Hch; reflexivity).
  cbn [bind].
  rewrite (composite_rows_decode self decompressed None
             (rgba_row (width self))).
  2:{ intros row res out_offset Hlen. unfold write_row. rewrite Hch.
      cbn [Nat.eqb]. rewrite rgba_loop by exact Hlen. reflexivity. }
  2:{ intros row o Ho _. apply (rgba_row_length _ _ _ Ho). }
  rewrite Hch. intros Hdec.
  destruct (decode_rows_unfilter _ _ _ _ _ _ _ Hdec)
    as (rows & outs & Hrows & H2 & -> & Hle & Hlen).
  exists rows. split; [exact Hrows|]. split; [exact Hlen|].
  assert (Houts : Forall (fun o => length o = (width self * 3)%nat) outs).
  { clear -H2. induction H2 as [|row o rows outs Ho _ IH]; constructor.
    - apply (rgba_row_length _ _ _ Ho).
    - exact IH. }
  assert (Hfull : Forall (fun row => length row = (width self * 4)%nat) rows).
  { clear -H2 Hle. induction H2 as [|row o rows outs Ho _ IH];
      constructor.
    - apply Forall_cons_1 in Hle as [Hle _].
      apply rgba_row_needs in Ho. lia.
    - apply IH. apply Forall_cons_1 in Hle as [_ Hle]. exact Hle. }
  split; [exact Hfull|]. split.
  { apply Forall2_length in H2. rewrite <- Hlen, H2.
    clear -Houts. induction Houts as [|o outs Ho _ IH]; [simpl; lia|].
    cbn [concat length]. rewrite length_app, IH, Ho. lia. }
  split; [|reflexivity].
  intros x y row r g b a Hy Hx Hs.
  destruct (Forall2_lookup_l _ _ _ _ _ H2 Hy) as (o & Ho & Hcomp).
  destruct (over_white_cases r g b a) as (r' & g' & b' & Hw & Hcases).
  exists r', g', b'. split; [|exact Hcases].
  unfold pixel.
  replace ((y * width self + x) * 3)%nat
    with (y * (width self * 3) + x * 3)%nat by lia.
  rewrite (slice_concat_fixed _ _ Houts y o (x * 3) 3 Ho) by lia.
  rewrite <- Hw. apply (rgba_row_pixel _ _ _ _ _ _ _ _ Hcomp Hx Hs).
Qed.

Lemma to_rgb_rgba_blends_over_white_witness :
  exists rows : list bytes,
    unfilter_rows 4 (width png_rgba_loaded * 4) (height png_rgba_loaded)
      [x00; xc8; x00; xff; x80] (zeros (width png_rgba_loaded * 4))
    = Ok rows /\
    length rows = height png_rgba_loaded /\
    Forall (fun row => length row = (width png_rgba_loaded * 4)%nat) rows /\
    length [xe3; x7f; xff]
    = (width png_rgba_loaded * height png_rgba_loaded * 3)%nat /\
    (forall (x y : nat) (row : bytes) (r g b a : byte),
        rows !! y = Some row -> (x < width png_rgba_loaded)%nat ->
        slice row (x * 4) (x * 4 + 4) = [r; g; b; a] ->
        exists r' g' b',
          pixel [xe3; x7f; xff] (y * width png_rgba_loaded + x)
          = [r'; g'; b'] /\
          ((byte_val a = 255 /\ r' = r /\ g' = g /\ b' = b) \/
           (byte_val a = 0 /\ r' = xff /\ g' = xff /\ b' = xff) \/
           (0 < byte_val a < 255 /\
            byte_val r' = (byte_val r * byte_val a + 255 * (255 - byte_val a) + 127) / 255 /\
            byte_val g' = (byte_val g * byte_val a + 255 * (255 - byte_val a) + 127) / 255 /\
            byte_val b' = (byte_val b * byte_val a + 255 * (255 - byte_val a) + 127) / 255))) /\
    blend 200 128 = 227.
Proof.
  apply (to_rgb_rgba_blends_over_white inflate_stored png_rgba_loaded
           [x00; xc8; x00; xff; x80] [xe3; x7f; xff]).
  - reflexivity.
  - vm_compute. reflexivity.
  - vm_compute. reflexivity.
Defined.

(** ** What a failed [load] leaves *)








